(** * Open Targets cancer / MeSH pipeline: a shallow embedding

    The pipeline of [src/pipeline] is embedded stage by stage:

    - [ExtractMesh]     : [extract_mesh.py]     (descriptor parser, hierarchy extractor)
    - [ExtractDiseases] : [extract_diseases.py] (cancer filter, MeSH cross references)
    - [BuildCrosswalk]  : [build_crosswalk.py]  (disease/MeSH crosswalk, aggregation)
    - [AddEntrez]       : [add_entrez.py]       (Ensembl to Entrez remapping)
    - [RunAll]          : the artifact paths that chain the three steps

    Conventions.  A Python [str] is a Rocq [string], one [ascii] per character
    (code points 0 to 255).  A Python exception is a value of [exn] carried by
    [result].  A pandas frame is a [DataFrame]: its column labels and its
    rows, the rows being typed records.  Python integers are [Z]; a cell
    of an int64 column is a [Z] as well, and arithmetic on such cells has
    its wrap-around written out ([wrap_int64]); an association score is a
    rational. *)

From Stdlib Require Import List String Ascii ZArith QArith Bool Lia Arith.
From Stdlib Require Import Permutation Sorted.
Import ListNotations.

Local Open Scope string_scope.
Local Open Scope list_scope.
Local Open Scope nat_scope.

(** ** Python and pandas primitives *)

Module Py.

(** The exceptions the pipeline can raise. *)
Inductive exn : Type :=
| KeyError (key : string)
| ValueError (what : string)
| OverflowError
| ZeroDivisionError
| FileNotFoundError (msg : string).

Inductive result (A : Type) : Type :=
| Ok (a : A)
| Raise (e : exn).
Arguments Ok {A} a.
Arguments Raise {A} e.

Definition bind {A B} (m : result A) (k : A -> result B) : result B :=
  match m with
  | Ok a => k a
  | Raise e => Raise e
  end.

Definition is_ok {A} (m : result A) : bool :=
  match m with Ok _ => true | Raise _ => false end.

(** *** Strings *)

(** [str.isspace] on the code points below 256: TAB, LF, VT, FF, CR,
    FS, GS, RS, US, SPACE, NEL (0x85) and NBSP (0xA0). *)
Definition is_space (c : ascii) : bool :=
  let n := nat_of_ascii c in
  ((9 <=? n) && (n <=? 13)) || ((28 <=? n) && (n <=? 32))
  || (n =? 133) || (n =? 160).

Fixpoint lstrip (s : string) : string :=
  match s with
  | String c rest => if is_space c then lstrip rest else s
  | EmptyString => EmptyString
  end.

Fixpoint string_rev_onto (s acc : string) : string :=
  match s with
  | String c rest => string_rev_onto rest (String c acc)
  | EmptyString => acc
  end.

Definition string_rev (s : string) : string := string_rev_onto s EmptyString.

Definition rstrip (s : string) : string := string_rev (lstrip (string_rev s)).

(** [s.strip()] *)
Definition strip (s : string) : string := rstrip (lstrip s).

(** [s.startswith(p)] *)
Definition startswith (s p : string) : bool := String.prefix p s.

(** [s[n:]] *)
Fixpoint slice_from (n : nat) (s : string) : string :=
  match n, s with
  | O, _ => s
  | S n', String _ rest => slice_from n' rest
  | S _, EmptyString => EmptyString
  end.

(** [s.count(c)] for a one-character [c]. *)
Fixpoint count_char (c : ascii) (s : string) : nat :=
  match s with
  | String d rest => (if Ascii.eqb c d then 1 else 0) + count_char c rest
  | EmptyString => 0
  end.

(** [str.lower] on one character: A-Z, and the Latin-1 capitals
    0xC0-0xDE without the multiplication sign 0xD7. *)
Definition lower_char (c : ascii) : ascii :=
  let n := nat_of_ascii c in
  if ((65 <=? n) && (n <=? 90))
     || ((192 <=? n) && (n <=? 222) && negb (n =? 215))
  then ascii_of_nat (n + 32) else c.

Fixpoint lower (s : string) : string :=
  match s with
  | String c rest => String (lower_char c) (lower rest)
  | EmptyString => EmptyString
  end.

(** Truth value of a [str] that may be [None] (or missing from a dict). *)
Definition truthy_str (o : option string) : bool :=
  match o with
  | Some s => negb (String.eqb s "")
  | None => false
  end.

Definition truthy_list {A} (o : option (list A)) : bool :=
  match o with
  | Some (_ :: _) => true
  | _ => false
  end.

(** Iterating over a text file opened with the default [newline=None]:
    LF, CR and CR LF all end a line; a last line without terminator is
    still produced, an empty remainder is not.  The terminator itself is
    left out here: every consumer strips the line first. *)
Definition nl : ascii := ascii_of_nat 10.
Definition cr : ascii := ascii_of_nat 13.

Fixpoint lines_from (cur : string) (s : string) : list string :=
  match s with
  | EmptyString =>
      match cur with
      | EmptyString => []
      | _ => [string_rev cur]
      end
  | String c rest =>
      if Ascii.eqb c nl then string_rev cur :: lines_from EmptyString rest
      else if Ascii.eqb c cr then
        string_rev cur ::
        lines_from EmptyString
          (match rest with
           | String d rest' => if Ascii.eqb d nl then rest' else rest
           | EmptyString => rest
           end)
      else lines_from (String c cur) rest
  end.

Definition lines (text : string) : list string := lines_from EmptyString text.

(** *** Sorting *)

(** A stable sort by insertion, for the orders pandas sorts on.  The
    default [kind="quicksort"] of a sort on one column does not fix the
    order of rows with equal keys; this sort is one of the orders it can
    give, and the facts proved of a sorted frame are facts of every such
    order: which rows it has, and that the keys are in order. *)
Section Sort.
Context {A : Type} (leb : A -> A -> bool).

Fixpoint insert_sorted (x : A) (l : list A) : list A :=
  match l with
  | [] => [x]
  | y :: t => if leb x y then x :: l else y :: insert_sorted x t
  end.

Fixpoint sort_by (l : list A) : list A :=
  match l with
  | [] => []
  | x :: t => insert_sorted x (sort_by t)
  end.

(** [ascending=False]: pandas reverses, sorts ascending, reverses
    back (see [nargsort]). *)
Definition sort_by_desc (l : list A) : list A := rev (sort_by (rev l)).
End Sort.

(** Lexicographic order on pairs of strings, as used for a sort on two
    string columns. *)
Definition str_pair_leb (a b : string * string) : bool :=
  String.ltb (fst a) (fst b)
  || (String.eqb (fst a) (fst b) && String.leb (snd a) (snd b)).

(** *** Frames *)

Record DataFrame (A : Type) : Type := mkDF {
  columns : list string;
  rows : list A
}.
Arguments mkDF {A} columns rows.
Arguments columns {A} d.
Arguments rows {A} d.

(** [pd.DataFrame(records)] for a list of dicts that all carry the keys
    [cols]: the labels come from the dicts, so an empty list gives a frame
    without any column. *)
Definition DataFrame_of_records {A} (cols : list string) (rs : list A)
  : DataFrame A :=
  mkDF (match rs with [] => [] | _ :: _ => cols end) rs.

Definition has_column {A} (d : DataFrame A) (c : string) : bool :=
  existsb (String.eqb c) (columns d).

(** The first label of [by] that is not a column, if any: the one the
    [KeyError] of pandas names. *)
Fixpoint missing_column {A} (d : DataFrame A) (by_ : list string)
  : option string :=
  match by_ with
  | [] => None
  | c :: t => if has_column d c then missing_column d t else Some c
  end.

(** [df.sort_values(by, ascending=...)], the order on rows being that of
    the [by] columns. *)
Definition sort_values {A} (by_ : list string) (ascending : bool)
           (leb : A -> A -> bool) (d : DataFrame A)
  : result (DataFrame A) :=
  match missing_column d by_ with
  | Some c => Raise (KeyError c)
  | None =>
      Ok (mkDF (columns d)
               (if ascending then sort_by leb (rows d)
                else sort_by_desc leb (rows d)))
  end.

(** [drop_duplicates(subset, keep='first')]: a row stays when no earlier
    row has its key. *)
Fixpoint drop_duplicates_first_from {A} (same : A -> A -> bool)
         (seen : list A) (l : list A) : list A :=
  match l with
  | [] => []
  | x :: t =>
      if existsb (same x) seen
      then drop_duplicates_first_from same seen t
      else x :: drop_duplicates_first_from same (x :: seen) t
  end.

Definition drop_duplicates_first {A} (same : A -> A -> bool) (l : list A)
  : list A :=
  drop_duplicates_first_from same [] l.

(** [drop_duplicates(subset, keep='last')]: a row stays when no later row
    has its key. *)
Fixpoint drop_duplicates_last {A} (same : A -> A -> bool) (l : list A)
  : list A :=
  match l with
  | [] => []
  | x :: t =>
      if existsb (same x) t
      then drop_duplicates_last same t
      else x :: drop_duplicates_last same t
  end.

(** [frame[mask]] for a boolean mask of the frame's length. *)
Fixpoint boolean_index {A} (l : list A) (mask : list bool) : list A :=
  match l, mask with
  | x :: t, b :: m => if b then x :: boolean_index t m else boolean_index t m
  | _, _ => []
  end.

(** *** Integers of a column *)

(** The value of an int64 cell after an arithmetic result [z]: numpy
    keeps the low 64 bits, in two's complement. *)
Definition wrap_int64 (z : Z) : Z :=
  ((z + 2 ^ 63) mod 2 ^ 64 - 2 ^ 63)%Z.

Definition option_eqb {A} (eqb : A -> A -> bool) (a b : option A) : bool :=
  match a, b with
  | Some x, Some y => eqb x y
  | None, None => true
  | _, _ => false
  end.

End Py.

Import Py.

Declare Scope py_scope.
Notation "x <- m ;; k" := (bind m (fun x => k))
  (at level 61, m at next level, right associativity) : py_scope.
Local Open Scope py_scope.

(** ** extract_mesh.py *)

Module ExtractMesh.

(** The dict [current] of the parser, and the dicts it emits: each of the
    keys ['UI'], ['MH'], ['MN'] may be missing. *)
Record MeshDict : Type := mkMeshDict {
  UI : option string;
  MH : option string;
  MN : option (list string)
}.

(** [{}] *)
Definition empty_dict : MeshDict := mkMeshDict None None None.
(** [{'MN': []}] *)
Definition fresh_dict : MeshDict := mkMeshDict None None (Some []).

Record ParserState : Type := mkState {
  records : list MeshDict;
  current : MeshDict
}.

(** [if current.get('UI') and current.get('MN'): records.append(current)] *)
Definition flush (st : ParserState) : list MeshDict :=
  if truthy_str (UI (current st)) && truthy_list (MN (current st))
  then records st ++ [current st]
  else records st.

(** The body of [for line in f]. *)
Definition step (st : ParserState) (raw : string) : result ParserState :=
  let line := strip raw in
  let cur := current st in
  if String.eqb line "*NEWRECORD" then
    Ok (mkState (flush st) fresh_dict)
  else if startswith line "UI = " then
    Ok (mkState (records st)
                (mkMeshDict (Some (slice_from 5 line)) (MH cur) (MN cur)))
  else if startswith line "MH = " then
    Ok (mkState (records st)
                (mkMeshDict (UI cur) (Some (slice_from 5 line)) (MN cur)))
  else if startswith line "MN = " then
    match MN cur with
    | Some mn =>
        Ok (mkState (records st)
                    (mkMeshDict (UI cur) (MH cur)
                                (Some (mn ++ [slice_from 5 line]))))
    | None => Raise (KeyError "MN")
    end
  else Ok st.

Fixpoint run_lines (st : ParserState) (ls : list string)
  : result ParserState :=
  match ls with
  | [] => Ok st
  | l :: rest => st' <- step st l ;; run_lines st' rest
  end.

Definition initial : ParserState := mkState [] empty_dict.

(** [parse_mesh_file], on the decoded text of the file. *)
Definition parse_mesh_file (text : string) : result (list MeshDict) :=
  st <- run_lines initial (lines text) ;;
  Ok (flush st).

(** A row of the hierarchy frame. *)
Record HierarchyEntry : Type := mkEntry {
  mesh_id : string;
  mesh_name : string;
  tree_number : string;
  level : Z
}.

Definition hierarchy_columns : list string :=
  ["mesh_id"; "mesh_name"; "tree_number"; "level"].

Definition dot : ascii := ascii_of_nat 46.

(** The inner loop [for tree_num in rec['MN']]. *)
Fixpoint scan_tree_numbers (mesh_id mesh_name prefix : string)
         (mn : list string) (rows : list HierarchyEntry)
  : list HierarchyEntry :=
  match mn with
  | [] => rows
  | tree_num :: rest =>
      scan_tree_numbers mesh_id mesh_name prefix rest
        (if startswith tree_num prefix
         then rows ++ [mkEntry mesh_id mesh_name tree_num
                               (Z.of_nat (count_char dot tree_num) + 1)]
         else rows)
  end.

(** The outer loop [for rec in records]. *)
Fixpoint scan_records (recs : list MeshDict) (prefix : string)
         (rows : list HierarchyEntry) : result (list HierarchyEntry) :=
  match recs with
  | [] => Ok rows
  | rec :: rest =>
      match UI rec with
      | None => Raise (KeyError "UI")
      | Some mesh_id =>
          let mesh_name := match MH rec with Some n => n | None => "" end in
          match MN rec with
          | None => Raise (KeyError "MN")
          | Some mn =>
              scan_records rest prefix
                (scan_tree_numbers mesh_id mesh_name prefix mn rows)
          end
      end
  end.

Definition entry_leb (a b : HierarchyEntry) : bool :=
  str_pair_leb (tree_number a, mesh_id a) (tree_number b, mesh_id b).

Definition extract_c04_hierarchy (recs : list MeshDict) (prefix : string)
  : result (DataFrame HierarchyEntry) :=
  rows <- scan_records recs prefix [] ;;
  sort_values ["tree_number"; "mesh_id"] true entry_leb
              (DataFrame_of_records hierarchy_columns rows).

End ExtractMesh.

(** ** extract_diseases.py *)

Module ExtractDiseases.

(** A row of the disease index.  A list-valued cell may be null ([None]
    or the float NaN of pandas, both [None] here); an entry of the
    reference list may itself be null. *)
Record DiseaseRow : Type := mkDisease {
  id : string;
  name : string;
  ancestors : option (list string);
  dbXRefs : option (list (option string))
}.

Definition has_neoplasm_ancestor (cancer_ta : string)
           (anc : option (list string)) : bool :=
  match anc with
  | None => false
  | Some l => existsb (String.eqb cancer_ta) l
  end.

(** The columns of the disease index that the pipeline reads. *)
Definition disease_columns : list string :=
  ["id"; "name"; "ancestors"; "dbXRefs"].

(** [diseases[mask]] for the mask that [apply] returns.  On an index with
    rows the mask is a boolean Series and selects rows.  On an index
    without rows [apply] returns an empty Series of dtype object, which is
    no boolean indexer: it is read as an empty list of column labels, and
    the frame that comes back has no column. *)
Definition getitem_mask (diseases : list DiseaseRow) (mask : list bool)
  : DataFrame DiseaseRow :=
  match diseases with
  | [] => mkDF [] []
  | _ :: _ => mkDF disease_columns (boolean_index diseases mask)
  end.

Definition filter_cancer_diseases (diseases : list DiseaseRow)
           (cancer_ta : string) : result (list DiseaseRow) :=
  let mask :=
    map (fun d => has_neoplasm_ancestor cancer_ta (ancestors d)) diseases in
  let filtered := getitem_mask diseases mask in
  if has_column filtered "id"
  then Ok (boolean_index
             (rows filtered)
             (map (fun d => negb (String.eqb (id d) cancer_ta))
                  (rows filtered)))
  else Raise (KeyError "id").

(** The loop of [get_mesh_ids]. *)
Fixpoint collect_mesh_ids (xrefs : list (option string))
         (mesh_ids : list string) : list string :=
  match xrefs with
  | [] => mesh_ids
  | ref :: rest =>
      collect_mesh_ids rest
        (match ref with
         | Some r =>
             if negb (String.eqb r "") && startswith (lower r) "mesh:"
             then mesh_ids ++ [slice_from 5 r]
             else mesh_ids
         | None => mesh_ids
         end)
  end.

Definition get_mesh_ids (xrefs : option (list (option string)))
  : option (list string) :=
  match xrefs with
  | None => None
  | Some l =>
      match collect_mesh_ids l [] with
      | [] => None
      | ids => Some ids
      end
  end.

Record CancerDisease : Type := mkCancer {
  diseaseId : string;
  diseaseName : string;
  meshIds : option (list string)
}.

Definition extract_mesh_ids (diseases : list DiseaseRow)
  : list CancerDisease :=
  map (fun d => mkCancer (id d) (name d) (get_mesh_ids (dbXRefs d)))
      diseases.

End ExtractDiseases.

(** ** build_crosswalk.py *)

Module BuildCrosswalk.
Import ExtractMesh ExtractDiseases.

(** The dicts appended to [rows] while exploding [meshIds]. *)
Record Exploded : Type := mkExploded {
  x_diseaseId : string;
  x_diseaseName : string;
  x_meshId : string
}.

Definition exploded_columns : list string :=
  ["diseaseId"; "diseaseName"; "meshId"].

(** A row of the crosswalk: an exploded row joined to a hierarchy entry. *)
Record CrosswalkRow : Type := mkCrosswalk {
  cw_diseaseId : string;
  cw_diseaseName : string;
  cw_meshId : string;
  cw_mesh_name : string;
  cw_tree_number : string;
  cw_level : Z
}.

(** [for mesh_id in row["meshIds"]: rows.append(...)] *)
Fixpoint explode_ids (d : CancerDisease) (ids : list string)
         (rows : list Exploded) : list Exploded :=
  match ids with
  | [] => rows
  | mesh_id :: rest =>
      explode_ids d rest
        (rows ++ [mkExploded (diseaseId d) (diseaseName d) mesh_id])
  end.

(** [for _, row in with_mesh.iterrows()].  The rows of [with_mesh] all
    have a list in [meshIds]; a null there is left without rows. *)
Fixpoint explode_rows (with_mesh : list CancerDisease)
         (rows : list Exploded) : list Exploded :=
  match with_mesh with
  | [] => rows
  | d :: rest =>
      explode_rows rest
        (match meshIds d with
         | Some ids => explode_ids d ids rows
         | None => rows
         end)
  end.

Definition notna {A} (o : option A) : bool :=
  match o with Some _ => true | None => false end.

Definition join_row (x : Exploded) (h : HierarchyEntry) : CrosswalkRow :=
  mkCrosswalk (x_diseaseId x) (x_diseaseName x) (x_meshId x)
              (mesh_name h) (tree_number h) (level h).

(** [crosswalk.merge(mesh_hierarchy.rename(columns={"mesh_id": "meshId"}),
    on="meshId", how="inner")]: the key must be a column on both sides;
    the rows follow the left frame, each with its matches in the order of
    the right frame. *)
Definition merge_hierarchy (crosswalk : DataFrame Exploded)
           (mesh_hierarchy : DataFrame HierarchyEntry)
  : result (DataFrame CrosswalkRow) :=
  let right_columns :=
    map (fun c => if String.eqb c "mesh_id" then "meshId" else c)
        (columns mesh_hierarchy) in
  if has_column crosswalk "meshId"
     && existsb (String.eqb "meshId") right_columns
  then
    Ok (mkDF (columns crosswalk
              ++ filter (fun c => negb (String.eqb c "meshId")) right_columns)
             (flat_map
                (fun x =>
                   map (join_row x)
                       (filter (fun h => String.eqb (mesh_id h) (x_meshId x))
                               (rows mesh_hierarchy)))
                (rows crosswalk)))
  else Raise (KeyError "meshId").

Definition level_leb (a b : CrosswalkRow) : bool :=
  Z.leb (cw_level a) (cw_level b).

Definition same_pair (a b : CrosswalkRow) : bool :=
  String.eqb (cw_diseaseId a) (cw_diseaseId b)
  && String.eqb (cw_meshId a) (cw_meshId b).

Definition disease_level_leb (a b : CrosswalkRow) : bool :=
  String.ltb (cw_diseaseId a) (cw_diseaseId b)
  || (String.eqb (cw_diseaseId a) (cw_diseaseId b)
      && Z.leb (cw_level a) (cw_level b)).

Definition build_disease_mesh_crosswalk
           (cancer_diseases : list CancerDisease)
           (mesh_hierarchy : DataFrame HierarchyEntry)
  : result (DataFrame CrosswalkRow) :=
  let with_mesh :=
    boolean_index cancer_diseases
                  (map (fun d => notna (meshIds d)) cancer_diseases) in
  let rows_ := explode_rows with_mesh [] in
  let crosswalk := DataFrame_of_records exploded_columns rows_ in
  crosswalk <- merge_hierarchy crosswalk mesh_hierarchy ;;
  crosswalk <- sort_values ["level"] false level_leb crosswalk ;;
  let crosswalk :=
    mkDF (columns crosswalk) (drop_duplicates_last same_pair (rows crosswalk)) in
  sort_values ["diseaseId"; "level"] true disease_level_leb crosswalk.

(** A row of the association table. *)
Record Association : Type := mkAssoc {
  a_diseaseId : string;
  a_targetId : string;
  a_score : Q;
  a_evidenceCount : Z
}.

(** An association joined to the term of one crosswalk row. *)
Record Joined : Type := mkJoined {
  j_assoc : Association;
  j_meshId : string
}.

(** A row of the aggregated gene/term table. *)
Record GeneMesh : Type := mkGeneMesh {
  targetId : string;
  meshId : string;
  score : Q;
  evidenceCount : Z
}.

Definition group_key (j : Joined) : string * string :=
  (a_targetId (j_assoc j), j_meshId j).

Definition key_eqb (a b : string * string) : bool :=
  String.eqb (fst a) (fst b) && String.eqb (snd a) (snd b).

Definition qmax (a b : Q) : Q := if Qle_bool a b then b else a.

(** The ["max"] reducer on a group; a group is never empty. *)
Definition agg_max (l : list Q) : Q :=
  match l with
  | [] => 0%Q
  | x :: t => fold_left qmax t x
  end.

(** The ["sum"] reducer on the int64 column [evidenceCount]: the group
    is added up in an int64 accumulator, which wraps around. *)
Definition agg_sum (l : list Z) : Z :=
  fold_left (fun acc x => wrap_int64 (acc + x)) l 0%Z.

Definition group_of (k : string * string) (joined : list Joined)
  : list Joined :=
  filter (fun j => key_eqb (group_key j) k) joined.

(** [joined.groupby(["targetId", "meshId"]).agg(...).reset_index()]:
    one row per key, the keys in sorted order. *)
Definition groupby_agg (joined : list Joined) : list GeneMesh :=
  let keys :=
    sort_by str_pair_leb
            (drop_duplicates_first key_eqb (map group_key joined)) in
  map (fun k =>
         let g := group_of k joined in
         mkGeneMesh (fst k) (snd k)
                    (agg_max (map (fun j => a_score (j_assoc j)) g))
                    (agg_sum (map (fun j => a_evidenceCount (j_assoc j)) g)))
      keys.

(** [cancer_assoc.merge(crosswalk[["diseaseId", "meshId"]], on="diseaseId",
    how="inner")] *)
Definition merge_crosswalk (cancer_assoc : list Association)
           (crosswalk : list CrosswalkRow) : list Joined :=
  flat_map
    (fun a =>
       map (fun c => mkJoined a (cw_meshId c))
           (filter (fun c => String.eqb (cw_diseaseId c) (a_diseaseId a))
                   crosswalk))
    cancer_assoc.

Definition build_final_dataset (associations : list Association)
           (cancer_diseases : list CancerDisease)
           (crosswalk : list CrosswalkRow) : list GeneMesh :=
  let disease_ids := map cw_diseaseId crosswalk in
  let cancer_assoc :=
    boolean_index associations
      (map (fun a => existsb (String.eqb (a_diseaseId a)) disease_ids)
           associations) in
  let joined := merge_crosswalk cancer_assoc crosswalk in
  groupby_agg joined.

End BuildCrosswalk.

(** ** add_entrez.py *)

Module AddEntrez.
Import BuildCrosswalk.

(** The columns of gene2ensembl the module reads; [dtype=str], a cell
    being null where the parser of pandas found a missing value. *)
Record Gene2Ensembl : Type := mkG2E {
  tax_id : option string;
  GeneID : option string;
  Ensembl_gene_identifier : option string
}.

Record EntrezMap : Type := mkMap {
  entrezGeneId : option string;
  ensemblGeneId : option string
}.

(** [str(HUMAN_TAX_ID)] *)
Definition HUMAN_TAX_ID : string := "9606".

Definition same_mapping (a b : EntrezMap) : bool :=
  option_eqb String.eqb (entrezGeneId a) (entrezGeneId b)
  && option_eqb String.eqb (ensemblGeneId a) (ensemblGeneId b).

Definition same_ensembl (a b : EntrezMap) : bool :=
  option_eqb String.eqb (ensemblGeneId a) (ensemblGeneId b).

(** [load_gene2ensembl], on the table read from the file; [tax] is
    [str(tax_id)]. *)
Definition load_gene2ensembl (table : list Gene2Ensembl) (tax : string)
  : list EntrezMap :=
  let df :=
    boolean_index table
      (map (fun r => option_eqb String.eqb (tax_id r) (Some tax)) table) in
  let gene_mapping :=
    drop_duplicates_first same_mapping
      (map (fun r => mkMap (GeneID r) (Ensembl_gene_identifier r)) df) in
  drop_duplicates_first same_ensembl gene_mapping.

(** A row after the left merge: the Entrez id is null without a match. *)
Record Merged : Type := mkMerged {
  m_row : GeneMesh;
  m_entrezGeneId : option string
}.

Definition matches (r : GeneMesh) (entrez_map : list EntrezMap)
  : list EntrezMap :=
  filter (fun e => option_eqb String.eqb (ensemblGeneId e) (Some (targetId r)))
         entrez_map.

(** [df.merge(entrez_map.rename(...), on='targetId', how='left')] *)
Definition merge_left (df : list GeneMesh) (entrez_map : list EntrezMap)
  : list Merged :=
  flat_map
    (fun r =>
       match matches r entrez_map with
       | [] => [mkMerged r None]
       | ms => map (fun e => mkMerged r (entrezGeneId e)) ms
       end)
    df.

(** [df.dropna(subset=['entrezGeneId'])] *)
Definition dropna (df : list Merged) : list Merged :=
  filter (fun m => notna (m_entrezGeneId m)) df.

(** *** [int(s)] on a [str] *)

Definition digit_of (c : ascii) : option Z :=
  let n := nat_of_ascii c in
  if (48 <=? n) && (n <=? 57) then Some (Z.of_nat (n - 48)) else None.

Definition underscore : ascii := ascii_of_nat 95.

(** Decimal digits with single underscores between digits. *)
Fixpoint digits_value (acc : Z) (after_digit : bool) (s : string)
  : option Z :=
  match s with
  | EmptyString => if after_digit then Some acc else None
  | String c rest =>
      match digit_of c with
      | Some d => digits_value (10 * acc + d)%Z true rest
      | None =>
          if Ascii.eqb c underscore && after_digit
          then digits_value acc false rest
          else None
      end
  end.

(** The default [sys.int_max_str_digits] of CPython. *)
Definition int_max_str_digits : nat := 4300.

Definition count_digits (s : string) : nat :=
  String.length s - count_char underscore s.

Definition int_of_digits (s : string) : option Z :=
  if int_max_str_digits <? count_digits s then None
  else digits_value 0%Z false s.

(** [int(s)]: surrounding white space, one optional sign, digits. *)
Definition int_of_str (s : string) : option Z :=
  match strip s with
  | String c rest =>
      if Ascii.eqb c (ascii_of_nat 45) then option_map Z.opp (int_of_digits rest)
      else if Ascii.eqb c (ascii_of_nat 43) then int_of_digits rest
      else int_of_digits (String c rest)
  | EmptyString => None
  end.

(** One cell of [astype(int)]: [int(s)], then the cast to int64. *)
Definition to_int64 (s : string) : result Z :=
  match int_of_str s with
  | None => Raise (ValueError s)
  | Some z =>
      if (Z.leb (- 2 ^ 63) z && Z.ltb z (2 ^ 63))%Z then Ok z
      else Raise OverflowError
  end.

(** A row of the final table. *)
Record FinalRow : Type := mkFinal {
  disease_mesh_id : string;
  gene_entrez_id : Z;
  ot_score : Q;
  evidence_count : Z
}.

Definition final_columns : list string :=
  ["disease_mesh_id"; "gene_entrez_id"; "ot_score"; "evidence_count"].

(** [df['entrezGeneId'].astype(int)] and the selection of the four
    columns, row by row. *)
Fixpoint to_final (df : list Merged) : result (list FinalRow) :=
  match df with
  | [] => Ok []
  | m :: rest =>
      match m_entrezGeneId m with
      | None => Raise (ValueError "NaN")
      | Some s =>
          z <- to_int64 s ;;
          t <- to_final rest ;;
          Ok (mkFinal (meshId (m_row m)) z (score (m_row m))
                      (evidenceCount (m_row m)) :: t)
      end
  end.

Definition score_leb (a b : FinalRow) : bool :=
  Qle_bool (ot_score a) (ot_score b).

(** [run], from the merge on: [df] is the gene/term table of step 2 and
    [entrez_map] the result of [load_gene2ensembl].  With [verbose] the
    retained percentage is printed, which divides by the number of rows
    before the drop. *)
Definition run_merge (verbose : bool) (df : list GeneMesh)
           (entrez_map : list EntrezMap) : result (DataFrame FinalRow) :=
  let merged := merge_left df entrez_map in
  let before := List.length merged in
  let kept := dropna merged in
  if verbose && (before =? 0) then Raise ZeroDivisionError
  else
    final <- to_final kept ;;
    sort_values ["ot_score"] false score_leb (mkDF final_columns final).

Definition run (verbose : bool) (df : list GeneMesh)
           (gene2ensembl : list Gene2Ensembl) : result (DataFrame FinalRow) :=
  run_merge verbose df (load_gene2ensembl gene2ensembl HUMAN_TAX_ID).

End AddEntrez.

(** ** run_all.py: the artifacts that chain the steps *)

Module RunAll.
Import ExtractDiseases.

(** A [pathlib.Path], as its parts. *)
Definition Path : Type := list string.

(** [p / name] for a relative one-part [name]. *)
Definition pdiv (p : Path) (name : string) : Path := p ++ [name].

Fixpoint path_eqb (p q : Path) : bool :=
  match p, q with
  | [], [] => true
  | a :: p', b :: q' => String.eqb a b && path_eqb p' q'
  | _, _ => false
  end.

(** [config["paths"]]: the entry the two steps use. *)
Record Config : Type := mkConfig {
  processed_dir : Path
}.

(** The parquet files on disk: path and stored frame.  Directories and
    links are left out; a path names a file by its parts. *)
Definition FileSystem : Type := list (Path * list CancerDisease).

Fixpoint read_parquet (fs : FileSystem) (p : Path)
  : option (list CancerDisease) :=
  match fs with
  | [] => None
  | (q, content) :: rest =>
      if path_eqb p q then Some content else read_parquet rest p
  end.

Definition to_parquet (fs : FileSystem) (p : Path)
           (content : list CancerDisease) : FileSystem :=
  (p, content) :: fs.

(** [extract_diseases.run]: where step 1 saves its frame. *)
Definition step1_output_path (config : Config) : Path :=
  pdiv (pdiv (processed_dir config) "intermediate")
       "cancer_diseases_mesh_crosswalk.parquet".

(** [build_crosswalk.load_cancer_diseases]: where step 2 looks for it. *)
Definition step2_input_path (config : Config) : Path :=
  pdiv (processed_dir config) "cancer_diseases_mesh_crosswalk.parquet".

(** [extract_diseases.run] on the loaded disease index. *)
Definition extract_diseases_run (config : Config)
           (diseases : list DiseaseRow) (cancer_ta : string)
           (fs : FileSystem) : result (list CancerDisease * FileSystem) :=
  cancer_diseases <- filter_cancer_diseases diseases cancer_ta ;;
  let result := extract_mesh_ids cancer_diseases in
  Ok (result, to_parquet fs (step1_output_path config) result).

Definition load_cancer_diseases (config : Config) (fs : FileSystem)
  : result (list CancerDisease) :=
  match read_parquet fs (step2_input_path config) with
  | Some df => Ok df
  | None => Raise (FileNotFoundError "Run Step 1 first")
  end.

(** [main], up to the first action of step 2. *)
Definition main_until_step2 (config : Config) (diseases : list DiseaseRow)
           (cancer_ta : string) (fs : FileSystem)
  : result (list CancerDisease) :=
  out <- extract_diseases_run config diseases cancer_ta fs ;;
  load_cancer_diseases config (snd out).

End RunAll.

(** ** utils/config.py *)

Module Config.
Import RunAll.

(** An absolute path is the list of its names below the root directory,
    which is the empty list. *)

(** The path itself and its parents, nearest first, down to the root:
    [[current] + list(current.parents)]. *)
Fixpoint ancestors_upto (k : nat) (current : Path) : list Path :=
  match k with
  | O => [firstn 0 current]
  | S k' => firstn (S k') current :: ancestors_upto k' current
  end.

Definition candidates (current : Path) : list Path :=
  ancestors_upto (List.length current) current.

(** [get_project_root], from the resolved path of the module; [exists_]
    tells which files are on disk. *)
Definition get_project_root (exists_ : Path -> bool) (current : Path)
  : result Path :=
  match find (fun parent => exists_ (pdiv parent "config.yaml"))
             (candidates current) with
  | Some parent => Ok parent
  | None =>
      Raise (FileNotFoundError
               "Could not find project root (no config.yaml found)")
  end.

(** A value of the YAML mapping: a [str], kept as the path [pathlib] reads
    from it (absolute or relative, and its names), or anything else. *)
Inductive Value : Type :=
| VStr (absolute : bool) (names : Path)
| VOther (repr : string).

(** The mapping [yaml.safe_load] returns: its ["paths"] mapping, when it
    has one, and its entries under other keys than ["paths"] and
    ["_root"]. *)
Record Document : Type := mkDocument {
  doc_paths : option (list (string * Value));
  doc_other : list (string * Value)
}.

(** The dict [load_config] returns. *)
Record ConfigDict : Type := mkConfigDict {
  paths : list (string * Value);
  root_ : Path;
  other : list (string * Value)
}.

Record Disk : Type := mkDisk {
  file_exists : Path -> bool;
  yaml_of : Path -> Document
}.

(** [str(root / value)] for a [str], the value itself otherwise. *)
Definition resolve (root : Path) (v : Value) : Value :=
  match v with
  | VStr false names => VStr true (root ++ names)
  | VStr true names => VStr true names
  | VOther r => VOther r
  end.

Definition is_none {A} (o : option A) : bool :=
  match o with None => true | Some _ => false end.

(** [load_config]; the module variable [_CONFIG_CACHE] is the state. *)
Definition load_config (disk : Disk) (current : Path)
           (config_path : option Path) (cache : option ConfigDict)
  : result ConfigDict * option ConfigDict :=
  match cache, config_path with
  | Some cached, None => (Ok cached, cache)
  | _, _ =>
      match get_project_root (file_exists disk) current with
      | Raise e => (Raise e, cache)
      | Ok root =>
          let path :=
            match config_path with
            | None => pdiv root "config.yaml"
            | Some p => p
            end in
          (* from here on [config_path] is bound to [path] *)
          let config_path : option Path := Some path in
          if negb (file_exists disk path)
          then (Raise (FileNotFoundError "Config file not found"), cache)
          else
            let doc := yaml_of disk path in
            let paths_ :=
              match doc_paths doc with Some ps => ps | None => [] end in
            let config :=
              mkConfigDict
                (map (fun kv => (fst kv, resolve root (snd kv))) paths_)
                root (doc_other doc) in
            (Ok config, if is_none config_path then Some config else cache)
      end
  end.

End Config.

(** ** The steps in sequence *)

Module Pipeline.
Import ExtractMesh ExtractDiseases BuildCrosswalk AddEntrez.

(** [build_crosswalk.run], on the cancer diseases of step 1, the text of
    the descriptor file and the association table. *)
Definition step2 (cancer_diseases : list CancerDisease) (mesh_text : string)
           (associations : list Association)
  : result (DataFrame CrosswalkRow * list GeneMesh) :=
  recs <- parse_mesh_file mesh_text ;;
  mesh_hierarchy <- extract_c04_hierarchy recs "C04.588" ;;
  crosswalk <- build_disease_mesh_crosswalk cancer_diseases mesh_hierarchy ;;
  Ok (crosswalk,
      build_final_dataset associations cancer_diseases (rows crosswalk)).

(** The three steps of [run_all.main], each one on the frame the step
    before it returns. *)
Definition pipeline (diseases : list DiseaseRow) (cancer_ta : string)
           (mesh_text : string) (associations : list Association)
           (gene2ensembl : list Gene2Ensembl)
  : result (DataFrame FinalRow) :=
  filtered <- filter_cancer_diseases diseases cancer_ta ;;
  let cancer_diseases := extract_mesh_ids filtered in
  out <- step2 cancer_diseases mesh_text associations ;;
  AddEntrez.run true (snd out) gene2ensembl.

End Pipeline.

(** ** What the specification says, in its own words *)

Module Spec.
Import ExtractMesh ExtractDiseases BuildCrosswalk AddEntrez.

(** Exact string-prefix match: the first [length prefix] characters of
    the path are the prefix. *)
Definition path_has_prefix (prefix path : string) : bool :=
  String.eqb (substring 0 (String.length prefix) path) prefix.

(** [level] = count of dot separators in the path + 1. *)
Definition level_of (path : string) : Z :=
  (Z.of_nat (count_char dot path) + 1)%Z.

(** One hierarchy entry per (record, tree path) whose path starts with
    the prefix. *)
Definition hierarchy_rows (recs : list MeshDict) (prefix : string)
  : list HierarchyEntry :=
  flat_map
    (fun rec =>
       map (fun path =>
              mkEntry (match UI rec with Some u => u | None => "" end)
                      (match MH rec with Some n => n | None => "" end)
                      path (level_of path))
           (filter (path_has_prefix prefix)
                   (match MN rec with Some mn => mn | None => [] end)))
    recs.

(** A record as the parser emits it: identifier and tree numbers present. *)
Definition parsed_record (rec : MeshDict) : Prop :=
  (exists u, UI rec = Some u) /\ (exists mn, MN rec = Some mn).

(** The fixed source-system tag of a MeSH cross reference. *)
Definition mesh_prefix : string := "MeSH:".

(** Case-insensitive match of the tag against the start of a reference. *)
Definition is_mesh_ref (ref : string) : bool :=
  String.eqb (lower (substring 0 (String.length mesh_prefix) ref))
             (lower mesh_prefix).

(** The reference without the tag. *)
Definition strip_mesh_prefix (ref : string) : string :=
  substring (String.length mesh_prefix)
            (String.length ref - String.length mesh_prefix) ref.

(** The references of a list that are not null, in order. *)
Definition present (xrefs : list (option string)) : list string :=
  flat_map (fun o => match o with Some r => [r] | None => [] end) xrefs.

(** Cross-reference extraction: the stripped identifiers of the matching
    references in their original order, "absent" when the list is null
    or nothing matches. *)
Definition cross_ref_ids (xrefs : option (list (option string)))
  : option (list string) :=
  match xrefs with
  | None => None
  | Some l =>
      match map strip_mesh_prefix (filter is_mesh_ref (present l)) with
      | [] => None
      | ids => Some ids
      end
  end.

(** The disease filter keeps a row when its ancestor list is there and
    holds the cancer root, and the row is not the root itself. *)
Definition is_cancer_disease (cancer_root : string) (d : DiseaseRow) : bool :=
  match ancestors d with
  | None => false
  | Some anc =>
      if in_dec string_dec cancer_root anc
      then (if string_dec (id d) cancer_root then false else true)
      else false
  end.

(** Disease [D] carries the MeSH id [T] in its cross references. *)
Definition pair_mapped (cancer_diseases : list CancerDisease)
           (D T : string) : Prop :=
  exists d ids,
    In d cancer_diseases /\ diseaseId d = D
    /\ meshIds d = Some ids /\ In T ids.

(** The key of a crosswalk row. *)
Definition crosswalk_pair (r : CrosswalkRow) : string * string :=
  (cw_diseaseId r, cw_meshId r).

(** The exploded rows of one disease, and the rows of the inner join,
    written without the loops. *)
Definition exploded_of (d : CancerDisease) : list Exploded :=
  match meshIds d with
  | Some ids => map (mkExploded (diseaseId d) (diseaseName d)) ids
  | None => []
  end.

Definition merged_rows (ds : list CancerDisease)
           (mesh_hierarchy : DataFrame HierarchyEntry)
  : list CrosswalkRow :=
  flat_map
    (fun x =>
       map (join_row x)
           (filter (fun h => String.eqb (mesh_id h) (x_meshId x))
                   (rows mesh_hierarchy)))
    (flat_map exploded_of ds).

Definition joined_of (p : Association * CrosswalkRow) : Joined :=
  mkJoined (fst p) (cw_meshId (snd p)).

Definition same_disease (p : Association * CrosswalkRow) : bool :=
  String.eqb (cw_diseaseId (snd p)) (a_diseaseId (fst p)).

(** The rows that contribute to the pair (gene [g], term [t]): every
    association of [g] paired with every crosswalk row of [t] for the same
    disease. *)
Definition contributing (associations : list Association)
           (crosswalk : list CrosswalkRow) (g t : string)
  : list (Association * CrosswalkRow) :=
  filter (fun p =>
            same_disease p
            && (String.eqb (a_targetId (fst p)) g
                && String.eqb (cw_meshId (snd p)) t))
         (list_prod associations crosswalk).

Definition is_maximum (s : Q) (l : list Q) : Prop :=
  In s l /\ forall x, In x l -> (x <= s)%Q.

Definition total (l : list Z) : Z := fold_right Z.add 0%Z l.

(** An integer that a signed 64-bit cell holds. *)
Definition fits_int64 (z : Z) : Prop := (- 2 ^ 63 <= z < 2 ^ 63)%Z.

Definition gene_term_pair (r : GeneMesh) : string * string :=
  (targetId r, meshId r).

(** The entry of the namespace crosswalk for the source id [g]: the first
    row of the human taxon that names [g]. *)
Definition names_gene (g : string) (r : Gene2Ensembl) : bool :=
  option_eqb String.eqb (tax_id r) (Some HUMAN_TAX_ID)
  && option_eqb String.eqb (Ensembl_gene_identifier r) (Some g).

Definition first_entry (gene2ensembl : list Gene2Ensembl) (g : string)
  : option Gene2Ensembl :=
  find (names_gene g) gene2ensembl.

(** The target id of [g], when it has an entry and the entry has one. *)
Definition entrez_of (gene2ensembl : list Gene2Ensembl) (g : string)
  : option string :=
  match first_entry gene2ensembl g with
  | Some r => GeneID r
  | None => None
  end.

Definition merged_of (gene2ensembl : list Gene2Ensembl) (r : GeneMesh)
  : Merged :=
  mkMerged r (entrez_of gene2ensembl (targetId r)).

Definition has_entrez (gene2ensembl : list Gene2Ensembl) (r : GeneMesh)
  : bool :=
  notna (entrez_of gene2ensembl (targetId r)).

(** [f] is the final row of the gene/term row [r]. *)
Definition remapped (gene2ensembl : list Gene2Ensembl) (r : GeneMesh)
           (f : FinalRow) : Prop :=
  disease_mesh_id f = meshId r
  /\ ot_score f = score r
  /\ evidence_count f = evidenceCount r
  /\ exists e, entrez_of gene2ensembl (targetId r) = Some e
               /\ to_int64 e = Ok (gene_entrez_id f).

Definition final_pair (f : FinalRow) : string * Z :=
  (disease_mesh_id f, gene_entrez_id f).

(** Why a run can stop: the percentage of an empty table, or an Entrez
    id that is no int64. *)
Definition run_failure (verbose : bool) (df : list GeneMesh)
           (gene2ensembl : list Gene2Ensembl) (e : exn) : Prop :=
  (verbose = true /\ df = [] /\ e = ZeroDivisionError)
  \/ exists r s, In r df
                 /\ entrez_of gene2ensembl (targetId r) = Some s
                 /\ to_int64 s = Raise e.

End Spec.

(** ** The parser, block by block *)

Module Blocks.
Import ExtractMesh.

(** A line that is the record marker once stripped. *)
Definition is_marker (raw : string) : bool :=
  String.eqb (strip raw) "*NEWRECORD".

(** The value of a field line with the given five-character tag. *)
Definition field (tag raw : string) : option string :=
  if startswith (strip raw) tag then Some (slice_from 5 (strip raw))
  else None.

Definition is_field (tag raw : string) : bool :=
  startswith (strip raw) tag.

(** The value of the last line of the block with the tag. *)
Fixpoint last_field (tag : string) (block : list string) (found : option string)
  : option string :=
  match block with
  | [] => found
  | raw :: rest =>
      last_field tag rest
                 (match field tag raw with
                  | Some v => Some v
                  | None => found
                  end)
  end.

(** The values of all the lines of the block with the tag, in order. *)
Definition all_fields (tag : string) (block : list string) : list string :=
  flat_map (fun raw => match field tag raw with
                       | Some v => [v]
                       | None => []
                       end)
           block.

(** The dict a block of lines after a marker describes. *)
Definition block_record (block : list string) : MeshDict :=
  mkMeshDict (last_field "UI = " block None)
             (last_field "MH = " block None)
             (Some (all_fields "MN = " block)).

(** A dict that has an identifier and a tree number. *)
Definition complete (d : MeshDict) : bool :=
  truthy_str (UI d) && truthy_list (MN d).

(** The lines before the first marker, and the block after each marker. *)
Fixpoint split_blocks (ls : list string) : list string * list (list string) :=
  match ls with
  | [] => ([], [])
  | raw :: rest =>
      let (pre, blocks) := split_blocks rest in
      if is_marker raw then ([], pre :: blocks) else (raw :: pre, blocks)
  end.

(** The parser without state: an [MN = ] line ahead of the first marker
    raises; otherwise the complete blocks are the records. *)
Definition parse_blocks (text : string) : result (list MeshDict) :=
  let (pre, blocks) := split_blocks (lines text) in
  if existsb (is_field "MN = ") pre then Raise (KeyError "MN")
  else Ok (filter complete (map block_record blocks)).

End Blocks.

(** ** More of the specification's vocabulary *)

Module Spec2.
Import ExtractMesh ExtractDiseases BuildCrosswalk AddEntrez.

(** Disease [d] maps to term [t] in the crosswalk. *)
Definition maps_to (crosswalk : list CrosswalkRow) (d t : string) : bool :=
  existsb (fun c => String.eqb (cw_diseaseId c) d
                    && String.eqb (cw_meshId c) t)
          crosswalk.

(** The associations of gene [g] whose disease maps to term [t]. *)
Definition supporting (associations : list Association)
           (crosswalk : list CrosswalkRow) (g t : string)
  : list Association :=
  filter (fun a => String.eqb (a_targetId a) g
                   && maps_to crosswalk (a_diseaseId a) t)
         associations.

(** A line without line-break character. *)
Fixpoint no_break (l : string) : bool :=
  match l with
  | EmptyString => true
  | String c rest =>
      negb (Ascii.eqb c nl) && negb (Ascii.eqb c cr) && no_break rest
  end.

(** The text of a file whose lines all end in [eol]. *)
Fixpoint join_lines (eol : string) (ls : list string) : string :=
  match ls with
  | [] => EmptyString
  | l :: rest => (l ++ eol ++ join_lines eol rest)%string
  end.

Definition LF : string := String nl EmptyString.
Definition CRLF : string := String cr (String nl EmptyString).

End Spec2.

(** ** Sample inputs *)

Module Samples.
Import ExtractMesh ExtractDiseases BuildCrosswalk AddEntrez RunAll.

Definition newline : string := String nl EmptyString.

(** One complete record, no [*NEWRECORD] line anywhere. *)
Definition one_record_no_marker : string :=
  "UI = D001943" ++ newline ++ "MH = Breast Neoplasms" ++ newline
  ++ "MN = C04.588.180" ++ newline.

(** The same record after its [*NEWRECORD] line, nothing after it. *)
Definition one_record_with_marker : string :=
  "*NEWRECORD" ++ newline ++ one_record_no_marker.

Definition breast : MeshDict :=
  mkMeshDict (Some "D001943") (Some "Breast Neoplasms")
             (Some ["C04.588.180"; "C17.800.090.500"]).

Definition heart : MeshDict :=
  mkMeshDict (Some "D006331") (Some "Heart Diseases") (Some ["C14.280"]).

(** [processed_dir: data/processed], nothing on disk yet. *)
Definition config : Config := mkConfig ["data"; "processed"].

Definition disease_index : list DiseaseRow :=
  [mkDisease "EFO_1" "breast carcinoma" (Some ["EFO_0000616"])
             (Some [Some "MeSH:D001943"])].

(** Disease [D] maps to the term [T], which sits at levels 5 and 3. *)
Definition disease_D : CancerDisease := mkCancer "D" "disease" (Some ["T"]).

Definition hierarchy_T : DataFrame HierarchyEntry :=
  mkDF hierarchy_columns
       [mkEntry "T" "term" "C04.588.1.2.3" 5%Z;
        mkEntry "T" "term" "C04.588.1" 3%Z].

(** Two diseases of one term, both carrying gene [G]. *)
Definition associations_G : list Association :=
  [mkAssoc "D1" "G" (8 # 10) 5%Z; mkAssoc "D2" "G" (6 # 10) 3%Z].

Definition crosswalk_T : list CrosswalkRow :=
  [mkCrosswalk "D1" "d1" "T" "term" "C04.588.1" 3%Z;
   mkCrosswalk "D2" "d2" "T" "term" "C04.588.1" 3%Z].

(** The same two diseases with evidence counts of 2^62 each. *)
Definition associations_large : list Association :=
  [mkAssoc "D1" "G" (8 # 10) (2 ^ 62)%Z; mkAssoc "D2" "G" (6 # 10) (2 ^ 62)%Z].

(** Two Ensembl genes of one term that share one Entrez gene. *)
Definition gene_mesh_two_genes : list GeneMesh :=
  [mkGeneMesh "ENSG00000141510" "D001943" (9 # 10) 4%Z;
   mkGeneMesh "ENSG00000999999" "D001943" (5 # 10) 2%Z].

Definition gene2ensembl_shared : list Gene2Ensembl :=
  [mkG2E (Some "9606") (Some "7157") (Some "ENSG00000141510");
   mkG2E (Some "9606") (Some "7157") (Some "ENSG00000999999")].

(** Two Ensembl genes that share one Entrez gene under two different
    terms, and a third gene next to the first under its term. *)
Definition gene_mesh_two_terms : list GeneMesh :=
  [mkGeneMesh "ENSG00000141510" "D001943" (9 # 10) 4%Z;
   mkGeneMesh "ENSG00000999999" "D008175" (5 # 10) 2%Z;
   mkGeneMesh "ENSG00000012048" "D001943" (7 # 10) 3%Z].

Definition gene2ensembl_three : list Gene2Ensembl :=
  [mkG2E (Some "9606") (Some "7157") (Some "ENSG00000141510");
   mkG2E (Some "9606") (Some "7157") (Some "ENSG00000999999");
   mkG2E (Some "9606") (Some "672") (Some "ENSG00000012048")].

(** A gene without entry next to a gene with one. *)
Definition gene_mesh_one_unmapped : list GeneMesh :=
  [mkGeneMesh "ENSG00000141510" "D001943" (9 # 10) 4%Z;
   mkGeneMesh "ENSG00000000000" "D001943" (7 # 10) 1%Z].

Definition gene2ensembl_p53 : list Gene2Ensembl :=
  [mkG2E (Some "9606") (Some "7157") (Some "ENSG00000141510");
   mkG2E (Some "10090") (Some "22059") (Some "ENSMUSG00000059552")].

End Samples.

(** ** More sample inputs *)

Module Samples2.
Import ExtractMesh ExtractDiseases BuildCrosswalk AddEntrez RunAll.

(** Two records, the first one without identifier, after a header line. *)
Definition two_records : string :=
  "MeSH descriptors" ++ Samples.newline
  ++ "*NEWRECORD" ++ Samples.newline
  ++ "MH = Calcimycin" ++ Samples.newline
  ++ "MN = D03.633.100" ++ Samples.newline
  ++ "*NEWRECORD" ++ Samples.newline
  ++ "MH = Breast Neoplasms" ++ Samples.newline
  ++ "MN = C04.588.180" ++ Samples.newline
  ++ "MN = C17.800.090.500" ++ Samples.newline
  ++ "UI = D001943" ++ Samples.newline.

(** A crosswalk with a repeated row, a second id for one gene and a row
    of another taxon. *)
Definition gene2ensembl_repeats : list AddEntrez.Gene2Ensembl :=
  [mkG2E (Some "9606") (Some "7157") (Some "ENSG00000141510");
   mkG2E (Some "9606") (Some "7157") (Some "ENSG00000141510");
   mkG2E (Some "9606") (Some "999") (Some "ENSG00000141510");
   mkG2E (Some "10090") (Some "22059") (Some "ENSMUSG00000059552")].

(** An Entrez id that is no integer. *)
Definition gene2ensembl_bad_id : list AddEntrez.Gene2Ensembl :=
  [mkG2E (Some "9606") (Some "-") (Some "ENSG00000141510")].

(** The module [src/utils/config.py] of a checkout in [/home/u/repo], with
    [config.yaml] at the top of the checkout and another one in [/home]. *)
Definition config_module : RunAll.Path :=
  ["home"; "u"; "repo"; "src"; "utils"; "config.py"].

Definition sample_document : Config.Document :=
  Config.mkDocument
    (Some [("processed_dir", Config.VStr false ["data"; "processed"]);
           ("retries", Config.VOther "3")])
    [].

Definition sample_disk : Config.Disk :=
  Config.mkDisk
    (fun p => RunAll.path_eqb p ["home"; "u"; "repo"; "config.yaml"]
              || RunAll.path_eqb p ["home"; "config.yaml"])
    (fun _ => sample_document).

(** One association of the disease of [Samples.disease_index]. *)
Definition associations_EFO_1 : list Association :=
  [mkAssoc "EFO_1" "ENSG00000141510" (9 # 10) 4%Z].

End Samples2.

(** * Properties *)

(** ** Lists, sorting and frames *)

Section SortFacts.
Context {A : Type} (leb : A -> A -> bool).

Lemma insert_sorted_perm (x : A) (l : list A) :
  Permutation (insert_sorted leb x l) (x :: l).
Proof.
  induction l as [|y t IH]; simpl.
  - apply Permutation_refl.
  - destruct (leb x y).
    + apply Permutation_refl.
    + apply Permutation_trans with (y :: x :: t).
      * now apply perm_skip.
      * apply perm_swap.
Qed.

Lemma sort_by_perm (l : list A) : Permutation (sort_by leb l) l.
Proof.
  induction l as [|x t IH]; simpl.
  - apply perm_nil.
  - eapply Permutation_trans; [apply insert_sorted_perm|].
    now apply perm_skip.
Qed.

Lemma sort_by_desc_perm (l : list A) : Permutation (sort_by_desc leb l) l.
Proof.
  unfold sort_by_desc.
  eapply Permutation_trans; [apply Permutation_sym, Permutation_rev|].
  eapply Permutation_trans; [apply sort_by_perm|].
  apply Permutation_sym, Permutation_rev.
Qed.

Lemma sort_values_rows (by_ : list string) (asc : bool)
      (d d' : DataFrame A) :
  sort_values by_ asc leb d = Ok d' ->
  Permutation (rows d') (rows d) /\ columns d' = columns d.
Proof.
  unfold sort_values.
  destruct (missing_column d by_); [discriminate|].
  intros H; injection H as <-; simpl. split; [|reflexivity].
  destruct asc; [apply sort_by_perm | apply sort_by_desc_perm].
Qed.

Lemma sort_values_raises (by_ : list string) (asc : bool)
      (d : DataFrame A) (e : exn) :
  sort_values by_ asc leb d = Raise e ->
  exists c, missing_column d by_ = Some c /\ e = KeyError c.
Proof.
  unfold sort_values.
  destruct (missing_column d by_) as [c|]; [|discriminate].
  intros H; injection H as <-. now exists c.
Qed.
End SortFacts.

Lemma bind_ok {A B} (m : result A) (k : A -> result B) (b : B) :
  bind m k = Ok b -> exists a, m = Ok a /\ k a = Ok b.
Proof.
  destruct m as [a|e]; simpl; intros H; [exists a; split; [reflexivity | exact H] | discriminate].
Qed.

Lemma bind_raise {A B} (m : result A) (k : A -> result B) (e : exn) :
  bind m k = Raise e -> m = Raise e \/ exists a, m = Ok a /\ k a = Raise e.
Proof.
  destruct m as [a|e']; simpl; intros H; [right; exists a; split; [reflexivity | exact H] | left; injection H as ->; reflexivity].
Qed.

(** ** Strings *)

Lemma startswith_append (s p : string) :
  startswith s p = true <-> exists t, s = (p ++ t)%string.
Proof.
  unfold startswith. revert s.
  induction p as [|c p IH]; intros s; simpl.
  - split; [intros _; now exists s | intros _; now destruct s].
  - destruct s as [|d s]; simpl.
    + split; [discriminate|]. intros [t H]; discriminate.
    + destruct (ascii_dec c d) as [->|Hne].
      * rewrite IH. split; intros [t H]; exists t; [now rewrite H|].
        now injection H.
      * split; [discriminate|]. intros [t H]. injection H as H1 H2.
        now subst.
  Qed.

(** ** Sorted results *)

Section SortedFacts.
Context {A : Type} (leb : A -> A -> bool).
Hypothesis leb_total : forall a b, leb a b = true \/ leb b a = true.
Hypothesis leb_trans :
  forall a b c, leb a b = true -> leb b c = true -> leb a c = true.

Let le (a b : A) : Prop := leb a b = true.

Lemma insert_sorted_sorted (x : A) (l : list A) :
  StronglySorted le l -> StronglySorted le (insert_sorted leb x l).
Proof.
  induction 1 as [|y t Ht IH Hy]; simpl.
  - repeat constructor.
  - destruct (leb x y) eqn:E.
    + constructor; [now constructor|].
      constructor; [exact E|].
      eapply Forall_impl; [|exact Hy]. intros z Hz.
      now apply leb_trans with y.
    + constructor; [exact IH|].
      eapply Permutation_Forall;
        [apply Permutation_sym, insert_sorted_perm|].
      constructor; [|exact Hy].
      destruct (leb_total x y) as [H|H]; [congruence|exact H].
Qed.

Lemma sort_by_sorted (l : list A) : StronglySorted le (sort_by leb l).
Proof.
  induction l as [|x t IH]; simpl; [constructor|].
  now apply insert_sorted_sorted.
Qed.

Lemma StronglySorted_app_rev (R : A -> A -> Prop) (l : list A) :
  StronglySorted R l -> StronglySorted (fun a b => R b a) (rev l).
Proof.
  induction 1 as [|x t Ht IH Hx]; simpl; [constructor|].
  clear Ht. revert IH.
  assert (Hall : Forall (fun a => R x a) (rev t)).
  { apply Forall_forall. intros a Ha. apply in_rev in Ha.
    rewrite Forall_forall in Hx. now apply Hx. }
  clear Hx. induction (rev t) as [|y u IHu]; simpl; intros Hs.
  - repeat constructor.
  - inversion Hs as [|? ? Hu Hy]; subst.
    inversion Hall as [|? ? Hxy Hall']; subst.
    constructor; [now apply IHu|].
    apply Forall_app. split; [exact Hy|]. now constructor.
Qed.

(** A descending sort leaves every row before the rows that are not
    above it. *)
Lemma sort_by_desc_sorted (l : list A) :
  StronglySorted (fun a b => leb b a = true) (sort_by_desc leb l).
Proof.
  unfold sort_by_desc.
  apply (StronglySorted_app_rev le). apply sort_by_sorted.
Qed.
End SortedFacts.

(** ** Dropping duplicates *)

Section DuplicateFacts.
Context {A K : Type} (key : A -> K) (same : A -> A -> bool).
Hypothesis same_key : forall a b, same a b = true <-> key a = key b.

Lemma existsb_same (x : A) (l : list A) :
  existsb (same x) l = true <-> exists y, In y l /\ key y = key x.
Proof.
  rewrite existsb_exists. split; intros [y [Hy E]]; exists y;
    (split; [exact Hy|]).
  - symmetry. now apply same_key.
  - apply same_key. now symmetry.
Qed.

Lemma existsb_same_false (x : A) (l : list A) :
  existsb (same x) l = false -> forall y, In y l -> key y <> key x.
Proof.
  intros E y Hy Hk.
  assert (existsb (same x) l = true) by (apply existsb_same; eauto).
  congruence.
Qed.

(** *** [keep='last'] *)

Lemma drop_duplicates_last_In (l : list A) (x : A) :
  In x (drop_duplicates_last same l) -> In x l.
Proof.
  induction l as [|y t IH]; simpl; [tauto|].
  destruct (existsb (same y) t); simpl; tauto.
Qed.

Lemma drop_duplicates_last_NoDup (l : list A) :
  NoDup (map key (drop_duplicates_last same l)).
Proof.
  induction l as [|y t IH]; simpl; [constructor|].
  destruct (existsb (same y) t) eqn:E; [exact IH|].
  simpl. constructor; [|exact IH].
  intros Hin. apply in_map_iff in Hin. destruct Hin as [z [Hk Hz]].
  apply drop_duplicates_last_In in Hz.
  exact (existsb_same_false y t E z Hz Hk).
Qed.

Lemma drop_duplicates_last_complete (l : list A) :
  forall x,
    In x l -> exists y, In y (drop_duplicates_last same l) /\ key y = key x.
Proof.
  induction l as [|z t IH]; intros x; simpl; [tauto|].
  intros [->|Hx].
  - destruct (existsb (same x) t) eqn:E.
    + apply existsb_same in E. destruct E as [y [Hy Hk]].
      destruct (IH y Hy) as [w [Hw Hkw]]. exists w. split; [exact Hw|].
      congruence.
    + exists x. split; [now left | reflexivity].
  - destruct (IH x Hx) as [y [Hy Hk]]. exists y. split; [|exact Hk].
    destruct (existsb (same z) t); [exact Hy | now right].
Qed.

(** On a list in which every row is followed only by rows that [R]
    puts after it, the survivor of a key is [R]-after every row of that
    key. *)
Lemma drop_duplicates_last_extreme (R : A -> A -> Prop) (l : list A) :
  (forall a, R a a) ->
  StronglySorted R l ->
  forall y x,
    In y (drop_duplicates_last same l) -> In x l -> key x = key y ->
    R x y.
Proof.
  intros Hrefl. induction 1 as [|z t Ht IH Hz]; simpl; [tauto|].
  intros y x Hy Hx Hk.
  rewrite Forall_forall in Hz.
  assert (Hcase : In y (drop_duplicates_last same t)
                  \/ (y = z /\ existsb (same z) t = false)).
  { destruct (existsb (same z) t); [now left|].
    destruct Hy as [<-|Hy]; [now right | now left]. }
  destruct Hcase as [Hy'|[-> E]].
  - destruct Hx as [<-|Hx].
    + apply Hz. now apply drop_duplicates_last_In.
    + now apply IH.
  - destruct Hx as [<-|Hx]; [apply Hrefl|].
    exfalso. exact (existsb_same_false z t E x Hx Hk).
Qed.

(** *** [keep='first'] *)

Lemma drop_duplicates_first_from_In (l : list A) :
  forall seen x,
    In x (drop_duplicates_first_from same seen l) ->
    In x l /\ forall s, In s seen -> key s <> key x.
Proof.
  induction l as [|y t IH]; intros seen x; simpl; [tauto|].
  destruct (existsb (same y) seen) eqn:E.
  - intros H. destruct (IH seen x H) as [H1 H2]. split; [now right|exact H2].
  - intros [<-|H].
    + split; [now left|]. now apply existsb_same_false.
    + destruct (IH (y :: seen) x H) as [H1 H2].
      split; [now right|]. intros s Hs. apply H2. now right.
Qed.

Lemma drop_duplicates_first_from_NoDup (l : list A) :
  forall seen, NoDup (map key (drop_duplicates_first_from same seen l)).
Proof.
  induction l as [|y t IH]; intros seen; simpl; [constructor|].
  destruct (existsb (same y) seen); [apply IH|].
  simpl. constructor; [|apply IH].
  intros Hin. apply in_map_iff in Hin. destruct Hin as [z [Hk Hz]].
  apply drop_duplicates_first_from_In in Hz. destruct Hz as [_ Hz].
  apply (Hz y); [now left | congruence].
Qed.

Lemma drop_duplicates_first_from_complete (l : list A) :
  forall seen x,
    In x l ->
    (exists s, In s seen /\ key s = key x)
    \/ exists y, In y (drop_duplicates_first_from same seen l)
                 /\ key y = key x.
Proof.
  induction l as [|z t IH]; intros seen x; simpl; [tauto|].
  intros [->|Hx].
  - destruct (existsb (same x) seen) eqn:E.
    + left. now apply existsb_same.
    + right. exists x. split; [now left|reflexivity].
  - destruct (existsb (same z) seen) eqn:E.
    + apply IH. exact Hx.
    + destruct (IH (z :: seen) x Hx) as [[s [[<-|Hs] Hk]]|[y [Hy Hk]]].
      * right. exists z. split; [now left|exact Hk].
      * left. now exists s.
      * right. exists y. split; [now right|exact Hk].
Qed.

Lemma drop_duplicates_first_In (l : list A) (x : A) :
  In x (drop_duplicates_first same l) -> In x l.
Proof. intros H. now apply drop_duplicates_first_from_In in H. Qed.

Lemma drop_duplicates_first_NoDup (l : list A) :
  NoDup (map key (drop_duplicates_first same l)).
Proof. apply drop_duplicates_first_from_NoDup. Qed.

Lemma drop_duplicates_first_complete (l : list A) (x : A) :
  In x l ->
  exists y, In y (drop_duplicates_first same l) /\ key y = key x.
Proof.
  intros Hx.
  destruct (drop_duplicates_first_from_complete l [] x Hx)
    as [[s [[] _]]|H]; exact H.
Qed.

(** The first row that satisfies a test on the key survives as the first
    such row. *)
Lemma find_drop_duplicates_first_from (P : A -> bool) (l : list A) :
  (forall a b, key a = key b -> P a = P b) ->
  forall seen,
    (forall s, In s seen -> P s = false) ->
    find P (drop_duplicates_first_from same seen l) = find P l.
Proof.
  intros HP. induction l as [|x t IH]; intros seen Hseen; simpl;
    [reflexivity|].
  destruct (existsb (same x) seen) eqn:E.
  - apply existsb_same in E. destruct E as [s [Hs Hk]].
    rewrite <- (HP s x Hk), (Hseen s Hs). now apply IH.
  - simpl. destruct (P x) eqn:Px; [reflexivity|].
    apply IH. intros s [<-|Hs]; [exact Px | now apply Hseen].
Qed.

Lemma find_drop_duplicates_first (P : A -> bool) (l : list A) :
  (forall a b, key a = key b -> P a = P b) ->
  find P (drop_duplicates_first same l) = find P l.
Proof.
  intros HP. apply find_drop_duplicates_first_from; [exact HP|].
  intros s [].
Qed.

(** The rows of one key that survive: the first one of the list. *)
Lemma filter_drop_duplicates_first_from (P : A -> bool) (k : K)
      (l : list A) :
  (forall a, P a = true <-> key a = k) ->
  forall seen,
    filter P (drop_duplicates_first_from same seen l)
    = if existsb P seen then []
      else match find P l with Some x => [x] | None => [] end.
Proof.
  intros HP. induction l as [|x t IH]; intros seen; simpl.
  - now destruct (existsb P seen).
  - destruct (existsb (same x) seen) eqn:E.
    + rewrite IH. destruct (existsb P seen) eqn:Es; [reflexivity|].
      destruct (P x) eqn:Px; [|reflexivity].
      exfalso. apply existsb_same in E. destruct E as [s [Hs Hk]].
      apply HP in Px.
      assert (P s = true) by (apply HP; congruence).
      assert (existsb P seen = true) by (apply existsb_exists; eauto).
      congruence.
    + simpl. rewrite IH. simpl.
      destruct (P x) eqn:Px; simpl.
      * destruct (existsb P seen) eqn:Es; [|reflexivity].
        exfalso. apply existsb_exists in Es. destruct Es as [s [Hs Ps]].
        apply HP in Px. apply HP in Ps.
        apply (existsb_same_false x seen E s Hs). congruence.
      * reflexivity.
Qed.

Lemma filter_drop_duplicates_first (P : A -> bool) (k : K) (l : list A) :
  (forall a, P a = true <-> key a = k) ->
  filter P (drop_duplicates_first same l)
  = match find P l with Some x => [x] | None => [] end.
Proof.
  intros HP. unfold drop_duplicates_first.
  now rewrite (filter_drop_duplicates_first_from P k l HP []).
Qed.
End DuplicateFacts.

(** ** The taxonomy parser *)

Section ParserFacts.
Import ExtractMesh.

Lemma prefix_cons (a c : ascii) (p l : string) :
  String.prefix (String a p) (String c l)
  = (Ascii.eqb a c && String.prefix p l)%bool.
Proof.
  cbn [String.prefix].
  destruct (ascii_dec a c) as [->|Hne].
  - now rewrite Ascii.eqb_refl.
  - apply Ascii.eqb_neq in Hne. now rewrite Hne.
Qed.

Lemma ui_line_is_not_mn (l : string) :
  startswith l "UI = " = true -> startswith l "MN = " = false.
Proof.
  unfold startswith. destruct l as [|c l]; [discriminate|].
  rewrite !prefix_cons.
  destruct (Ascii.eqb_spec "U" c) as [<-|]; [|discriminate].
  reflexivity.
Qed.

Lemma mh_line_is_not_mn (l : string) :
  startswith l "MH = " = true -> startswith l "MN = " = false.
Proof.
  unfold startswith. destruct l as [|c l]; [discriminate|].
  rewrite !prefix_cons.
  destruct (Ascii.eqb_spec "M" c) as [<-|]; [|discriminate].
  destruct l as [|d l]; [discriminate|].
  rewrite !prefix_cons.
  destruct (Ascii.eqb_spec "H" d) as [<-|]; [|discriminate].
  reflexivity.
Qed.

(** While the dict has no ['MN'] key and no marker line comes, a line
    either is a tree-number line, and raises, or keeps the key missing. *)
Lemma step_without_marker (st : ParserState) (raw : string) :
  MN (current st) = None ->
  strip raw <> "*NEWRECORD" ->
  (startswith (strip raw) "MN = " = true
   /\ step st raw = Raise (KeyError "MN"))
  \/ (startswith (strip raw) "MN = " = false
      /\ exists st', step st raw = Ok st' /\ MN (current st') = None).
Proof.
  intros Hmn Hnot. unfold step.
  destruct (String.eqb_spec (strip raw) "*NEWRECORD") as [E|_];
    [contradiction|].
  destruct (startswith (strip raw) "UI = ") eqn:Hui.
  { right. split; [now apply ui_line_is_not_mn|].
    eexists; split; [reflexivity|exact Hmn]. }
  destruct (startswith (strip raw) "MH = ") eqn:Hmh.
  { right. split; [now apply mh_line_is_not_mn|].
    eexists; split; [reflexivity|exact Hmn]. }
  destruct (startswith (strip raw) "MN = ") eqn:Hl.
  - left. rewrite Hmn. split; reflexivity.
  - right. split; [reflexivity|]. exists st. split; [reflexivity|exact Hmn].
Qed.

Lemma run_lines_without_marker (ls : list string) :
  forall st,
    MN (current st) = None ->
    (forall l, In l ls -> strip l <> "*NEWRECORD") ->
    (exists l, In l ls /\ startswith (strip l) "MN = " = true) ->
    run_lines st ls = Raise (KeyError "MN").
Proof.
  induction ls as [|raw rest IH]; intros st Hmn Hnot [l [Hin Hl]].
  - destruct Hin.
  - simpl.
    destruct (step_without_marker st raw Hmn (Hnot raw (or_introl eq_refl)))
      as [[_ ->]|[Hraw [st' [-> Hmn']]]]; [reflexivity|].
    simpl. apply IH; [exact Hmn'| |].
    + intros l' Hl'. apply Hnot. now right.
    + destruct Hin as [<-|Hin]; [congruence|]. now exists l.
Qed.

(** The flush after the loop: whatever record is pending at the end of
    the file is appended when it has an identifier and a tree number. *)
Lemma parse_mesh_file_flushes_last (text : string) (st : ParserState) :
  run_lines initial (lines text) = Ok st ->
  truthy_str (UI (current st)) = true ->
  truthy_list (MN (current st)) = true ->
  parse_mesh_file text = Ok (records st ++ [current st]).
Proof.
  intros Hrun Hui Hmn. unfold parse_mesh_file. rewrite Hrun. simpl.
  unfold flush. now rewrite Hui, Hmn.
Qed.

Example parse_one_record_with_marker :
  parse_mesh_file Samples.one_record_with_marker
  = Ok [mkMeshDict (Some "D001943") (Some "Breast Neoplasms")
                   (Some ["C04.588.180"])].
Proof. reflexivity. Qed.

(** C2.  A text without any [*NEWRECORD] line that holds a tree-number
    line is not parsed into records: the first [MN = ] line finds the
    initial dict [{}] without its ['MN'] list and raises [KeyError]. *)
Theorem parse_mesh_file_without_marker_raises (text : string) :
  (forall l, In l (lines text) -> strip l <> "*NEWRECORD") ->
  (exists l, In l (lines text) /\ startswith (strip l) "MN = " = true) ->
  parse_mesh_file text = Raise (KeyError "MN").
Proof.
  intros Hnot Hmn. unfold parse_mesh_file.
  now rewrite (run_lines_without_marker (lines text) initial eq_refl Hnot Hmn).
Qed.

Lemma parse_mesh_file_without_marker_raises_witness :
  parse_mesh_file Samples.one_record_no_marker = Raise (KeyError "MN").
Proof.
  apply parse_mesh_file_without_marker_raises.
  - intros l Hl. vm_compute in Hl.
    repeat (destruct Hl as [<-|Hl]; [intros E; vm_compute in E; discriminate E|]).
    destruct Hl.
  - exists "MN = C04.588.180". split; [vm_compute; tauto | reflexivity].
Defined.
End ParserFacts.

(** ** The hierarchy extractor *)

Section HierarchyFacts.
Import ExtractMesh.

Lemma path_has_prefix_startswith (prefix path : string) :
  Spec.path_has_prefix prefix path = startswith path prefix.
Proof.
  unfold Spec.path_has_prefix, startswith.
  destruct (String.prefix prefix path) eqn:E.
  - apply prefix_correct in E. rewrite E. apply String.eqb_refl.
  - apply String.eqb_neq. intros H. apply prefix_correct in H. congruence.
Qed.

Lemma scan_tree_numbers_spec (mid mname prefix : string) (mn : list string) :
  forall rows_,
    scan_tree_numbers mid mname prefix mn rows_
    = rows_ ++ map (fun path => mkEntry mid mname path (Spec.level_of path))
                   (filter (Spec.path_has_prefix prefix) mn).
Proof.
  induction mn as [|t rest IH]; intros rows_; simpl.
  - now rewrite app_nil_r.
  - rewrite IH, path_has_prefix_startswith.
    destruct (startswith t prefix); simpl; [|reflexivity].
    now rewrite <- app_assoc.
Qed.

Lemma scan_records_spec (recs : list MeshDict) (prefix : string) :
  Forall Spec.parsed_record recs ->
  forall rows_,
    scan_records recs prefix rows_
    = Ok (rows_ ++ Spec.hierarchy_rows recs prefix).
Proof.
  induction 1 as [|rec rest [[u Hu] [mn Hmn]] _ IH]; intros rows_; simpl.
  - now rewrite app_nil_r.
  - rewrite Hu, Hmn, IH, scan_tree_numbers_spec.
    now rewrite <- app_assoc.
Qed.

Lemma extract_c04_hierarchy_unfold (recs : list MeshDict) (prefix : string) :
  Forall Spec.parsed_record recs ->
  extract_c04_hierarchy recs prefix
  = sort_values ["tree_number"; "mesh_id"] true entry_leb
      (DataFrame_of_records hierarchy_columns
                            (Spec.hierarchy_rows recs prefix)).
Proof.
  intros H. unfold extract_c04_hierarchy.
  now rewrite (scan_records_spec recs prefix H []).
Qed.

Lemma in_hierarchy_rows (recs : list MeshDict) (prefix : string)
      (r : HierarchyEntry) :
  Forall Spec.parsed_record recs ->
  In r (Spec.hierarchy_rows recs prefix) <->
  exists rec u mn path,
    In rec recs /\ UI rec = Some u /\ MN rec = Some mn /\ In path mn
    /\ (exists rest, path = (prefix ++ rest)%string)
    /\ r = mkEntry u (match MH rec with Some n => n | None => "" end)
                   path (Z.of_nat (count_char dot path) + 1)%Z.
Proof.
  intros Hall. unfold Spec.hierarchy_rows. rewrite in_flat_map. split.
  - intros [rec [Hrec Hr]]. apply in_map_iff in Hr.
    destruct Hr as [path [<- Hpath]]. apply filter_In in Hpath.
    destruct Hpath as [Hpath Hpre].
    rewrite Forall_forall in Hall.
    destruct (Hall rec Hrec) as [[u Hu] [mn Hmn]].
    rewrite Hmn in Hpath. exists rec, u, mn, path.
    rewrite path_has_prefix_startswith, startswith_append in Hpre.
    rewrite Hu. repeat split; auto.
  - intros [rec [u [mn [path [Hrec [Hu [Hmn [Hpath [Hpre ->]]]]]]]]].
    exists rec. split; [exact Hrec|]. apply in_map_iff. exists path.
    rewrite Hu, Hmn. split; [reflexivity|]. apply filter_In.
    split; [exact Hpath|].
    now rewrite path_has_prefix_startswith, startswith_append.
Qed.

(** C6.  On parsed records the extractor's rows are, up to the order of
    the sort, one row for each record and each of its tree paths that has
    the prefix as an exact string prefix, the level being the number of
    dots plus one; it raises only when there is no such path at all. *)
Theorem extract_c04_hierarchy_one_row_per_path
        (recs : list MeshDict) (prefix : string) :
  Forall Spec.parsed_record recs ->
  match extract_c04_hierarchy recs prefix with
  | Ok df =>
      Permutation (rows df) (Spec.hierarchy_rows recs prefix)
      /\ (forall r, In r (rows df) <->
            exists rec u mn path,
              In rec recs /\ UI rec = Some u /\ MN rec = Some mn
              /\ In path mn
              /\ (exists rest, path = (prefix ++ rest)%string)
              /\ r = mkEntry u
                       (match MH rec with Some n => n | None => "" end)
                       path (Z.of_nat (count_char dot path) + 1)%Z)
  | Raise _ => Spec.hierarchy_rows recs prefix = []
  end.
Proof.
  intros Hall. rewrite (extract_c04_hierarchy_unfold recs prefix Hall).
  destruct (Spec.hierarchy_rows recs prefix) as [|r0 rest] eqn:E.
  - reflexivity.
  - cbn -[sort_by]. rewrite <- E.
    assert (P : Permutation (sort_by entry_leb (r0 :: rest))
                            (r0 :: rest)) by apply sort_by_perm.
    rewrite E at 1. rewrite <- E in P. rewrite <- E. clear E.
    split; [exact P|]. intros r.
    rewrite <- (in_hierarchy_rows recs prefix r Hall).
    split; intros Hin.
    + eapply Permutation_in; [exact P | exact Hin].
    + eapply Permutation_in; [apply Permutation_sym; exact P | exact Hin].
Qed.

Lemma extract_c04_hierarchy_one_row_per_path_witness :
  Forall Spec.parsed_record [Samples.breast; Samples.heart]
  /\ match extract_c04_hierarchy [Samples.breast; Samples.heart] "C04" with
     | Ok df =>
         Permutation
           (rows df)
           (Spec.hierarchy_rows [Samples.breast; Samples.heart] "C04")
     | Raise _ => False
     end.
Proof.
  assert (Hp : Forall Spec.parsed_record [Samples.breast; Samples.heart]).
  { repeat constructor; simpl; eauto. }
  split; [exact Hp|].
  pose proof (extract_c04_hierarchy_one_row_per_path
                [Samples.breast; Samples.heart] "C04" Hp) as H.
  destruct (extract_c04_hierarchy [Samples.breast; Samples.heart] "C04").
  - exact (proj1 H).
  - vm_compute in H. discriminate H.
Defined.
Lemma hierarchy_rows_nil (recs : list MeshDict) (prefix : string) :
  (forall rec mn path,
      In rec recs -> MN rec = Some mn -> In path mn ->
      startswith path prefix = false) ->
  Spec.hierarchy_rows recs prefix = [].
Proof.
  intros Hno. unfold Spec.hierarchy_rows.
  induction recs as [|rec rest IH]; simpl; [reflexivity|].
  rewrite IH.
  - rewrite app_nil_r.
    destruct (MN rec) as [mn|] eqn:Hmn; [|reflexivity].
    assert (Hf : filter (Spec.path_has_prefix prefix) mn = []).
    { assert (Hmn' : forall path, In path mn ->
                                  startswith path prefix = false).
      { intros path Hp. apply (Hno rec mn path); auto. now left. }
      clear Hmn Hno IH. induction mn as [|p mn IHmn]; simpl; [reflexivity|].
      rewrite path_has_prefix_startswith, (Hmn' p (or_introl eq_refl)).
      apply IHmn. intros path Hp. apply Hmn'. now right. }
    now rewrite Hf.
  - intros rec' mn path Hin. apply Hno. now right.
Qed.

(** C10.  When no tree path of any record starts with the prefix, the
    extractor does not return an empty table: the frame built from the
    empty row list has no columns and the sort on [tree_number] raises
    [KeyError]. *)
Theorem extract_c04_hierarchy_raises_without_match
        (recs : list MeshDict) (prefix : string) :
  Forall Spec.parsed_record recs ->
  (forall rec mn path,
      In rec recs -> MN rec = Some mn -> In path mn ->
      startswith path prefix = false) ->
  extract_c04_hierarchy recs prefix = Raise (KeyError "tree_number").
Proof.
  intros Hall Hno.
  rewrite (extract_c04_hierarchy_unfold recs prefix Hall).
  now rewrite (hierarchy_rows_nil recs prefix Hno).
Qed.

Lemma extract_c04_hierarchy_raises_without_match_witness :
  extract_c04_hierarchy [Samples.heart] "C04"
  = Raise (KeyError "tree_number").
Proof.
  apply extract_c04_hierarchy_raises_without_match.
  - repeat constructor; simpl; eauto.
  - intros rec mn path [<-|[]] Hmn. injection Hmn as <-.
    intros [<-|[]]. reflexivity.
Defined.

Example extract_c04_hierarchy_no_records :
  extract_c04_hierarchy [] "C04.588" = Raise (KeyError "tree_number").
Proof. reflexivity. Qed.

(** Conversely the extractor returns a table as soon as one path
    qualifies. *)
Lemma extract_c04_hierarchy_returns (recs : list MeshDict) (prefix : string) :
  Forall Spec.parsed_record recs ->
  Spec.hierarchy_rows recs prefix <> [] ->
  exists df, extract_c04_hierarchy recs prefix = Ok df
             /\ columns df = hierarchy_columns.
Proof.
  intros Hall Hne.
  rewrite (extract_c04_hierarchy_unfold recs prefix Hall).
  destruct (Spec.hierarchy_rows recs prefix) as [|r0 rest];
    [contradiction|].
  eexists. split; reflexivity.
Qed.

Example level_of_three_segments : Spec.level_of "A.B.C" = 3%Z.
Proof. reflexivity. Qed.

Example level_of_one_segment : Spec.level_of "A" = 1%Z.
Proof. reflexivity. Qed.

Example prefix_is_not_segment_aware :
  startswith "C04.588.443" "C04" = true
  /\ startswith "C040" "C04" = true
  /\ startswith "C05.100" "C04" = false.
Proof. repeat split. Qed.
End HierarchyFacts.

(** ** The disease filter and the cross references *)

Section DiseaseFacts.
Import ExtractDiseases.

Lemma boolean_index_map {A : Type} (f : A -> bool) (l : list A) :
  boolean_index l (map f l) = filter f l.
Proof.
  induction l as [|x t IH]; simpl; [reflexivity|].
  rewrite IH. reflexivity.
Qed.

Lemma existsb_eqb_In (x : string) (l : list string) :
  existsb (String.eqb x) l = true <-> In x l.
Proof.
  rewrite existsb_exists. split.
  - intros [y [Hy E]]. apply String.eqb_eq in E. now subst.
  - intros H. exists x. split; [exact H | apply String.eqb_refl].
Qed.

Lemma is_cancer_disease_code (cancer_ta : string) (d : DiseaseRow) :
  Spec.is_cancer_disease cancer_ta d
  = has_neoplasm_ancestor cancer_ta (ancestors d)
    && negb (String.eqb (id d) cancer_ta).
Proof.
  unfold Spec.is_cancer_disease, has_neoplasm_ancestor.
  destruct (ancestors d) as [anc|]; [|reflexivity].
  destruct (in_dec string_dec cancer_ta anc) as [Hin|Hnin].
  - apply existsb_eqb_In in Hin. rewrite Hin. simpl.
    destruct (string_dec (id d) cancer_ta) as [->|Hne].
    + now rewrite String.eqb_refl.
    + apply String.eqb_neq in Hne. now rewrite Hne.
  - destruct (existsb (String.eqb cancer_ta) anc) eqn:E; [|reflexivity].
    apply existsb_eqb_In in E. contradiction.
Qed.

Lemma is_cancer_disease_iff (cancer_ta : string) (d : DiseaseRow) :
  Spec.is_cancer_disease cancer_ta d = true <->
  (exists anc, ancestors d = Some anc /\ In cancer_ta anc)
  /\ id d <> cancer_ta.
Proof.
  unfold Spec.is_cancer_disease.
  destruct (ancestors d) as [anc|].
  - destruct (in_dec string_dec cancer_ta anc) as [Hin|Hnin].
    + destruct (string_dec (id d) cancer_ta) as [E|Hne].
      * split; [discriminate|]. intros [_ H]. contradiction.
      * split; [|reflexivity]. intros _. split; [|exact Hne].
        now exists anc.
    + split; [discriminate|]. intros [[anc' [E H]] _].
      injection E as <-. contradiction.
  - split; [discriminate|]. intros [[anc' [E _]] _]. discriminate.
Qed.

(** What the filter returns: [KeyError] on an index without rows, one
    pass of the membership test otherwise. *)
Lemma filter_cancer_diseases_outcome
      (diseases : list DiseaseRow) (cancer_ta : string) :
  filter_cancer_diseases diseases cancer_ta
  = match diseases with
    | [] => Raise (KeyError "id")
    | _ :: _ => Ok (filter (Spec.is_cancer_disease cancer_ta) diseases)
    end.
Proof.
  destruct diseases as [|d0 t0]; [reflexivity|].
  unfold filter_cancer_diseases, getitem_mask.
  set (diseases := d0 :: t0).
  change (has_column (mkDF disease_columns
                           (boolean_index
                              diseases
                              (map (fun d => has_neoplasm_ancestor
                                               cancer_ta (ancestors d))
                                   diseases)))
                     "id") with true.
  cbv iota. cbn [rows]. f_equal. rewrite !boolean_index_map.
  generalize diseases. clear. intros diseases.
  induction diseases as [|d t IH]; simpl; [reflexivity|].
  rewrite is_cancer_disease_code.
  destruct (has_neoplasm_ancestor cancer_ta (ancestors d)); simpl.
  - destruct (negb (String.eqb (id d) cancer_ta)); now rewrite IH.
  - exact IH.
Qed.

(** C8.  On a disease index that has rows, the filter keeps, in order,
    exactly the rows whose ancestor list is present and contains the
    cancer root and whose own id is not the root; a row without ancestor
    list is left out, without error.  On an index without rows the filter
    does not return the empty table: it raises [KeyError('id')]. *)
Theorem filter_cancer_diseases_keeps_cancer_rows
        (diseases : list DiseaseRow) (cancer_ta : string) :
  match diseases with
  | [] =>
      filter_cancer_diseases diseases cancer_ta = Raise (KeyError "id")
  | _ :: _ =>
      exists kept,
        filter_cancer_diseases diseases cancer_ta = Ok kept
        /\ kept = filter (Spec.is_cancer_disease cancer_ta) diseases
        /\ (forall d,
              In d kept <->
              In d diseases
              /\ (exists anc, ancestors d = Some anc /\ In cancer_ta anc)
              /\ id d <> cancer_ta)
        /\ (forall d, ancestors d = None -> ~ In d kept)
  end.
Proof.
  pose proof (filter_cancer_diseases_outcome diseases cancer_ta) as E.
  destruct diseases as [|d0 t0]; [exact E|].
  eexists. split; [exact E|]. split; [reflexivity|]. split.
  - intros d. rewrite filter_In, is_cancer_disease_iff. tauto.
  - intros d Hnone Hin. apply filter_In in Hin. destruct Hin as [_ H].
    apply is_cancer_disease_iff in H. destruct H as [[anc [Ha _]] _].
    congruence.
Qed.

Lemma lower_length (s : string) : String.length (lower s) = String.length s.
Proof. induction s as [|c s IH]; simpl; congruence. Qed.

Lemma lower_substring (s : string) :
  forall n m, lower (substring n m s) = substring n m (lower s).
Proof.
  induction s as [|c s IH]; intros n m.
  - destruct n, m; reflexivity.
  - destruct n as [|n]; destruct m as [|m]; simpl; try apply IH; try reflexivity.
    now rewrite IH.
Qed.

Lemma substring_whole (s : string) : substring 0 (String.length s) s = s.
Proof. induction s as [|c s IH]; simpl; [reflexivity | now rewrite IH]. Qed.

Lemma slice_from_substring (n : nat) :
  forall s, slice_from n s = substring n (String.length s - n) s.
Proof.
  induction n as [|n IH]; intros s.
  - simpl. rewrite Nat.sub_0_r. symmetry. apply substring_whole.
  - destruct s as [|c s]; simpl; [reflexivity | apply IH].
Qed.

Lemma is_mesh_ref_code (r : string) :
  Spec.is_mesh_ref r
  = negb (String.eqb r "") && startswith (lower r) "mesh:".
Proof.
  unfold Spec.is_mesh_ref, startswith.
  change (lower Spec.mesh_prefix) with "mesh:".
  change (String.length Spec.mesh_prefix) with 5.
  rewrite lower_substring.
  destruct r as [|c r]; [reflexivity|].
  change (negb (String.eqb (String c r) "")) with true.
  rewrite andb_true_l.
  destruct (String.prefix "mesh:" (lower (String c r))) eqn:E.
  - apply prefix_correct in E. change (String.length "mesh:") with 5 in E.
    rewrite E. reflexivity.
  - apply String.eqb_neq. intros H.
    assert (String.prefix "mesh:" (lower (String c r)) = true)
      by (apply prefix_correct; exact H).
    congruence.
Qed.

Lemma collect_mesh_ids_spec (xrefs : list (option string)) :
  forall acc,
    collect_mesh_ids xrefs acc
    = acc ++ map Spec.strip_mesh_prefix
                 (filter Spec.is_mesh_ref (Spec.present xrefs)).
Proof.
  induction xrefs as [|ref rest IH]; intros acc.
  - simpl. now rewrite app_nil_r.
  - cbn [collect_mesh_ids]. rewrite IH.
    destruct ref as [r|]; [|reflexivity].
    change (Spec.present (Some r :: rest)) with (r :: Spec.present rest).
    cbn [filter]. rewrite is_mesh_ref_code.
    destruct (negb (String.eqb r "") && startswith (lower r) "mesh:");
      [|reflexivity].
    cbn [map]. rewrite <- app_assoc. cbn [app].
    unfold Spec.strip_mesh_prefix at 2.
    change (String.length Spec.mesh_prefix) with 5.
    now rewrite slice_from_substring.
Qed.

(** C7.  For every reference list, [get_mesh_ids] is the cross-reference
    extraction of the specification: case-insensitive match of the
    ["MeSH:"] tag, tag stripped, original order kept; a null list or a
    list without match gives the absent value, never an empty list.  The
    frame-level function applies it to every row. *)
Theorem get_mesh_ids_extracts_cross_refs :
  (forall xrefs, get_mesh_ids xrefs = Spec.cross_ref_ids xrefs)
  /\ (forall xrefs, get_mesh_ids xrefs <> Some [])
  /\ get_mesh_ids None = None
  /\ (forall l,
        filter Spec.is_mesh_ref (Spec.present l) = [] ->
        get_mesh_ids (Some l) = None)
  /\ (forall diseases,
        extract_mesh_ids diseases
        = map (fun d => mkCancer (id d) (name d)
                                 (Spec.cross_ref_ids (dbXRefs d)))
              diseases).
Proof.
  assert (E : forall xrefs, get_mesh_ids xrefs = Spec.cross_ref_ids xrefs).
  { intros [l|]; [|reflexivity].
    unfold get_mesh_ids, Spec.cross_ref_ids.
    now rewrite collect_mesh_ids_spec. }
  split; [exact E|]. split; [|split; [reflexivity|split]].
  - intros [l|]; [|discriminate]. rewrite E. simpl.
    destruct (map Spec.strip_mesh_prefix
                  (filter Spec.is_mesh_ref (Spec.present l)));
      discriminate.
  - intros l Hl. rewrite E. simpl. now rewrite Hl.
  - intros diseases. unfold extract_mesh_ids.
    apply map_ext. intros d. now rewrite E.
Qed.

Example get_mesh_ids_mixed_case :
  get_mesh_ids (Some [Some "MeSH:D001943"; Some "OMIM:114480"; None;
                      Some "mesh:D009369"; Some "MESH:D000077192"])
  = Some ["D001943"; "D009369"; "D000077192"].
Proof. reflexivity. Qed.

Example get_mesh_ids_no_match :
  get_mesh_ids (Some [Some "OMIM:114480"; Some "NCIt:C4872"]) = None.
Proof. reflexivity. Qed.
End DiseaseFacts.

(** ** The crosswalk builder *)

Section CrosswalkFacts.
Import ExtractMesh ExtractDiseases BuildCrosswalk.

Lemma explode_ids_spec (d : CancerDisease) (ids : list string) :
  forall rows_,
    explode_ids d ids rows_
    = rows_ ++ map (mkExploded (diseaseId d) (diseaseName d)) ids.
Proof.
  induction ids as [|i rest IH]; intros rows_; simpl.
  - now rewrite app_nil_r.
  - rewrite IH, <- app_assoc. reflexivity.
Qed.

Lemma explode_rows_spec (ds : list CancerDisease) :
  forall rows_, explode_rows ds rows_ = rows_ ++ flat_map Spec.exploded_of ds.
Proof.
  induction ds as [|d rest IH]; intros rows_; simpl.
  - now rewrite app_nil_r.
  - rewrite IH. unfold Spec.exploded_of at 2.
    destruct (meshIds d) as [ids|].
    + now rewrite explode_ids_spec, <- app_assoc.
    + reflexivity.
Qed.

Lemma flat_map_exploded_filter (ds : list CancerDisease) :
  flat_map Spec.exploded_of (filter (fun d => notna (meshIds d)) ds)
  = flat_map Spec.exploded_of ds.
Proof.
  induction ds as [|d rest IH]; [reflexivity|].
  cbn [filter flat_map].
  destruct (meshIds d) as [ids|] eqn:E; cbn [notna flat_map].
  - now rewrite IH.
  - rewrite IH. unfold Spec.exploded_of at 2. now rewrite E.
Qed.

Lemma in_exploded (ds : list CancerDisease) (x : Exploded) :
  In x (flat_map Spec.exploded_of ds) <->
  exists d ids,
    In d ds /\ meshIds d = Some ids /\ In (x_meshId x) ids
    /\ x = mkExploded (diseaseId d) (diseaseName d) (x_meshId x).
Proof.
  rewrite in_flat_map. unfold Spec.exploded_of. split.
  - intros [d [Hd Hx]]. destruct (meshIds d) as [ids|] eqn:E; [|destruct Hx].
    apply in_map_iff in Hx. destruct Hx as [i [<- Hi]].
    exists d, ids. simpl. auto.
  - intros [d [ids [Hd [E [Hi Hx]]]]]. exists d. split; [exact Hd|].
    rewrite E. apply in_map_iff. exists (x_meshId x). split; [now symmetry|exact Hi].
Qed.

Lemma exploded_pair_mapped (ds : list CancerDisease) (D T : string) :
  Spec.pair_mapped ds D T <->
  exists x, In x (flat_map Spec.exploded_of ds)
            /\ x_diseaseId x = D /\ x_meshId x = T.
Proof.
  split.
  - intros [d [ids [Hd [HD [E Hi]]]]].
    exists (mkExploded (diseaseId d) (diseaseName d) T).
    split; [|split; [exact HD|reflexivity]].
    apply in_exploded. exists d, ids. simpl. auto.
  - intros [x [Hx [HD HT]]]. apply in_exploded in Hx.
    destruct Hx as [d [ids [Hd [E [Hi Hx']]]]].
    exists d, ids. rewrite Hx' in HD. simpl in HD. subst T. auto.
Qed.

Lemma in_merged_rows (ds : list CancerDisease)
      (mh : DataFrame HierarchyEntry) (m : CrosswalkRow) :
  In m (Spec.merged_rows ds mh) <->
  exists x h,
    In x (flat_map Spec.exploded_of ds) /\ In h (rows mh)
    /\ mesh_id h = x_meshId x /\ m = join_row x h.
Proof.
  unfold Spec.merged_rows. rewrite in_flat_map. split.
  - intros [x [Hx Hm]]. apply in_map_iff in Hm.
    destruct Hm as [h [<- Hh]]. apply filter_In in Hh.
    destruct Hh as [Hh E]. apply String.eqb_eq in E. now exists x, h.
  - intros [x [h [Hx [Hh [E ->]]]]]. exists x. split; [exact Hx|].
    apply in_map_iff. exists h. split; [reflexivity|].
    apply filter_In. split; [exact Hh | now apply String.eqb_eq].
Qed.

Lemma same_pair_key (a b : CrosswalkRow) :
  same_pair a b = true <-> Spec.crosswalk_pair a = Spec.crosswalk_pair b.
Proof.
  unfold same_pair, Spec.crosswalk_pair.
  rewrite andb_true_iff, !String.eqb_eq. split.
  - intros [-> ->]. reflexivity.
  - intros H. injection H. auto.
Qed.

Lemma level_leb_total (a b : CrosswalkRow) :
  level_leb a b = true \/ level_leb b a = true.
Proof. unfold level_leb. rewrite !Z.leb_le. lia. Qed.

Lemma level_leb_trans (a b c : CrosswalkRow) :
  level_leb a b = true -> level_leb b c = true -> level_leb a c = true.
Proof. unfold level_leb. rewrite !Z.leb_le. lia. Qed.

(** The builder, step by step, on a hierarchy frame with its columns. *)
Lemma build_disease_mesh_crosswalk_unfold
      (ds : list CancerDisease) (mh : DataFrame HierarchyEntry) :
  columns mh = hierarchy_columns ->
  build_disease_mesh_crosswalk ds mh
  = match flat_map Spec.exploded_of ds with
    | [] => Raise (KeyError "meshId")
    | _ :: _ =>
        Ok (mkDF
              ["diseaseId"; "diseaseName"; "meshId"; "mesh_name";
               "tree_number"; "level"]
              (sort_by disease_level_leb
                 (drop_duplicates_last same_pair
                    (sort_by_desc level_leb (Spec.merged_rows ds mh)))))
    end.
Proof.
  intros Hcols. unfold build_disease_mesh_crosswalk.
  rewrite boolean_index_map, explode_rows_spec, flat_map_exploded_filter.
  simpl app. unfold Spec.merged_rows.
  destruct (flat_map Spec.exploded_of ds) as [|x0 xs] eqn:E.
  - reflexivity.
  - unfold merge_hierarchy. rewrite Hcols. reflexivity.
Qed.

(** C4.  On a hierarchy frame, the crosswalk has one row per (disease,
    term) pair that is mapped and has a hierarchy entry, and that row
    carries the lowest level of the term's entries.  The builder raises
    only when no disease has any MeSH id. *)
Theorem build_disease_mesh_crosswalk_keeps_lowest_level
        (cancer_diseases : list CancerDisease)
        (mesh_hierarchy : DataFrame HierarchyEntry) :
  columns mesh_hierarchy = hierarchy_columns ->
  match build_disease_mesh_crosswalk cancer_diseases mesh_hierarchy with
  | Ok crosswalk =>
      NoDup (map Spec.crosswalk_pair (rows crosswalk))
      /\ (forall r,
            In r (rows crosswalk) ->
            Spec.pair_mapped cancer_diseases (cw_diseaseId r) (cw_meshId r)
            /\ (exists h, In h (rows mesh_hierarchy)
                          /\ mesh_id h = cw_meshId r
                          /\ level h = cw_level r)
            /\ (forall h, In h (rows mesh_hierarchy) ->
                          mesh_id h = cw_meshId r ->
                          (cw_level r <= level h)%Z))
      /\ (forall D T h,
            Spec.pair_mapped cancer_diseases D T ->
            In h (rows mesh_hierarchy) -> mesh_id h = T ->
            exists r, In r (rows crosswalk)
                      /\ cw_diseaseId r = D /\ cw_meshId r = T)
  | Raise _ => forall D T, ~ Spec.pair_mapped cancer_diseases D T
  end.
Proof.
  intros Hcols.
  rewrite (build_disease_mesh_crosswalk_unfold _ _ Hcols).
  destruct (flat_map Spec.exploded_of cancer_diseases) as [|x0 xs] eqn:E.
  { intros D T H. apply exploded_pair_mapped in H.
    destruct H as [x [Hx _]]. rewrite E in Hx. destruct Hx. }
  clear E x0 xs. cbn [rows].
  set (merged := Spec.merged_rows cancer_diseases mesh_hierarchy).
  set (sorted := sort_by_desc level_leb merged).
  set (kept := drop_duplicates_last same_pair sorted).
  assert (Pout : Permutation (sort_by disease_level_leb kept) kept)
    by apply sort_by_perm.
  assert (Psorted : Permutation sorted merged)
    by apply sort_by_desc_perm.
  assert (Hsorted :
            StronglySorted (fun a b => level_leb b a = true) sorted).
  { apply sort_by_desc_sorted;
      [apply level_leb_total | apply level_leb_trans]. }
  assert (Hout : forall r, In r (sort_by disease_level_leb kept)
                           <-> In r kept).
  { intros r. split; apply Permutation_in;
      [exact Pout | apply Permutation_sym; exact Pout]. }
  assert (Hmerged : forall r, In r sorted <-> In r merged).
  { intros r. split; apply Permutation_in;
      [exact Psorted | apply Permutation_sym; exact Psorted]. }
  split; [|split].
  - eapply Permutation_NoDup;
      [apply Permutation_map, Permutation_sym; exact Pout|].
    apply (drop_duplicates_last_NoDup _ _ same_pair_key).
  - intros r Hr. apply Hout in Hr.
    assert (Hrm : In r merged).
    { apply Hmerged. now apply (drop_duplicates_last_In same_pair) in Hr. }
    pose proof Hrm as Hrm'. apply in_merged_rows in Hrm'.
    destruct Hrm' as [x [h [Hx [Hh [Eh ->]]]]]. simpl.
    split; [|split].
    + apply exploded_pair_mapped. now exists x.
    + now exists h.
    + intros h' Hh' Eh'.
      assert (Hm' : In (join_row x h') sorted).
      { apply Hmerged, in_merged_rows. now exists x, h'. }
      pose proof (drop_duplicates_last_extreme
                    _ _ same_pair_key
                    (fun a b => level_leb b a = true) sorted
                    (fun a => Z.leb_refl (cw_level a)) Hsorted
                    (join_row x h) (join_row x h') Hr Hm' eq_refl) as Hle.
      unfold level_leb in Hle. simpl in Hle. now apply Z.leb_le.
  - intros D T h Hmap Hh Eh. apply exploded_pair_mapped in Hmap.
    destruct Hmap as [x [Hx [HD HT]]].
    assert (Hm : In (join_row x h) sorted).
    { apply Hmerged, in_merged_rows. exists x, h. repeat split; auto.
      congruence. }
    destruct (drop_duplicates_last_complete _ _ same_pair_key sorted _ Hm)
      as [r [Hr Hk]].
    exists r. split; [now apply Hout|].
    unfold Spec.crosswalk_pair in Hk. simpl in Hk.
    injection Hk as H1 H2. split; congruence.
Qed.

Lemma build_disease_mesh_crosswalk_keeps_lowest_level_witness :
  match build_disease_mesh_crosswalk [Samples.disease_D]
                                     Samples.hierarchy_T with
  | Ok crosswalk =>
      NoDup (map Spec.crosswalk_pair (rows crosswalk))
      /\ (forall r, In r (rows crosswalk) ->
          forall h, In h (rows Samples.hierarchy_T) ->
                    mesh_id h = cw_meshId r -> (cw_level r <= level h)%Z)
  | Raise _ => False
  end.
Proof.
  pose proof (build_disease_mesh_crosswalk_keeps_lowest_level
                [Samples.disease_D] Samples.hierarchy_T eq_refl) as H.
  destruct (build_disease_mesh_crosswalk [Samples.disease_D]
                                         Samples.hierarchy_T) eqn:E.
  - destruct H as [H1 [H2 _]]. split; [exact H1|].
    intros r Hr. exact (proj2 (proj2 (H2 r Hr))).
  - vm_compute in E. discriminate E.
Defined.

(** A disease mapped to one term at levels 3 and 5: one row, level 3. *)
Example crosswalk_dedup_levels_3_and_5 :
  build_disease_mesh_crosswalk [Samples.disease_D] Samples.hierarchy_T
  = Ok (mkDF ["diseaseId"; "diseaseName"; "meshId"; "mesh_name";
              "tree_number"; "level"]
             [mkCrosswalk "D" "disease" "T" "term" "C04.588.1" 3%Z]).
Proof. reflexivity. Qed.
End CrosswalkFacts.

(** ** The association aggregator *)

Section AggregatorFacts.
Import ExtractDiseases BuildCrosswalk.

Lemma filter_map_swap {A B : Type} (f : A -> B) (p : B -> bool)
      (l : list A) :
  filter p (map f l) = map f (filter (fun x => p (f x)) l).
Proof.
  induction l as [|x t IH]; simpl; [reflexivity|].
  destruct (p (f x)); simpl; now rewrite IH.
Qed.

Lemma filter_filter {A : Type} (p q : A -> bool) (l : list A) :
  filter p (filter q l) = filter (fun x => q x && p x) l.
Proof.
  induction l as [|x t IH]; simpl; [reflexivity|].
  destruct (q x); simpl; [destruct (p x)|]; now rewrite IH.
Qed.

Lemma merge_crosswalk_prod (associations : list Association)
      (crosswalk : list CrosswalkRow) :
  merge_crosswalk associations crosswalk
  = map Spec.joined_of (filter Spec.same_disease (list_prod associations crosswalk)).
Proof.
  unfold merge_crosswalk.
  induction associations as [|a rest IH]; simpl; [reflexivity|].
  rewrite IH, filter_app, map_app. f_equal.
  rewrite filter_map_swap, map_map. reflexivity.
Qed.

(** The filter on the disease ids of the crosswalk changes nothing in
    the join. *)
Lemma merge_crosswalk_isin (associations : list Association)
      (crosswalk : list CrosswalkRow) :
  merge_crosswalk
    (boolean_index associations
       (map (fun a => existsb (String.eqb (a_diseaseId a))
                              (map cw_diseaseId crosswalk))
            associations))
    crosswalk
  = merge_crosswalk associations crosswalk.
Proof.
  rewrite boolean_index_map. unfold merge_crosswalk.
  induction associations as [|a rest IH]; simpl; [reflexivity|].
  destruct (existsb (String.eqb (a_diseaseId a))
                    (map cw_diseaseId crosswalk)) eqn:E; simpl.
  - now rewrite IH.
  - rewrite IH.
    assert (Hnil : filter (fun c => String.eqb (cw_diseaseId c)
                                               (a_diseaseId a))
                          crosswalk = []).
    { clear IH. induction crosswalk as [|c cs IHc]; simpl; [reflexivity|].
      simpl in E. apply orb_false_iff in E. destruct E as [E1 E2].
      rewrite String.eqb_sym, E1. now apply IHc. }
    now rewrite Hnil.
Qed.

Lemma group_of_contributing (associations : list Association)
      (crosswalk : list CrosswalkRow) (g t : string) :
  group_of (g, t) (merge_crosswalk associations crosswalk)
  = map Spec.joined_of (Spec.contributing associations crosswalk g t).
Proof.
  unfold group_of, Spec.contributing.
  rewrite merge_crosswalk_prod, filter_map_swap, filter_filter.
  reflexivity.
Qed.

Lemma key_eqb_eq (a b : string * string) : key_eqb a b = true <-> a = b.
Proof.
  destruct a as [a1 a2], b as [b1 b2]. unfold key_eqb. simpl.
  rewrite andb_true_iff, !String.eqb_eq. split.
  - intros [-> ->]. reflexivity.
  - intros H. injection H. auto.
Qed.

Lemma qmax_cases (a b : Q) :
  (qmax a b = a /\ (b <= a)%Q) \/ (qmax a b = b /\ (a <= b)%Q).
Proof.
  unfold qmax. destruct (Qle_bool a b) eqn:E.
  - right. split; [reflexivity | now apply Qle_bool_iff].
  - left. split; [reflexivity|].
    destruct (Qlt_le_dec b a) as [H|H]; [now apply Qlt_le_weak|].
    apply Qle_bool_iff in H. congruence.
Qed.

Lemma fold_qmax_maximum (t : list Q) :
  forall x, Spec.is_maximum (fold_left qmax t x) (x :: t).
Proof.
  induction t as [|y t IH]; intros x; simpl.
  - split; [now left|]. intros z [<-|[]]. apply Qle_refl.
  - destruct (IH (qmax x y)) as [Hin Hmax]. split.
    + destruct Hin as [Hin|Hin]; [|now right; right].
      rewrite <- Hin.
      destruct (qmax_cases x y) as [[-> _]|[-> _]];
        [now left | now right; left].
    + assert (Hx : (x <= qmax x y)%Q /\ (y <= qmax x y)%Q).
      { destruct (qmax_cases x y) as [[-> H]|[-> H]]; split;
          auto; apply Qle_refl. }
      assert (Hm : (qmax x y <= fold_left qmax t (qmax x y))%Q)
        by (apply Hmax; now left).
      intros z [<-|[<-|Hz]].
      * eapply Qle_trans; [apply Hx | exact Hm].
      * eapply Qle_trans; [apply Hx | exact Hm].
      * apply Hmax. now right.
Qed.

Lemma agg_max_maximum (l : list Q) :
  l <> [] -> Spec.is_maximum (agg_max l) l.
Proof.
  destruct l as [|x t]; [congruence|]. intros _. apply fold_qmax_maximum.
Qed.

Lemma wrap_int64_fits (z : Z) :
  Spec.fits_int64 z -> wrap_int64 z = z.
Proof.
  unfold Spec.fits_int64, wrap_int64. intros H.
  rewrite Z.mod_small; lia.
Qed.

Lemma wrap_int64_range (z : Z) : Spec.fits_int64 (wrap_int64 z).
Proof.
  unfold Spec.fits_int64, wrap_int64.
  pose proof (Z.mod_pos_bound (z + 2 ^ 63) (2 ^ 64) eq_refl) as H.
  change (2 ^ 64)%Z with (2 ^ 63 + 2 ^ 63)%Z in H at 3. lia.
Qed.

(** Wrapping after every addition is wrapping once at the end. *)
Lemma wrap_int64_add (a x : Z) :
  wrap_int64 (wrap_int64 a + x) = wrap_int64 (a + x).
Proof.
  unfold wrap_int64. f_equal.
  replace ((a + 2 ^ 63) mod 2 ^ 64 - 2 ^ 63 + x + 2 ^ 63)%Z
    with ((a + 2 ^ 63) mod 2 ^ 64 + x)%Z by lia.
  rewrite Zplus_mod_idemp_l. f_equal. lia.
Qed.

(** The int64 accumulator holds the exact sum, wrapped. *)
Lemma agg_sum_wrap (l : list Z) : agg_sum l = wrap_int64 (Spec.total l).
Proof.
  unfold agg_sum, Spec.total.
  assert (H : forall a,
             fold_left (fun acc x => wrap_int64 (acc + x)) l (wrap_int64 a)
             = wrap_int64 (a + fold_right Z.add 0%Z l)).
  { induction l as [|x t IH]; intros a; simpl.
    - f_equal. lia.
    - rewrite wrap_int64_add, IH. f_equal. lia. }
  change 0%Z with (wrap_int64 0%Z) at 1. rewrite H. f_equal.
Qed.

Lemma agg_sum_total (l : list Z) :
  Spec.fits_int64 (Spec.total l) -> agg_sum l = Spec.total l.
Proof. intros H. rewrite agg_sum_wrap. now apply wrap_int64_fits. Qed.

Lemma in_group_keys (joined : list Joined) (k : string * string) :
  In k (sort_by str_pair_leb
                (drop_duplicates_first key_eqb (map group_key joined)))
  <-> In k (map group_key joined).
Proof.
  assert (P := sort_by_perm str_pair_leb
                 (drop_duplicates_first key_eqb (map group_key joined))).
  split; intros H.
  - apply (Permutation_in _ P) in H.
    now apply (drop_duplicates_first_In (fun k => k) key_eqb key_eqb_eq)
      in H.
  - apply (Permutation_in _ (Permutation_sym P)).
    destruct (drop_duplicates_first_complete
                (fun k => k) key_eqb key_eqb_eq _ k H) as [y [Hy E]].
    now subst.
Qed.

Lemma group_keys_NoDup (joined : list Joined) :
  NoDup (sort_by str_pair_leb
                 (drop_duplicates_first key_eqb (map group_key joined))).
Proof.
  eapply Permutation_NoDup; [apply Permutation_sym, sort_by_perm|].
  pose proof (drop_duplicates_first_NoDup
                (fun k => k) key_eqb key_eqb_eq (map group_key joined)) as H.
  now rewrite map_id in H.
Qed.

Lemma contributing_key (associations : list Association)
      (crosswalk : list CrosswalkRow) (g t : string) :
  Spec.contributing associations crosswalk g t <> [] <->
  In (g, t) (map group_key (merge_crosswalk associations crosswalk)).
Proof.
  split.
  - intros Hne.
    destruct (Spec.contributing associations crosswalk g t)
      as [|p ps] eqn:E; [congruence|].
    assert (Hp : In (Spec.joined_of p)
                    (group_of (g, t)
                              (merge_crosswalk associations crosswalk))).
    { rewrite group_of_contributing, E. now left. }
    apply filter_In in Hp. destruct Hp as [Hp Hk].
    apply key_eqb_eq in Hk. rewrite <- Hk. now apply in_map.
  - intros Hin Hnil. apply in_map_iff in Hin. destruct Hin as [j [Hk Hj]].
    assert (Hg : In j (group_of (g, t)
                                (merge_crosswalk associations crosswalk))).
    { apply filter_In. split; [exact Hj | now apply key_eqb_eq]. }
    rewrite group_of_contributing, Hnil in Hg. destruct Hg.
Qed.

(** C5.  The aggregated table has no two rows for one (gene, term)
    pair; the score of a row is the maximum of the scores of the
    contributing rows; its evidence count is their sum as the int64 column
    holds it, that is the sum itself whenever it lies in the signed 64-bit
    range and the sum wrapped around otherwise; and every pair with a
    contributing row has its row. *)
Theorem build_final_dataset_max_and_sum
        (associations : list Association)
        (cancer_diseases : list CancerDisease)
        (crosswalk : list CrosswalkRow) :
  let final := build_final_dataset associations cancer_diseases crosswalk in
  NoDup (map Spec.gene_term_pair final)
  /\ (forall r,
        In r final ->
        let c := Spec.contributing associations crosswalk
                                   (targetId r) (meshId r) in
        let sum := Spec.total (map (fun p => a_evidenceCount (fst p)) c) in
        c <> []
        /\ Spec.is_maximum (score r) (map (fun p => a_score (fst p)) c)
        /\ evidenceCount r = wrap_int64 sum
        /\ (Spec.fits_int64 sum -> evidenceCount r = sum))
  /\ (forall g t,
        Spec.contributing associations crosswalk g t <> [] ->
        exists r, In r final /\ targetId r = g /\ meshId r = t).
Proof.
  unfold build_final_dataset. rewrite merge_crosswalk_isin.
  unfold groupby_agg. cbv zeta.
  set (joined := merge_crosswalk associations crosswalk).
  set (keys := sort_by str_pair_leb
                       (drop_duplicates_first key_eqb
                                              (map group_key joined))).
  split; [|split].
  - rewrite map_map. unfold Spec.gene_term_pair. simpl.
    rewrite (map_ext _ (fun k => k)) by (now intros [a b]).
    rewrite map_id. apply group_keys_NoDup.
  - intros r Hr. apply in_map_iff in Hr. destruct Hr as [[g t] [<- Hk]].
    cbn [targetId meshId score evidenceCount fst snd].
    apply in_group_keys in Hk.
    assert (Hne : Spec.contributing associations crosswalk g t <> [])
      by now apply contributing_key.
    split; [exact Hne|].
    unfold joined. rewrite group_of_contributing, !map_map.
    split; [|split].
    + apply agg_max_maximum. intros E. apply map_eq_nil in E. contradiction.
    + apply agg_sum_wrap.
    + apply agg_sum_total.
  - intros g t Hne. apply contributing_key in Hne.
    apply in_group_keys in Hne. fold joined keys in Hne.
    eexists. split.
    + apply in_map_iff. exists (g, t). split; [reflexivity | exact Hne].
    + split; reflexivity.
Qed.

(** C5, as stated, fails: two evidence counts of 2^62 under one pair
    add up to 2^63, and the row of the pair carries -2^63. *)
Lemma build_final_dataset_sum_wraps_counterexample :
  exists r,
    In r (build_final_dataset Samples.associations_large []
                              Samples.crosswalk_T)
    /\ evidenceCount r = (- 2 ^ 63)%Z
    /\ Spec.total
         (map (fun p => a_evidenceCount (fst p))
              (Spec.contributing Samples.associations_large
                                 Samples.crosswalk_T
                                 (targetId r) (meshId r)))
       = (2 ^ 63)%Z
    /\ evidenceCount r
       <> Spec.total
            (map (fun p => a_evidenceCount (fst p))
                 (Spec.contributing Samples.associations_large
                                    Samples.crosswalk_T
                                    (targetId r) (meshId r))).
Proof.
  exists (mkGeneMesh "G" "T" (8 # 10) (- 2 ^ 63)%Z).
  split; [left; reflexivity|].
  split; [reflexivity|]. split; [reflexivity|].
  vm_compute. discriminate.
Qed.

(** Diseases D1 (0.8, 5) and D2 (0.6, 3) under one term and one gene:
    score 0.8 and evidence count 8. *)
Example aggregator_two_diseases :
  build_final_dataset Samples.associations_G [] Samples.crosswalk_T
  = [mkGeneMesh "G" "T" (8 # 10) 8%Z].
Proof. reflexivity. Qed.
End AggregatorFacts.

(** ** The identifier remapper *)

Section RemapperFacts.
Import BuildCrosswalk AddEntrez.

Lemma option_eqb_eq (a b : option string) :
  option_eqb String.eqb a b = true <-> a = b.
Proof.
  destruct a as [x|], b as [y|]; simpl;
    try (split; [discriminate | discriminate]); [|tauto].
  rewrite String.eqb_eq. split; [now intros -> | now intros [= ->]].
Qed.

Lemma same_mapping_eq (a b : EntrezMap) :
  same_mapping a b = true <-> (fun e : EntrezMap => e) a = b.
Proof.
  destruct a as [a1 a2], b as [b1 b2]. unfold same_mapping. simpl.
  rewrite andb_true_iff, !option_eqb_eq. split.
  - now intros [-> ->].
  - intros [= -> ->]. auto.
Qed.

Lemma same_ensembl_key (a b : EntrezMap) :
  same_ensembl a b = true <-> ensemblGeneId a = ensemblGeneId b.
Proof. apply option_eqb_eq. Qed.

Lemma find_map {A B : Type} (f : A -> B) (p : B -> bool) (l : list A) :
  find p (map f l) = option_map f (find (fun x => p (f x)) l).
Proof.
  induction l as [|x t IH]; simpl; [reflexivity|].
  now destruct (p (f x)).
Qed.

Lemma find_filter {A : Type} (p q : A -> bool) (l : list A) :
  find p (filter q l) = find (fun x => q x && p x) l.
Proof.
  induction l as [|x t IH]; simpl; [reflexivity|].
  destruct (q x); simpl; [now destruct (p x) | exact IH].
Qed.

(** After the two [drop_duplicates], the rows of the mapping that match a
    gene are the first human row that names it, and nothing else. *)
Lemma matches_load_gene2ensembl (r : GeneMesh)
      (gene2ensembl : list Gene2Ensembl) :
  matches r (load_gene2ensembl gene2ensembl HUMAN_TAX_ID)
  = match Spec.first_entry gene2ensembl (targetId r) with
    | Some row => [mkMap (GeneID row) (Ensembl_gene_identifier row)]
    | None => []
    end.
Proof.
  unfold matches, load_gene2ensembl.
  rewrite (filter_drop_duplicates_first
             ensemblGeneId same_ensembl same_ensembl_key
             _ (Some (targetId r)))
    by (intros a; apply option_eqb_eq).
  rewrite (find_drop_duplicates_first
             (fun e : EntrezMap => e) same_mapping same_mapping_eq)
    by (intros a b ->; reflexivity).
  rewrite find_map, boolean_index_map, find_filter.
  unfold Spec.first_entry. simpl.
  change (fun x : Gene2Ensembl =>
            option_eqb String.eqb (tax_id x) (Some HUMAN_TAX_ID)
            && option_eqb String.eqb (Ensembl_gene_identifier x)
                          (Some (targetId r)))
    with (Spec.names_gene (targetId r)).
  now destruct (find (Spec.names_gene (targetId r)) gene2ensembl).
Qed.

(** The left merge keeps every row once, with its Entrez id or a null. *)
Lemma merge_left_spec (df : list GeneMesh)
      (gene2ensembl : list Gene2Ensembl) :
  merge_left df (load_gene2ensembl gene2ensembl HUMAN_TAX_ID)
  = map (Spec.merged_of gene2ensembl) df.
Proof.
  unfold merge_left.
  rewrite (flat_map_ext _ (fun r => [Spec.merged_of gene2ensembl r])).
  - induction df as [|r rest IH]; simpl; [reflexivity | now rewrite IH].
  - intros r. rewrite matches_load_gene2ensembl.
    unfold Spec.merged_of, Spec.entrez_of.
    now destruct (Spec.first_entry gene2ensembl (targetId r)).
Qed.

Lemma dropna_spec (df : list GeneMesh) (gene2ensembl : list Gene2Ensembl) :
  dropna (map (Spec.merged_of gene2ensembl) df)
  = map (Spec.merged_of gene2ensembl) (filter (Spec.has_entrez gene2ensembl) df).
Proof. unfold dropna. now rewrite filter_map_swap. Qed.

Lemma to_final_ok (gene2ensembl : list Gene2Ensembl) (rs : list GeneMesh) :
  forall final,
    to_final (map (Spec.merged_of gene2ensembl) rs) = Ok final ->
    Forall2 (Spec.remapped gene2ensembl) rs final.
Proof.
  induction rs as [|r rest IH]; intros final; simpl.
  - intros [= <-]. constructor.
  - destruct (Spec.entrez_of gene2ensembl (targetId r)) as [s|] eqn:Es;
      [|discriminate].
    destruct (to_int64 s) as [z|e] eqn:Ez; simpl; [|discriminate].
    destruct (to_final (map (Spec.merged_of gene2ensembl) rest)) as [t|e];
      simpl; [|discriminate].
    intros [= <-]. constructor; [|now apply IH].
    unfold Spec.remapped. simpl. repeat split. now exists s.
Qed.

Lemma to_final_raise (gene2ensembl : list Gene2Ensembl)
      (rs : list GeneMesh) (e : exn) :
  (forall r, In r rs -> Spec.has_entrez gene2ensembl r = true) ->
  to_final (map (Spec.merged_of gene2ensembl) rs) = Raise e ->
  exists r s, In r rs
              /\ Spec.entrez_of gene2ensembl (targetId r) = Some s
              /\ to_int64 s = Raise e.
Proof.
  induction rs as [|r rest IH]; simpl; [discriminate|].
  intros Hall.
  assert (Hr := Hall r (or_introl eq_refl)). unfold Spec.has_entrez in Hr.
  destruct (Spec.entrez_of gene2ensembl (targetId r)) as [s|] eqn:Es;
    [|discriminate].
  destruct (to_int64 s) as [z|e'] eqn:Ez; simpl.
  - destruct (to_final (map (Spec.merged_of gene2ensembl) rest)) as [t|e'] eqn:Et;
      simpl; [discriminate|].
    intros [= <-].
    destruct IH as [r' [s' [Hin H]]]; [auto | reflexivity|].
    exists r', s'. split; [now right | exact H].
  - intros [= <-]. exists r, s. auto.
Qed.

(** What [run] returns, for every input. *)
Lemma run_outcome (verbose : bool) (df : list GeneMesh)
      (gene2ensembl : list Gene2Ensembl) :
  match run verbose df gene2ensembl with
  | Ok final =>
      columns final = final_columns
      /\ exists images,
          Permutation (rows final) images
          /\ Forall2 (Spec.remapped gene2ensembl)
                     (filter (Spec.has_entrez gene2ensembl) df) images
  | Raise e => Spec.run_failure verbose df gene2ensembl e
  end.
Proof.
  unfold run, run_merge. rewrite merge_left_spec, dropna_spec, length_map.
  destruct (verbose && (List.length df =? 0)) eqn:Ev.
  - left. apply andb_true_iff in Ev. destruct Ev as [-> Hlen].
    apply Nat.eqb_eq in Hlen. destruct df; [auto | discriminate].
  - destruct (to_final
                (map (Spec.merged_of gene2ensembl)
                     (filter (Spec.has_entrez gene2ensembl) df)))
      as [final|e] eqn:Ef; simpl.
    + split; [reflexivity|]. exists final. split.
      * apply sort_by_desc_perm.
      * now apply to_final_ok.
    + right. apply to_final_raise in Ef.
      * destruct Ef as [r [s [Hin H]]]. apply filter_In in Hin.
        exists r, s. tauto.
      * intros r Hr. now apply filter_In in Hr.
Qed.

(** C9.  A row whose gene id has no entry in the first-seen crosswalk
    comes out of the left merge with a null Entrez id and is not among the
    rows kept by the drop; every kept row has an entry with an Entrez id.
    Whenever the remapper returns, its rows are, up to the order of the
    sort, the remapped images of exactly the rows with an Entrez id: one
    final row, with an integer id, for each of them and none for any
    other row. *)
Theorem run_drops_rows_without_entry
        (verbose : bool) (df : list GeneMesh)
        (gene2ensembl : list Gene2Ensembl) :
  let entrez_map := load_gene2ensembl gene2ensembl HUMAN_TAX_ID in
  (forall r,
      In r df ->
      Spec.first_entry gene2ensembl (targetId r) = None ->
      In (mkMerged r None) (merge_left df entrez_map)
      /\ (forall m, In m (dropna (merge_left df entrez_map)) ->
                    targetId (m_row m) <> targetId r)
      /\ ~ In r (filter (Spec.has_entrez gene2ensembl) df))
  /\ (forall m,
        In m (dropna (merge_left df entrez_map)) ->
        In (m_row m) df
        /\ exists row e,
            Spec.first_entry gene2ensembl (targetId (m_row m)) = Some row
            /\ GeneID row = Some e /\ m_entrezGeneId m = Some e)
  /\ match run verbose df gene2ensembl with
     | Ok final =>
         exists images,
           Permutation (rows final) images
           /\ Forall2 (Spec.remapped gene2ensembl)
                      (filter (Spec.has_entrez gene2ensembl) df) images
     | Raise e => Spec.run_failure verbose df gene2ensembl e
     end.
Proof.
  cbv zeta.
  assert (Hkept :
            forall m,
              In m (dropna (merge_left df (load_gene2ensembl
                                             gene2ensembl HUMAN_TAX_ID))) ->
              In (m_row m) df
              /\ exists row e,
                  Spec.first_entry gene2ensembl (targetId (m_row m))
                  = Some row
                  /\ GeneID row = Some e /\ m_entrezGeneId m = Some e).
  { intros m Hm. rewrite merge_left_spec, dropna_spec in Hm.
    apply in_map_iff in Hm. destruct Hm as [r [<- Hr]].
    apply filter_In in Hr. destruct Hr as [Hin H].
    split; [exact Hin|].
    unfold Spec.has_entrez, Spec.entrez_of in H. simpl.
    unfold Spec.entrez_of.
    destruct (Spec.first_entry gene2ensembl (targetId r)) as [row|];
      [|discriminate].
    destruct (GeneID row) as [e|] eqn:E; [|discriminate].
    exists row, e. auto. }
  split; [|split; [exact Hkept|]].
  - intros r Hr Hnone. split; [|split].
    + rewrite merge_left_spec. apply in_map_iff. exists r.
      split; [|exact Hr]. unfold Spec.merged_of, Spec.entrez_of.
      now rewrite Hnone.
    + intros m Hm E. destruct (Hkept m Hm) as [_ [row [e [Hrow _]]]].
      rewrite E in Hrow. congruence.
    + intros Hin. apply filter_In in Hin. destruct Hin as [_ H].
      unfold Spec.has_entrez, Spec.entrez_of in H. rewrite Hnone in H.
      discriminate.
  - pose proof (run_outcome verbose df gene2ensembl) as H.
    destruct (run verbose df gene2ensembl); [exact (proj2 H) | exact H].
Qed.

Example run_drops_unmapped_gene :
  run true Samples.gene_mesh_one_unmapped Samples.gene2ensembl_p53
  = Ok (mkDF final_columns [mkFinal "D001943" 7157%Z (9 # 10) 4%Z]).
Proof. reflexivity. Qed.

Lemma Forall2_In_r {A B : Type} (R : A -> B -> Prop)
      (l : list A) (l' : list B) (b : B) :
  Forall2 R l l' -> In b l' -> exists a, In a l /\ R a b.
Proof.
  induction 1 as [|a0 b0 l l' Hab Hrest IH]; simpl; [tauto|].
  intros [<-|Hb].
  - exists a0. auto.
  - destruct (IH Hb) as [a [Ha Hr]]. exists a. auto.
Qed.

Lemma Forall2_NoDup_keys {A B KA KB : Type} (R : A -> B -> Prop)
      (ka : A -> KA) (kb : B -> KB) (l : list A) (l' : list B) :
  Forall2 R l l' ->
  (forall a a' b b',
      In a l -> In a' l -> R a b -> R a' b' -> kb b = kb b' ->
      ka a = ka a') ->
  NoDup (map ka l) -> NoDup (map kb l').
Proof.
  induction 1 as [|a b l l' Hab Hrest IH]; intros Hinj Hnd; simpl;
    [constructor|].
  simpl in Hnd. apply NoDup_cons_iff in Hnd. destruct Hnd as [Hna Hnd].
  constructor.
  - intros Hin. apply in_map_iff in Hin. destruct Hin as [b' [Hk Hb']].
    destruct (Forall2_In_r R l l' b' Hrest Hb') as [a' [Ha' Ra']].
    apply Hna. apply in_map_iff. exists a'. split; [|exact Ha'].
    apply (Hinj a' a b' b); simpl; auto.
  - apply IH; [|exact Hnd].
    intros x x' y y' Hx Hx'. apply Hinj; now right.
Qed.
Lemma NoDup_map_filter {A K : Type} (k : A -> K) (p : A -> bool)
      (l : list A) :
  NoDup (map k l) -> NoDup (map k (filter p l)).
Proof.
  induction l as [|x t IH]; simpl; [auto|].
  intros Hnd. apply NoDup_cons_iff in Hnd. destruct Hnd as [Hx Hnd].
  destruct (p x); simpl; [|now apply IH].
  constructor; [|now apply IH].
  intros Hin. apply Hx. apply in_map_iff in Hin.
  destruct Hin as [y [Hk Hy]]. apply filter_In in Hy.
  apply in_map_iff. exists y. tauto.
Qed.

Lemma Forall2_In_l {A B : Type} (R : A -> B -> Prop)
      (l : list A) (l' : list B) (a : A) :
  Forall2 R l l' -> In a l -> exists b, In b l' /\ R a b.
Proof.
  induction 1 as [|a0 b0 l l' Hab Hrest IH]; simpl; [tauto|].
  intros [<-|Ha].
  - exists b0. auto.
  - destruct (IH Ha) as [b [Hb Hr]]. exists b. auto.
Qed.

Lemma Forall2_length_eq {A B : Type} (R : A -> B -> Prop)
      (l : list A) (l' : list B) :
  Forall2 R l l' -> List.length l = List.length l'.
Proof. induction 1; simpl; congruence. Qed.

(** Rows with equal keys on the right come from one row on the left,
    when the key on the right is determined by the row on the left. *)
Lemma Forall2_NoDup_keys_inv {A B KB : Type} (R : A -> B -> Prop)
      (kb : B -> KB) (l : list A) (l' : list B) :
  Forall2 R l l' ->
  (forall a b b', R a b -> R a b' -> kb b = kb b') ->
  NoDup (map kb l') ->
  forall a a' b b',
    In a l -> In a' l -> R a b -> R a' b' -> kb b = kb b' -> a = a'.
Proof.
  intros Hall Hdet. induction Hall as [|a0 b0 l l' Hab Hrest IH]; simpl;
    [intros _ a a' b b' []|].
  intros Hnd. apply NoDup_cons_iff in Hnd. destruct Hnd as [Hb0 Hnd].
  assert (Hhead : forall a' b', In a' l -> R a' b' -> kb b0 <> kb b').
  { intros a' b' Ha' Hr' E. apply Hb0.
    destruct (Forall2_In_l R l l' a' Hrest Ha') as [b'' [Hb'' Hr'']].
    apply in_map_iff. exists b''. split; [|exact Hb''].
    rewrite E. now apply (Hdet a'). }
  intros a a' b b' [<-|Ha] [<-|Ha'] Hr Hr' Hk.
  - reflexivity.
  - exfalso. apply (Hhead a' b' Ha' Hr').
    rewrite <- Hk. now apply (Hdet a0).
  - exfalso. apply (Hhead a b Ha Hr).
    rewrite Hk. now apply (Hdet a0).
  - now apply (IH Hnd a a' b b').
Qed.

(** The pair of a final row is determined by the row it comes from. *)
Lemma remapped_pair (gene2ensembl : list Gene2Ensembl) (r : GeneMesh)
      (f f' : FinalRow) :
  Spec.remapped gene2ensembl r f -> Spec.remapped gene2ensembl r f' ->
  Spec.final_pair f = Spec.final_pair f'.
Proof.
  intros [Hm [_ [_ [e [He Hz]]]]] [Hm' [_ [_ [e' [He' Hz']]]]].
  unfold Spec.final_pair. f_equal; congruence.
Qed.

(** C1, as the code has it.  The remapper does not aggregate again: it
    returns one row for each input row that has an Entrez id, with the
    term, score and evidence count of that row.  Its table is therefore
    unique per (disease_mesh_id, gene_entrez_id) exactly when the input
    rows with an Entrez id are unique per (gene, term) and no two
    different genes of the input under one term map to the same Entrez
    id. *)
Theorem run_pairs_unique_when_remap_injective
        (verbose : bool) (df : list GeneMesh)
        (gene2ensembl : list Gene2Ensembl) :
  match run verbose df gene2ensembl with
  | Ok final =>
      (exists images,
          Permutation (rows final) images
          /\ Forall2 (Spec.remapped gene2ensembl)
                     (filter (Spec.has_entrez gene2ensembl) df) images)
      /\ List.length (rows final)
         = List.length (filter (Spec.has_entrez gene2ensembl) df)
      /\ (NoDup (map Spec.final_pair (rows final)) <->
          NoDup (map Spec.gene_term_pair
                     (filter (Spec.has_entrez gene2ensembl) df))
          /\ forall r1 r2 e1 e2 z,
              In r1 df -> In r2 df ->
              meshId r1 = meshId r2 ->
              Spec.entrez_of gene2ensembl (targetId r1) = Some e1 ->
              Spec.entrez_of gene2ensembl (targetId r2) = Some e2 ->
              to_int64 e1 = Ok z -> to_int64 e2 = Ok z ->
              targetId r1 = targetId r2)
  | Raise e => Spec.run_failure verbose df gene2ensembl e
  end.
Proof.
  pose proof (run_outcome verbose df gene2ensembl) as H.
  destruct (run verbose df gene2ensembl) as [final|e]; [|exact H].
  destruct H as [_ [images [Hperm Hall]]].
  split; [exists images; auto|]. split.
  { rewrite (Permutation_length Hperm). symmetry.
    exact (Forall2_length_eq _ _ _ Hall). }
  split.
  - intros Hfinal.
    assert (Hnd' : NoDup (map Spec.final_pair images)).
    { eapply Permutation_NoDup; [|exact Hfinal].
      apply Permutation_map. exact Hperm. }
    split.
    + apply (Forall2_NoDup_keys
               (fun f r => Spec.remapped gene2ensembl r f)
               Spec.final_pair Spec.gene_term_pair
               images (filter (Spec.has_entrez gene2ensembl) df)
               (Forall2_flip Hall)); [|exact Hnd'].
      intros f f' r r' _ _ Hr Hr' Hk.
      destruct Hr as [Hm [_ [_ [x [Hx Hy]]]]].
      destruct Hr' as [Hm' [_ [_ [x' [Hx' Hy']]]]].
      unfold Spec.gene_term_pair in Hk. injection Hk as Hg Ht.
      unfold Spec.final_pair. f_equal; congruence.
    + intros r1 r2 e1 e2 z H1 H2 Hm He1 He2 Hz1 Hz2.
      assert (Hk1 : In r1 (filter (Spec.has_entrez gene2ensembl) df)).
      { apply filter_In. split; [exact H1|].
        unfold Spec.has_entrez. now rewrite He1. }
      assert (Hk2 : In r2 (filter (Spec.has_entrez gene2ensembl) df)).
      { apply filter_In. split; [exact H2|].
        unfold Spec.has_entrez. now rewrite He2. }
      destruct (Forall2_In_l _ _ _ r1 Hall Hk1) as [f1 [_ Hr1]].
      destruct (Forall2_In_l _ _ _ r2 Hall Hk2) as [f2 [_ Hr2]].
      assert (E : r1 = r2).
      { apply (Forall2_NoDup_keys_inv
                 (Spec.remapped gene2ensembl) Spec.final_pair _ _ Hall
                 (remapped_pair gene2ensembl) Hnd' r1 r2 f1 f2
                 Hk1 Hk2 Hr1 Hr2).
        destruct Hr1 as [Hm1 [_ [_ [x1 [Hx1 Hy1]]]]].
        destruct Hr2 as [Hm2 [_ [_ [x2 [Hx2 Hy2]]]]].
        unfold Spec.final_pair. f_equal; congruence. }
      now rewrite E.
  - intros [Hnd Hinj].
    eapply Permutation_NoDup;
      [apply Permutation_map, Permutation_sym; exact Hperm|].
    apply (Forall2_NoDup_keys (Spec.remapped gene2ensembl)
                              Spec.gene_term_pair Spec.final_pair
                              _ _ Hall); [|exact Hnd].
    intros a a' b b' Ha Ha' Hr Hr' Hk.
    apply filter_In in Ha. apply filter_In in Ha'.
    destruct Hr as [Hm [_ [_ [e [He Hz]]]]].
    destruct Hr' as [Hm' [_ [_ [e' [He' Hz']]]]].
    unfold Spec.final_pair in Hk. injection Hk as Hk1 Hk2.
    unfold Spec.gene_term_pair.
    assert (Hmesh : meshId a = meshId a') by congruence.
    f_equal; [|exact Hmesh].
    apply (Hinj a a' e e' (gene_entrez_id b)); try tauto.
    now rewrite Hk2.
Qed.

Lemma run_pairs_unique_when_remap_injective_witness :
  exists final,
    run true Samples.gene_mesh_two_terms Samples.gene2ensembl_three
    = Ok final
    /\ List.length (rows final) = 3
    /\ NoDup (map Spec.final_pair (rows final)).
Proof.
  pose proof (run_pairs_unique_when_remap_injective
                true Samples.gene_mesh_two_terms
                Samples.gene2ensembl_three) as H.
  destruct (run true Samples.gene_mesh_two_terms
                Samples.gene2ensembl_three) as [final|e] eqn:E.
  - exists final. split; [reflexivity|].
    destruct H as [_ [Hlen Hiff]]. split; [exact Hlen|].
    apply Hiff. split.
    + simpl. repeat constructor; simpl; intuition discriminate.
    + intros r1 r2 e1 e2 z H1 H2 Hm He1 He2 Hz1 Hz2.
      simpl in H1, H2.
      destruct H1 as [<-|[<-|[<-|[]]]]; destruct H2 as [<-|[<-|[<-|[]]]];
        try reflexivity; try discriminate Hm;
        vm_compute in He1; vm_compute in He2;
        injection He1 as <-; injection He2 as <-;
        vm_compute in Hz1; vm_compute in Hz2; congruence.
  - vm_compute in E. discriminate E.
Defined.

(** C1, as stated, fails: two Ensembl genes of one term that share an
    Entrez gene, in a table unique per (gene, term), leave two rows for one
    (disease_mesh_id, gene_entrez_id) pair. *)
Lemma run_pairs_not_unique_counterexample :
  exists final,
    run true Samples.gene_mesh_two_genes Samples.gene2ensembl_shared
    = Ok final
    /\ NoDup (map Spec.gene_term_pair Samples.gene_mesh_two_genes)
    /\ ~ NoDup (map Spec.final_pair (rows final)).
Proof.
  eexists. split; [reflexivity|]. split.
  - simpl. constructor.
    + intros [H|[]]. discriminate H.
    + constructor; [intros []|constructor].
  - simpl. intros H. apply NoDup_cons_iff in H. destruct H as [H _].
    apply H. now left.
Qed.
End RemapperFacts.

(** ** The artifact between step 1 and step 2 *)

Section RunAllFacts.
Import ExtractDiseases RunAll.

Lemma path_eqb_refl (p : Path) : path_eqb p p = true.
Proof.
  induction p as [|a p IH]; simpl; [reflexivity|].
  now rewrite String.eqb_refl.
Qed.

Lemma path_eqb_eq (p q : Path) : path_eqb p q = true <-> p = q.
Proof.
  revert q. induction p as [|a p IH]; intros [|b q]; simpl;
    try (split; [discriminate | discriminate]); [tauto|].
  rewrite andb_true_iff, String.eqb_eq, IH.
  split; [intros [-> ->]; reflexivity | intros H; injection H; auto].
Qed.

(** The two paths differ whatever [processed_dir] is: step 1 writes one
    directory below the place where step 2 reads. *)
Lemma step1_output_is_not_step2_input (config : Config) :
  step1_output_path config <> step2_input_path config.
Proof.
  unfold step1_output_path, step2_input_path, pdiv.
  intros H. apply (f_equal (@List.length string)) in H.
  rewrite !length_app in H. simpl in H. lia.
Qed.

Lemma read_after_write_elsewhere (fs : FileSystem) (p q : Path)
      (content : list CancerDisease) :
  p <> q -> read_parquet (to_parquet fs q content) p = read_parquet fs p.
Proof.
  intros Hne. simpl. destruct (path_eqb p q) eqn:E; [|reflexivity].
  apply path_eqb_eq in E. contradiction.
Qed.

(** Step 1 stops on an index without rows and returns otherwise. *)
Lemma extract_diseases_run_outcome
      (config : Config) (diseases : list DiseaseRow)
      (cancer_ta : string) (fs : FileSystem) :
  extract_diseases_run config diseases cancer_ta fs
  = match diseases with
    | [] => Raise (KeyError "id")
    | _ :: _ =>
        let result :=
          extract_mesh_ids
            (filter (Spec.is_cancer_disease cancer_ta) diseases) in
        Ok (result, to_parquet fs (step1_output_path config) result)
    end.
Proof.
  unfold extract_diseases_run.
  rewrite filter_cancer_diseases_outcome.
  destruct diseases; reflexivity.
Qed.

(** C3.  Step 1 does not produce the file step 2 loads.  Whenever step 1
    succeeds (on every index that has rows) its frame is on disk under the
    path of step 1, and step 2, run right after it, stops with
    [FileNotFoundError] unless the file it wants is already there from
    elsewhere.  Step 1 itself fails only on an index without rows. *)
Theorem step2_does_not_find_step1_output
        (config : Config) (diseases : list DiseaseRow)
        (cancer_ta : string) (fs : FileSystem) :
  read_parquet fs (step2_input_path config) = None ->
  match extract_diseases_run config diseases cancer_ta fs with
  | Ok out =>
      diseases <> []
      /\ read_parquet (snd out) (step1_output_path config) = Some (fst out)
      /\ load_cancer_diseases config (snd out)
         = Raise (FileNotFoundError "Run Step 1 first")
      /\ main_until_step2 config diseases cancer_ta fs
         = Raise (FileNotFoundError "Run Step 1 first")
  | Raise e =>
      diseases = [] /\ e = KeyError "id"
      /\ main_until_step2 config diseases cancer_ta fs = Raise e
  end.
Proof.
  intros Hnone. unfold main_until_step2.
  rewrite extract_diseases_run_outcome.
  destruct diseases as [|d t]; [repeat split|].
  cbv zeta. cbn [bind fst snd].
  assert (Hload :
            load_cancer_diseases
              config
              (to_parquet
                 fs (step1_output_path config)
                 (extract_mesh_ids
                    (filter (Spec.is_cancer_disease cancer_ta) (d :: t))))
            = Raise (FileNotFoundError "Run Step 1 first")).
  { unfold load_cancer_diseases. rewrite read_after_write_elsewhere.
    - now rewrite Hnone.
    - intros E. symmetry in E.
      exact (step1_output_is_not_step2_input config E). }
  split; [discriminate|]. split; [|split; exact Hload].
  unfold to_parquet. cbn [read_parquet]. now rewrite path_eqb_refl.
Qed.

Lemma step2_does_not_find_step1_output_witness :
  exists result fs1,
    extract_diseases_run Samples.config Samples.disease_index
                         "EFO_0000616" []
    = Ok (result, fs1)
    /\ read_parquet fs1 (step1_output_path Samples.config) = Some result
    /\ main_until_step2 Samples.config Samples.disease_index
                        "EFO_0000616" []
       = Raise (FileNotFoundError "Run Step 1 first").
Proof.
  pose proof (step2_does_not_find_step1_output
                Samples.config Samples.disease_index "EFO_0000616" []
                eq_refl) as H.
  destruct (extract_diseases_run Samples.config Samples.disease_index
                                 "EFO_0000616" []) as [[result fs1]|e] eqn:E.
  - exists result, fs1. cbn [fst snd] in H.
    split; [reflexivity|]. split; [apply H | apply H].
  - destruct H as [H _]. discriminate H.
Defined.

(** An index without rows never reaches step 2. *)
Example main_until_step2_empty_index :
  main_until_step2 Samples.config [] "EFO_0000616" []
  = Raise (KeyError "id").
Proof. reflexivity. Qed.
End RunAllFacts.

(** ** More on the parser *)

Section ParserBlocks.
Import ExtractMesh Blocks.

Lemma ui_line_is_not_mh (l : string) :
  startswith l "UI = " = true -> startswith l "MH = " = false.
Proof.
  unfold startswith. destruct l as [|c l]; [discriminate|].
  rewrite !prefix_cons.
  destruct (Ascii.eqb_spec "U" c) as [<-|]; [|discriminate].
  reflexivity.
Qed.

(** One line that is not a marker, seen from the dict. *)
Lemma step_field_line (st : ParserState) (raw : string) :
  is_marker raw = false ->
  step st raw
  = match field "MN = " raw, MN (current st) with
    | Some _, None => Raise (KeyError "MN")
    | _, _ =>
        Ok (mkState
              (records st)
              (mkMeshDict
                 (match field "UI = " raw with
                  | Some v => Some v
                  | None => UI (current st)
                  end)
                 (match field "MH = " raw with
                  | Some v => Some v
                  | None => MH (current st)
                  end)
                 (match field "MN = " raw, MN (current st) with
                  | Some v, Some mn => Some (mn ++ [v])
                  | _, mn => mn
                  end)))
    end.
Proof.
  intros Hm. unfold is_marker in Hm. unfold step, field. rewrite Hm.
  destruct st as [recs [ui mh mn]]. cbn [current records UI MH MN].
  destruct (startswith (strip raw) "UI = ") eqn:Hui.
  - rewrite (ui_line_is_not_mn _ Hui), (ui_line_is_not_mh _ Hui).
    now destruct mn.
  - destruct (startswith (strip raw) "MH = ") eqn:Hmh.
    + rewrite (mh_line_is_not_mn _ Hmh). now destruct mn.
    + destruct (startswith (strip raw) "MN = "); now destruct mn.
Qed.

Lemma is_field_field (tag raw : string) :
  is_field tag raw
  = match field tag raw with Some _ => true | None => false end.
Proof. unfold is_field, field. now destruct (startswith (strip raw) tag). Qed.

(** Everything from a state that has its ['MN'] list on: each marker
    flushes the dict before it and starts a new one. *)
Lemma run_from_marker (ls : list string) :
  forall st,
    MN (current st) <> None ->
    exists st',
      run_lines st ls = Ok st'
      /\ flush st'
         = match split_blocks ls with
           | (pre, blocks) =>
               flush
                 (mkState (records st)
                    (mkMeshDict
                       (last_field "UI = " pre (UI (current st)))
                       (last_field "MH = " pre (MH (current st)))
                       (option_map (fun mn => mn ++ all_fields "MN = " pre)
                                   (MN (current st)))))
               ++ filter complete (map block_record blocks)
           end.
Proof.
  induction ls as [|raw rest IH]; intros st Hmn.
  - exists st. split; [reflexivity|]. simpl.
    destruct st as [recs [ui mh [mn|]]]; [|contradiction]. simpl.
    now rewrite !app_nil_r.
  - cbn [run_lines split_blocks].
    destruct (is_marker raw) eqn:Em.
    + assert (Hstep : step st raw = Ok (mkState (flush st) fresh_dict)).
      { unfold step. unfold is_marker in Em. now rewrite Em. }
      rewrite Hstep. cbn [bind].
      destruct (IH (mkState (flush st) fresh_dict)) as [st' [Hrun Hfl]];
        [discriminate|].
      exists st'. split; [exact Hrun|]. rewrite Hfl.
      destruct (split_blocks rest) as [pre blocks].
      cbn [records current UI MH MN fresh_dict option_map app last_field
           all_fields flat_map map filter].
      destruct st as [recs [ui mh [mn|]]]; [|contradiction].
      cbn [records current UI MH MN option_map].
      rewrite app_nil_r.
      change (mkMeshDict (last_field "UI = " pre None)
                         (last_field "MH = " pre None)
                         (Some (all_fields "MN = " pre)))
        with (block_record pre).
      unfold flush at 1. cbn [records current].
      fold (complete (block_record pre)).
      destruct (complete (block_record pre)); [|reflexivity].
      now rewrite <- app_assoc.
    + rewrite (step_field_line st raw Em).
      destruct st as [recs [ui mh [mn|]]]; [|contradiction].
      cbn [records current UI MH MN].
      destruct (IH (mkState recs
                      (mkMeshDict
                         (match field "UI = " raw with
                          | Some v => Some v
                          | None => ui
                          end)
                         (match field "MH = " raw with
                          | Some v => Some v
                          | None => mh
                          end)
                         (match field "MN = " raw with
                          | Some v => Some (mn ++ [v])
                          | None => Some mn
                          end))))
        as [st' [Hrun Hfl]].
      { cbn [current MN]. destruct (field "MN = " raw); discriminate. }
      exists st'. split.
      * destruct (field "MN = " raw); exact Hrun.
      * rewrite Hfl. destruct (split_blocks rest) as [pre blocks].
        cbn [records current UI MH MN last_field all_fields flat_map].
        destruct (field "MN = " raw) as [v|]; cbn [option_map app];
          [rewrite <- app_assoc|]; reflexivity.
Qed.
Lemma flush_without_mn (recs : list MeshDict) (ui mh : option string) :
  flush (mkState recs (mkMeshDict ui mh None)) = recs.
Proof. unfold flush. simpl. now rewrite andb_false_r. Qed.

(** The whole run, from a dict without ['MN'] list. *)
Lemma run_from_start (ls : list string) :
  forall recs ui mh,
    match split_blocks ls with
    | (pre, blocks) =>
        if existsb (is_field "MN = ") pre
        then run_lines (mkState recs (mkMeshDict ui mh None)) ls
             = Raise (KeyError "MN")
        else exists st',
            run_lines (mkState recs (mkMeshDict ui mh None)) ls = Ok st'
            /\ flush st' = recs ++ filter complete (map block_record blocks)
    end.
Proof.
  induction ls as [|raw rest IH]; intros recs ui mh.
  - simpl. eexists. split; [reflexivity|].
    now rewrite flush_without_mn, app_nil_r.
  - cbn [split_blocks run_lines].
    destruct (is_marker raw) eqn:Em.
    + assert (Hstep : step (mkState recs (mkMeshDict ui mh None)) raw
                      = Ok (mkState recs fresh_dict)).
      { unfold step. unfold is_marker in Em. rewrite Em.
        now rewrite flush_without_mn. }
      rewrite Hstep. cbn [bind].
      destruct (run_from_marker rest (mkState recs fresh_dict))
        as [st' [Hrun Hfl]]; [discriminate|].
      destruct (split_blocks rest) as [pre blocks]. cbn [existsb].
      exists st'. split; [exact Hrun|]. rewrite Hfl.
      cbn [records current UI MH MN fresh_dict option_map app map filter].
      change (mkMeshDict (last_field "UI = " pre None)
                         (last_field "MH = " pre None)
                         (Some (all_fields "MN = " pre)))
        with (block_record pre).
      unfold flush. cbn [records current].
      fold (complete (block_record pre)).
      destruct (complete (block_record pre)); [|reflexivity].
      now rewrite <- app_assoc.
    + rewrite (step_field_line _ raw Em).
      cbn [records current UI MH MN].
      specialize (IH recs
                     (match field "UI = " raw with
                      | Some v => Some v
                      | None => ui
                      end)
                     (match field "MH = " raw with
                      | Some v => Some v
                      | None => mh
                      end)).
      destruct (split_blocks rest) as [pre blocks]. cbn [existsb].
      rewrite is_field_field.
      destruct (field "MN = " raw); cbn [orb bind];
        [reflexivity | exact IH].
Qed.

Lemma parse_mesh_file_parse_blocks (text : string) :
  parse_mesh_file text = parse_blocks text.
Proof.
  unfold parse_mesh_file, parse_blocks, initial, empty_dict.
  pose proof (run_from_start (lines text) [] None None) as H.
  destruct (split_blocks (lines text)) as [pre blocks].
  destruct (existsb (is_field "MN = ") pre).
  - now rewrite H.
  - destruct H as [st' [-> Hfl]]. simpl. now rewrite Hfl.
Qed.

(** X1.  The parser is the block-wise function: the text is cut at its
    marker lines; each block after a marker gives the dict with its last
    [UI = ] value, its last [MH = ] value and all its [MN = ] values in
    order; the dicts with identifier and tree number are the records, the
    last block included; a tree-number line ahead of the first marker
    raises. *)
Theorem parse_mesh_file_is_block_wise (text : string) :
  parse_mesh_file text
  = match split_blocks (lines text) with
    | (pre, blocks) =>
        if existsb (is_field "MN = ") pre then Raise (KeyError "MN")
        else Ok (filter complete (map block_record blocks))
    end.
Proof.
  rewrite parse_mesh_file_parse_blocks. unfold parse_blocks.
  now destruct (split_blocks (lines text)).
Qed.

Example parse_two_records :
  parse_mesh_file Samples2.two_records
  = Ok [mkMeshDict (Some "D001943") (Some "Breast Neoplasms")
                   (Some ["C04.588.180"; "C17.800.090.500"])].
Proof. reflexivity. Qed.

(** X2.  A file whose first line is a marker is always parsed: the
    parser returns its records and raises nothing. *)
Theorem parse_mesh_file_returns_after_marker
        (text first : string) (rest : list string) :
  lines text = first :: rest ->
  is_marker first = true ->
  exists recs,
    parse_mesh_file text = Ok recs
    /\ recs = filter complete
                     (map block_record (snd (split_blocks (lines text)))).
Proof.
  intros Hl Hm. rewrite parse_mesh_file_parse_blocks.
  unfold parse_blocks. rewrite Hl. cbn [split_blocks]. rewrite Hm.
  destruct (split_blocks rest) as [pre blocks]. cbn [existsb snd].
  eexists. split; reflexivity.
Qed.

Lemma parse_mesh_file_returns_after_marker_witness :
  exists recs, parse_mesh_file Samples.one_record_with_marker = Ok recs.
Proof.
  destruct (parse_mesh_file_returns_after_marker
              Samples.one_record_with_marker "*NEWRECORD"
              ["UI = D001943"; "MH = Breast Neoplasms"; "MN = C04.588.180"]
              eq_refl eq_refl) as [recs [H _]].
  now exists recs.
Defined.
Lemma complete_parsed_record (d : MeshDict) :
  complete d = true -> Spec.parsed_record d.
Proof.
  unfold complete, Spec.parsed_record. intros H.
  apply andb_true_iff in H. destruct H as [Hu Hm].
  destruct (UI d) as [u|]; [|discriminate].
  destruct (MN d) as [mn|]; [|discriminate]. eauto.
Qed.

Lemma parse_mesh_file_complete (text : string) (recs : list MeshDict) :
  parse_mesh_file text = Ok recs ->
  Forall (fun d => complete d = true) recs.
Proof.
  rewrite parse_mesh_file_parse_blocks. unfold parse_blocks.
  destruct (split_blocks (lines text)) as [pre blocks].
  destruct (existsb (is_field "MN = ") pre); [discriminate|].
  intros [= <-]. apply Forall_forall. intros d Hd.
  now apply filter_In in Hd.
Qed.

(** X3.  Every record the parser returns has a non-empty identifier
    and at least one tree number, so the extractor run on the parser's
    output never fails on a missing ['UI'] or ['MN'] key: it returns a
    non-empty table with the four columns, or raises the [KeyError] of the
    empty frame when no path has the prefix. *)
Theorem parse_then_extract (text : string) (recs : list MeshDict) :
  parse_mesh_file text = Ok recs ->
  Forall (fun d => truthy_str (UI d) = true /\ truthy_list (MN d) = true)
         recs
  /\ forall prefix,
      match extract_c04_hierarchy recs prefix with
      | Ok df => columns df = hierarchy_columns /\ rows df <> []
      | Raise e =>
          e = KeyError "tree_number"
          /\ forall d mn path,
              In d recs -> MN d = Some mn -> In path mn ->
              startswith path prefix = false
      end.
Proof.
  intros Hparse. pose proof (parse_mesh_file_complete _ _ Hparse) as Hc.
  split.
  - eapply Forall_impl; [|exact Hc]. intros d Hd.
    now apply andb_true_iff in Hd.
  - intros prefix.
    assert (Hp : Forall Spec.parsed_record recs).
    { eapply Forall_impl; [|exact Hc]. apply complete_parsed_record. }
    rewrite (extract_c04_hierarchy_unfold recs prefix Hp).
    destruct (Spec.hierarchy_rows recs prefix) as [|r0 rest] eqn:E.
    + split; [reflexivity|]. intros d mn path Hd Hmn Hpath.
      destruct (startswith path prefix) eqn:Es; [|reflexivity].
      exfalso.
      assert (Hin : In (mkEntry (match UI d with Some u => u | None => "" end)
                                (match MH d with Some n => n | None => "" end)
                                path (Spec.level_of path))
                       (Spec.hierarchy_rows recs prefix)).
      { unfold Spec.hierarchy_rows. apply in_flat_map. exists d.
        split; [exact Hd|]. apply in_map_iff. exists path.
        split; [reflexivity|]. rewrite Hmn. apply filter_In.
        split; [exact Hpath|]. now rewrite path_has_prefix_startswith. }
      rewrite E in Hin. destruct Hin.
    + cbn -[sort_by]. split; [reflexivity|]. intros Hnil.
      assert (P := sort_by_perm entry_leb (r0 :: rest)).
      rewrite Hnil in P. apply Permutation_nil in P. discriminate.
Qed.

Lemma parse_then_extract_witness :
  exists recs,
    parse_mesh_file Samples.one_record_with_marker = Ok recs
    /\ match extract_c04_hierarchy recs "C04.588" with
       | Ok df => columns df = hierarchy_columns /\ rows df <> []
       | Raise _ => False
       end.
Proof.
  eexists. split; [reflexivity|].
  pose proof (parse_then_extract Samples.one_record_with_marker _ eq_refl)
    as [_ H].
  specialize (H "C04.588"). revert H.
  match goal with
  | |- context [extract_c04_hierarchy ?r ?p] =>
      destruct (extract_c04_hierarchy r p) eqn:E
  end.
  - intros H. exact H.
  - vm_compute in E. discriminate E.
Defined.

(** *** Stripped lines *)

Lemma string_rev_onto_twice (s : string) :
  forall a b,
    string_rev_onto (string_rev_onto s a) b
    = string_rev_onto a (s ++ b)%string.
Proof.
  induction s as [|c s IH]; intros a b; simpl; [reflexivity|].
  now rewrite IH.
Qed.

Lemma string_append_nil (s : string) : (s ++ "")%string = s.
Proof. induction s as [|c s IH]; simpl; [reflexivity | now rewrite IH]. Qed.

Lemma string_rev_involutive (s : string) : string_rev (string_rev s) = s.
Proof.
  unfold string_rev. rewrite string_rev_onto_twice. simpl.
  apply string_append_nil.
Qed.

Lemma lstrip_head (s : string) (c : ascii) (r : string) :
  lstrip s = String c r -> is_space c = false.
Proof.
  induction s as [|d s IH]; simpl; [discriminate|].
  destruct (is_space d) eqn:E; [exact IH|].
  intros H. injection H as H1 H2. now subst.
Qed.

(** A stripped line does not end in white space. *)
Lemma strip_no_trailing_space (raw : string) (c : ascii) (r : string) :
  string_rev (strip raw) = String c r -> is_space c = false.
Proof.
  unfold strip, rstrip. rewrite string_rev_involutive. apply lstrip_head.
Qed.

(** The value of a field line is never empty: the line is stripped before
    the tag, which ends in a space, is looked for. *)
Lemma field_value_not_empty (tag raw v : string) :
  (tag = "UI = " \/ tag = "MH = " \/ tag = "MN = ") ->
  field tag raw = Some v -> v <> "".
Proof.
  intros Htag. unfold field.
  destruct (startswith (strip raw) tag) eqn:Es; [|discriminate].
  intros [= <-] Hv.
  apply startswith_append in Es. destruct Es as [t Ht].
  rewrite Ht in Hv.
  assert (Hrev : exists r, string_rev (strip raw) = String " " r).
  { rewrite Ht.
    destruct Htag as [-> | [-> | ->]]; simpl in Hv; subst t;
      eexists; reflexivity. }
  destruct Hrev as [r Hr].
  apply strip_no_trailing_space in Hr. discriminate Hr.
Qed.

Lemma last_field_found (tag : string) (block : list string) :
  forall found,
    last_field tag block found
    = match last_field tag block None with
      | Some v => Some v
      | None => found
      end.
Proof.
  induction block as [|raw rest IH]; intros found; simpl; [reflexivity|].
  destruct (field tag raw) as [v|].
  - rewrite (IH (Some v)).
    now destruct (last_field tag rest None).
  - apply IH.
Qed.

Lemma last_field_source (tag : string) (block : list string) (w : string) :
  forall found,
    last_field tag block found = Some w ->
    (exists raw, In raw block /\ field tag raw = Some w) \/ found = Some w.
Proof.
  induction block as [|raw rest IH]; intros found; simpl; [now right|].
  intros H. destruct (IH _ H) as [[x [Hx Hf]]|Hfound].
  - left. exists x. auto.
  - destruct (field tag raw) as [v|] eqn:Ef.
    + left. exists raw. split; [now left | congruence].
    + now right.
Qed.

Lemma last_field_none (tag : string) (block : list string) :
  last_field tag block None = None <-> existsb (is_field tag) block = false.
Proof.
  induction block as [|raw rest IH]; [simpl; tauto|].
  cbn [last_field existsb]. rewrite is_field_field.
  destruct (field tag raw) as [v|]; cbn [orb]; [|exact IH].
  rewrite last_field_found.
  destruct (last_field tag rest None); split; discriminate.
Qed.

Lemma last_field_is_field (tag : string) (block : list string) :
  (tag = "UI = " \/ tag = "MH = " \/ tag = "MN = ") ->
  truthy_str (last_field tag block None) = existsb (is_field tag) block.
Proof.
  intros Htag.
  destruct (last_field tag block None) as [w|] eqn:El.
  - destruct (existsb (is_field tag) block) eqn:Ee.
    + destruct (last_field_source tag block w None El)
        as [[raw [_ Hf]]|Hn]; [|discriminate].
      simpl. apply negb_true_iff, String.eqb_neq.
      exact (field_value_not_empty tag raw w Htag Hf).
    + apply last_field_none in Ee. congruence.
  - symmetry. now apply last_field_none.
Qed.

Lemma all_fields_is_field (tag : string) (block : list string) :
  truthy_list (Some (all_fields tag block)) = existsb (is_field tag) block.
Proof.
  induction block as [|raw rest IH]; [reflexivity|].
  cbn [all_fields flat_map existsb]. rewrite is_field_field.
  destruct (field tag raw); [reflexivity | exact IH].
Qed.

(** X4.  A block becomes a record exactly when it has at least one
    identifier line and at least one tree-number line; a name line is not
    needed, and no field value is ever empty. *)
Theorem block_is_record_iff_ui_and_mn (block : list string) :
  complete (block_record block)
  = existsb (is_field "UI = ") block && existsb (is_field "MN = ") block.
Proof.
  unfold complete, block_record. cbn [UI MN].
  rewrite last_field_is_field by auto.
  now rewrite all_fields_is_field.
Qed.

End ParserBlocks.

(** ** The orders the frames are sorted by *)

Section StringOrder.

Lemma ascii_compare_refl (a : ascii) : Ascii.compare a a = Eq.
Proof. unfold Ascii.compare. apply N.compare_refl. Qed.

Lemma ascii_compare_lt_trans (a b c : ascii) :
  Ascii.compare a b = Lt -> Ascii.compare b c = Lt -> Ascii.compare a c = Lt.
Proof.
  unfold Ascii.compare. rewrite !N.compare_lt_iff. apply N.lt_trans.
Qed.

Lemma string_compare_refl (s : string) : String.compare s s = Eq.
Proof.
  induction s as [|c s IH]; simpl; [reflexivity|].
  now rewrite ascii_compare_refl.
Qed.

Lemma string_compare_lt_trans (a : string) :
  forall b c,
    String.compare a b = Lt -> String.compare b c = Lt ->
    String.compare a c = Lt.
Proof.
  induction a as [|x a IH]; intros [|y b] [|z c]; simpl;
    try discriminate; try reflexivity.
  destruct (Ascii.compare x y) eqn:Exy; try discriminate;
    destruct (Ascii.compare y z) eqn:Eyz; try discriminate.
  - apply Ascii.compare_eq_iff in Exy. apply Ascii.compare_eq_iff in Eyz.
    subst. rewrite ascii_compare_refl. apply IH.
  - apply Ascii.compare_eq_iff in Exy. subst. now rewrite Eyz.
  - apply Ascii.compare_eq_iff in Eyz. subst. now rewrite Exy.
  - now rewrite (ascii_compare_lt_trans x y z Exy Eyz).
Qed.

Lemma string_ltb_lt (a b : string) :
  String.ltb a b = true <-> String.compare a b = Lt.
Proof.
  unfold String.ltb. destruct (String.compare a b); split;
    congruence || discriminate.
Qed.

Lemma string_leb_cases (a b : string) :
  String.leb a b = true <-> String.compare a b = Lt \/ a = b.
Proof.
  unfold String.leb. destruct (String.compare a b) eqn:E.
  - apply String.compare_eq_iff in E. tauto.
  - tauto.
  - split; [discriminate|]. intros [H|H]; [discriminate|].
    subst. rewrite string_compare_refl in E. discriminate.
Qed.

Lemma string_leb_trans (a b c : string) :
  String.leb a b = true -> String.leb b c = true -> String.leb a c = true.
Proof.
  rewrite !string_leb_cases. intros [H1 | ->] [H2 | ->]; auto.
  left. exact (string_compare_lt_trans a b c H1 H2).
Qed.

(** A lexicographic order whose first column is a string. *)
Lemma lex_leb_cases (a b : string) (p : bool) :
  String.ltb a b || (String.eqb a b && p) = true
  <-> String.compare a b = Lt \/ (a = b /\ p = true).
Proof.
  rewrite orb_true_iff, andb_true_iff, string_ltb_lt, String.eqb_eq.
  tauto.
Qed.

Lemma lex_leb_total (a b : string) (p q : bool) :
  p = true \/ q = true ->
  String.ltb a b || (String.eqb a b && p) = true
  \/ String.ltb b a || (String.eqb b a && q) = true.
Proof.
  intros H. rewrite !lex_leb_cases.
  destruct (String.compare a b) eqn:E.
  - apply String.compare_eq_iff in E. subst. tauto.
  - tauto.
  - right. left. rewrite String.compare_antisym, E. reflexivity.
Qed.

Lemma lex_leb_trans (a b c : string) (p q r : bool) :
  (p = true -> q = true -> r = true) ->
  String.ltb a b || (String.eqb a b && p) = true ->
  String.ltb b c || (String.eqb b c && q) = true ->
  String.ltb a c || (String.eqb a c && r) = true.
Proof.
  intros H. rewrite !lex_leb_cases.
  intros [H1 | [-> Hp]] [H2 | [-> Hq]]; auto.
  left. exact (string_compare_lt_trans a b c H1 H2).
Qed.

Lemma str_pair_leb_total (a b : string * string) :
  str_pair_leb a b = true \/ str_pair_leb b a = true.
Proof. apply lex_leb_total, String.leb_total. Qed.

Lemma str_pair_leb_trans (a b c : string * string) :
  str_pair_leb a b = true -> str_pair_leb b c = true ->
  str_pair_leb a c = true.
Proof. apply lex_leb_trans, string_leb_trans. Qed.
End StringOrder.

Lemma StronglySorted_weaken {A : Type} (R R' : A -> A -> Prop) (l : list A) :
  (forall a b, R a b -> R' a b) ->
  StronglySorted R l -> StronglySorted R' l.
Proof.
  intros HR. induction 1 as [|x t Ht IH Hx]; constructor; [exact IH|].
  eapply Forall_impl; [|exact Hx]. intros b. apply HR.
Qed.

Section SortedOutputs.
Import ExtractMesh ExtractDiseases BuildCrosswalk AddEntrez.

(** X5.  The table of the hierarchy extractor is in ascending order of
    (tree_number, mesh_id): of two rows, the earlier one has the smaller
    tree number, or the same tree number and a mesh id that is not
    greater. *)
Theorem extract_c04_hierarchy_sorted
        (recs : list MeshDict) (prefix : string) (df : DataFrame HierarchyEntry) :
  extract_c04_hierarchy recs prefix = Ok df ->
  StronglySorted
    (fun a b =>
       String.compare (tree_number a) (tree_number b) = Lt
       \/ (tree_number a = tree_number b
           /\ String.leb (mesh_id a) (mesh_id b) = true))
    (rows df).
Proof.
  unfold extract_c04_hierarchy. intros H.
  apply bind_ok in H. destruct H as [rows_ [_ H]].
  unfold sort_values in H.
  destruct (missing_column _ _); [discriminate|].
  injection H as <-. cbn [rows].
  eapply StronglySorted_weaken;
    [|apply (sort_by_sorted entry_leb)].
  - intros a b Hab. unfold entry_leb, str_pair_leb in Hab.
    now apply lex_leb_cases in Hab.
  - intros a b. apply str_pair_leb_total.
  - intros a b c. apply str_pair_leb_trans.
Qed.

Lemma extract_c04_hierarchy_sorted_witness :
  exists df,
    extract_c04_hierarchy [Samples.breast; Samples.heart] "C" = Ok df
    /\ StronglySorted
         (fun a b =>
            String.compare (tree_number a) (tree_number b) = Lt
            \/ (tree_number a = tree_number b
                /\ String.leb (mesh_id a) (mesh_id b) = true))
         (rows df).
Proof.
  eexists. split; [reflexivity|].
  apply (extract_c04_hierarchy_sorted [Samples.breast; Samples.heart] "C").
  reflexivity.
Defined.
Lemma disease_level_leb_total (a b : CrosswalkRow) :
  disease_level_leb a b = true \/ disease_level_leb b a = true.
Proof.
  apply lex_leb_total. rewrite !Z.leb_le. lia.
Qed.

Lemma disease_level_leb_trans (a b c : CrosswalkRow) :
  disease_level_leb a b = true -> disease_level_leb b c = true ->
  disease_level_leb a c = true.
Proof.
  apply lex_leb_trans. rewrite !Z.leb_le. lia.
Qed.

(** X6.  The crosswalk the builder returns is in ascending order of
    (diseaseId, level): the rows of one disease follow each other, the
    most general term (lowest level) first. *)
Theorem build_disease_mesh_crosswalk_sorted
        (cancer_diseases : list CancerDisease)
        (mesh_hierarchy : DataFrame HierarchyEntry)
        (crosswalk : DataFrame CrosswalkRow) :
  build_disease_mesh_crosswalk cancer_diseases mesh_hierarchy = Ok crosswalk ->
  StronglySorted
    (fun a b =>
       String.compare (cw_diseaseId a) (cw_diseaseId b) = Lt
       \/ (cw_diseaseId a = cw_diseaseId b /\ (cw_level a <= cw_level b)%Z))
    (rows crosswalk).
Proof.
  unfold build_disease_mesh_crosswalk. intros H.
  apply bind_ok in H. destruct H as [merged [_ H]].
  apply bind_ok in H. destruct H as [sorted [_ H]].
  unfold sort_values in H.
  destruct (missing_column _ _); [discriminate|].
  injection H as <-. cbn [rows].
  eapply StronglySorted_weaken;
    [|apply (sort_by_sorted disease_level_leb)].
  - intros a b Hab. unfold disease_level_leb in Hab.
    apply lex_leb_cases in Hab. now rewrite Z.leb_le in Hab.
  - apply disease_level_leb_total.
  - apply disease_level_leb_trans.
Qed.

Lemma build_disease_mesh_crosswalk_sorted_witness :
  exists crosswalk,
    build_disease_mesh_crosswalk [Samples.disease_D] Samples.hierarchy_T
    = Ok crosswalk
    /\ StronglySorted
         (fun a b =>
            String.compare (cw_diseaseId a) (cw_diseaseId b) = Lt
            \/ (cw_diseaseId a = cw_diseaseId b
                /\ (cw_level a <= cw_level b)%Z))
         (rows crosswalk).
Proof.
  eexists. split; [reflexivity|].
  apply (build_disease_mesh_crosswalk_sorted
           [Samples.disease_D] Samples.hierarchy_T).
  reflexivity.
Defined.

Lemma StronglySorted_strict {A K : Type} (R S : A -> A -> Prop)
      (key : A -> K) (l : list A) :
  (forall a b, R a b -> key a <> key b -> S a b) ->
  NoDup (map key l) -> StronglySorted R l -> StronglySorted S l.
Proof.
  intros HRS Hnd. induction 1 as [|x t Ht IH Hx]; [constructor|].
  simpl in Hnd. apply NoDup_cons_iff in Hnd. destruct Hnd as [Hx' Hnd].
  constructor; [now apply IH|].
  rewrite Forall_forall in *. intros y Hy. apply HRS; [now apply Hx|].
  intros E. apply Hx'. rewrite E. now apply in_map.
Qed.

(** X7.  The aggregated table is in strictly ascending order of
    (targetId, meshId), the order of a [groupby] on these two keys. *)
Theorem build_final_dataset_sorted
        (associations : list Association)
        (cancer_diseases : list CancerDisease)
        (crosswalk : list CrosswalkRow) :
  StronglySorted
    (fun a b =>
       String.compare (targetId a) (targetId b) = Lt
       \/ (targetId a = targetId b
           /\ String.compare (meshId a) (meshId b) = Lt))
    (build_final_dataset associations cancer_diseases crosswalk).
Proof.
  unfold build_final_dataset, groupby_agg. cbv zeta.
  set (joined := merge_crosswalk _ crosswalk).
  set (keys := sort_by str_pair_leb
                       (drop_duplicates_first key_eqb (map group_key joined))).
  assert (Hs : StronglySorted
                 (fun a b : string * string =>
                    String.compare (fst a) (fst b) = Lt
                    \/ (fst a = fst b
                        /\ String.compare (snd a) (snd b) = Lt))
                 keys).
  { apply (StronglySorted_strict
             (fun a b => str_pair_leb a b = true) _ (fun k => k)).
    - intros [a1 a2] [b1 b2] Hab Hne. unfold str_pair_leb in Hab.
      apply lex_leb_cases in Hab. simpl in *.
      destruct Hab as [Hlt | [-> Hle]]; [now left|]. right.
      split; [reflexivity|]. apply string_leb_cases in Hle.
      destruct Hle as [Hlt | ->]; [exact Hlt | congruence].
    - rewrite map_id. apply group_keys_NoDup.
    - apply sort_by_sorted;
        [apply str_pair_leb_total | apply str_pair_leb_trans]. }
  clearbody keys. induction Hs as [|k t Ht IH Hk]; simpl; [constructor|].
  constructor; [exact IH|].
  rewrite Forall_forall in *. intros r Hr. apply in_map_iff in Hr.
  destruct Hr as [k' [<- Hk']]. simpl. now apply Hk.
Qed.

Lemma score_leb_total (a b : FinalRow) :
  score_leb a b = true \/ score_leb b a = true.
Proof.
  unfold score_leb. rewrite !Qle_bool_iff.
  destruct (Qlt_le_dec (ot_score b) (ot_score a)) as [H|H];
    [right; now apply Qlt_le_weak | now left].
Qed.

Lemma score_leb_trans (a b c : FinalRow) :
  score_leb a b = true -> score_leb b c = true -> score_leb a c = true.
Proof. unfold score_leb. rewrite !Qle_bool_iff. apply Qle_trans. Qed.

(** X8.  The final table is in descending order of [ot_score]. *)
Theorem run_sorted_by_score
        (verbose : bool) (df : list GeneMesh)
        (gene2ensembl : list Gene2Ensembl) (final : DataFrame FinalRow) :
  run verbose df gene2ensembl = Ok final ->
  StronglySorted (fun a b => (ot_score b <= ot_score a)%Q) (rows final).
Proof.
  unfold run, run_merge.
  destruct (verbose && _); [discriminate|]. intros H.
  apply bind_ok in H. destruct H as [rows_ [_ H]].
  unfold sort_values in H. cbn in H. injection H as <-. cbn [rows].
  eapply StronglySorted_weaken;
    [|apply (sort_by_desc_sorted score_leb)].
  - intros a b Hab. unfold score_leb in Hab. now apply Qle_bool_iff.
  - apply score_leb_total.
  - apply score_leb_trans.
Qed.

Lemma run_sorted_by_score_witness :
  exists final,
    run true Samples.gene_mesh_two_genes Samples.gene2ensembl_shared
    = Ok final
    /\ StronglySorted (fun a b => (ot_score b <= ot_score a)%Q) (rows final).
Proof.
  eexists. split; [reflexivity|].
  apply (run_sorted_by_score true Samples.gene_mesh_two_genes
                             Samples.gene2ensembl_shared).
  reflexivity.
Defined.
End SortedOutputs.

(** ** More on the extractor and the aggregator *)

Section ExtractorPrefix.
Import ExtractMesh.

Lemma scan_records_ok_parsed (recs : list MeshDict) (prefix : string) :
  forall rows_ out,
    scan_records recs prefix rows_ = Ok out ->
    Forall Spec.parsed_record recs.
Proof.
  induction recs as [|rec rest IH]; intros rows_ out; simpl; [constructor|].
  destruct (UI rec) as [u|] eqn:Eu; [|discriminate].
  destruct (MN rec) as [mn|] eqn:Em; [|discriminate].
  intros H. constructor; [|exact (IH _ _ H)].
  unfold Spec.parsed_record. rewrite Eu, Em. eauto.
Qed.

Lemma path_has_prefix_shorter (p s path : string) :
  Spec.path_has_prefix (p ++ s) path = true ->
  Spec.path_has_prefix p path = true.
Proof.
  rewrite !path_has_prefix_startswith, !startswith_append.
  intros [t ->]. exists (s ++ t)%string.
  clear. induction p as [|c p IH]; simpl; [reflexivity | now rewrite IH].
Qed.

Lemma hierarchy_rows_shorter (recs : list MeshDict) (p s : string)
      (r : HierarchyEntry) :
  In r (Spec.hierarchy_rows recs (p ++ s)) ->
  In r (Spec.hierarchy_rows recs p).
Proof.
  unfold Spec.hierarchy_rows. rewrite !in_flat_map.
  intros [rec [Hrec Hr]]. exists rec. split; [exact Hrec|].
  apply in_map_iff in Hr. destruct Hr as [path [<- Hp]].
  apply in_map_iff. exists path. split; [reflexivity|].
  apply filter_In in Hp. apply filter_In. split; [tauto|].
  now apply (path_has_prefix_shorter p s).
Qed.

(** X9.  Narrowing the prefix narrows the table: when the extractor
    returns for a prefix [p ++ s] it also returns for [p], and every row of
    the narrower table is a row of the wider one (the C04.588 table is part
    of the C04 table). *)
Theorem extract_c04_hierarchy_narrower_prefix
        (recs : list MeshDict) (p s : string)
        (narrow : DataFrame HierarchyEntry) :
  extract_c04_hierarchy recs (p ++ s) = Ok narrow ->
  exists wide,
    extract_c04_hierarchy recs p = Ok wide
    /\ forall r, In r (rows narrow) -> In r (rows wide).
Proof.
  intros H.
  assert (Hp : Forall Spec.parsed_record recs).
  { unfold extract_c04_hierarchy in H. apply bind_ok in H.
    destruct H as [rows_ [H _]]. exact (scan_records_ok_parsed _ _ _ _ H). }
  rewrite (extract_c04_hierarchy_unfold recs _ Hp) in H.
  rewrite (extract_c04_hierarchy_unfold recs p Hp).
  destruct (Spec.hierarchy_rows recs (p ++ s)) as [|r0 rest] eqn:En;
    [discriminate H|].
  apply sort_values_rows in H. destruct H as [Hperm _]. cbn [rows] in Hperm.
  assert (Hsub : forall r, In r (rows narrow) ->
                           In r (Spec.hierarchy_rows recs p)).
  { intros r Hr. apply (hierarchy_rows_shorter recs p s). rewrite En.
    exact (Permutation_in _ Hperm Hr). }
  destruct (Spec.hierarchy_rows recs p) as [|w0 wrest] eqn:Ew.
  { exfalso. apply (Hsub r0).
    apply (Permutation_in _ (Permutation_sym Hperm)). now left. }
  eexists. split; [reflexivity|]. cbn [rows].
  intros r Hr.
  apply (Permutation_in _ (Permutation_sym (sort_by_perm entry_leb _))).
  now apply Hsub.
Qed.

Lemma extract_c04_hierarchy_narrower_prefix_witness :
  exists narrow wide,
    extract_c04_hierarchy [Samples.breast; Samples.heart] ("C04" ++ ".588")
    = Ok narrow
    /\ extract_c04_hierarchy [Samples.breast; Samples.heart] "C04" = Ok wide
    /\ forall r, In r (rows narrow) -> In r (rows wide).
Proof.
  destruct (extract_c04_hierarchy_narrower_prefix
              [Samples.breast; Samples.heart] "C04" ".588" _ eq_refl)
    as [wide [Hw Hsub]].
  eexists. exists wide. split; [reflexivity|]. split; assumption.
Defined.
End ExtractorPrefix.

Section AggregatorMore.
Import ExtractDiseases BuildCrosswalk.

(** The rows of the aggregated table, one by one. *)
Lemma in_build_final_dataset
      (associations : list Association)
      (cancer_diseases : list CancerDisease)
      (crosswalk : list CrosswalkRow) (r : GeneMesh) :
  In r (build_final_dataset associations cancer_diseases crosswalk) <->
  exists g t,
    Spec.contributing associations crosswalk g t <> []
    /\ r = mkGeneMesh
             g t
             (agg_max (map (fun p => a_score (fst p))
                           (Spec.contributing associations crosswalk g t)))
             (agg_sum (map (fun p => a_evidenceCount (fst p))
                           (Spec.contributing associations crosswalk g t))).
Proof.
  unfold build_final_dataset. rewrite merge_crosswalk_isin.
  unfold groupby_agg. cbv zeta. rewrite in_map_iff. split.
  - intros [[g t] [<- Hk]]. exists g, t. apply in_group_keys in Hk.
    split; [now apply contributing_key|].
    cbn [fst snd]. now rewrite group_of_contributing, !map_map.
  - intros [g [t [Hne ->]]]. exists (g, t). split.
    + cbn [fst snd]. now rewrite group_of_contributing, !map_map.
    + apply in_group_keys. now apply contributing_key.
Qed.

Lemma filter_nil_iff {A : Type} (f : A -> bool) (l : list A) :
  filter f l = [] <-> forall x, In x l -> f x = false.
Proof.
  induction l as [|x t IH]; simpl; [tauto|].
  destruct (f x) eqn:E.
  - split; [discriminate|]. intros H. specialize (H x (or_introl eq_refl)).
    congruence.
  - rewrite IH. split.
    + intros H y [<-|Hy]; auto.
    + intros H y Hy. apply H. now right.
Qed.

Lemma existsb_filter {A : Type} (f : A -> bool) (l : list A) :
  existsb f l = false <-> filter f l = [].
Proof.
  rewrite filter_nil_iff. induction l as [|x t IH]; simpl; [tauto|].
  rewrite orb_false_iff, IH. split.
  - intros [Hx Ht] y [<-|Hy]; auto.
  - intros H. split; [apply H; now left|]. intros y Hy. apply H. now right.
Qed.

Lemma filter_key_at_most_one {A K : Type} (key : A -> K) (keq : A -> bool)
      (k : K) (l : list A) :
  (forall a, keq a = true <-> key a = k) ->
  NoDup (map key l) ->
  filter keq l = [] \/ exists x, filter keq l = [x].
Proof.
  intros Hk. induction l as [|x t IH]; simpl; [now left|].
  intros Hnd. apply NoDup_cons_iff in Hnd. destruct Hnd as [Hx Hnd].
  destruct (keq x) eqn:E; [|now apply IH].
  right. exists x. f_equal. apply filter_nil_iff. intros y Hy.
  destruct (keq y) eqn:Ey; [|reflexivity]. exfalso. apply Hx.
  apply Hk in E. apply Hk in Ey. rewrite E, <- Ey. now apply in_map.
Qed.

(** On a crosswalk with one row per (disease, term), the contributing
    rows of a pair are its supporting associations, each once. *)
Lemma contributing_supporting
      (associations : list Association) (crosswalk : list CrosswalkRow)
      (g t : string) :
  NoDup (map Spec.crosswalk_pair crosswalk) ->
  map fst (Spec.contributing associations crosswalk g t)
  = Spec2.supporting associations crosswalk g t.
Proof.
  intros Hnd. unfold Spec.contributing, Spec2.supporting.
  induction associations as [|a rest IH]; [reflexivity|].
  cbn [list_prod filter]. rewrite filter_app, map_app, IH.
  rewrite filter_map_swap, map_map. cbn [fst snd].
  unfold Spec.same_disease. cbn [fst snd].
  set (keq := fun c : CrosswalkRow =>
                String.eqb (cw_diseaseId c) (a_diseaseId a)
                && String.eqb (cw_meshId c) t).
  assert (Hf : filter (fun x : CrosswalkRow =>
                         String.eqb (cw_diseaseId x) (a_diseaseId a)
                         && (String.eqb (a_targetId a) g
                             && String.eqb (cw_meshId x) t))
                      crosswalk
               = if String.eqb (a_targetId a) g then filter keq crosswalk
                 else []).
  { destruct (String.eqb (a_targetId a) g).
    - apply filter_ext. intros c. reflexivity.
    - apply filter_nil_iff. intros c _. now rewrite andb_false_r. }
  rewrite Hf. clear Hf.
  destruct (String.eqb (a_targetId a) g); [|reflexivity].
  cbn [andb]. unfold Spec2.maps_to. fold keq.
  destruct (filter_key_at_most_one
              Spec.crosswalk_pair keq (a_diseaseId a, t) crosswalk)
    as [Hnil|[c Hc]]; [| exact Hnd | |].
  - intros c. unfold keq, Spec.crosswalk_pair.
    rewrite andb_true_iff, !String.eqb_eq. split.
    + now intros [-> ->].
    + intros H. injection H. auto.
  - rewrite Hnil. apply existsb_filter in Hnil. now rewrite Hnil.
  - rewrite Hc.
    destruct (existsb keq crosswalk) eqn:Ee; [reflexivity|].
    apply existsb_filter in Ee. congruence.
Qed.

(** X10.  On a crosswalk that has one row per (disease, term), as the
    builder leaves it, every association of the gene whose disease maps to
    the term counts exactly once: the evidence count of a row is the int64
    sum over these associations (their sum whenever it lies in the signed
    64-bit range) and its score their maximum. *)
Theorem build_final_dataset_counts_associations_once
        (associations : list Association)
        (cancer_diseases : list CancerDisease)
        (crosswalk : list CrosswalkRow) :
  NoDup (map Spec.crosswalk_pair crosswalk) ->
  forall r,
    In r (build_final_dataset associations cancer_diseases crosswalk) ->
    let s := Spec2.supporting associations crosswalk (targetId r) (meshId r) in
    s <> []
    /\ evidenceCount r = wrap_int64 (Spec.total (map a_evidenceCount s))
    /\ (Spec.fits_int64 (Spec.total (map a_evidenceCount s)) ->
        evidenceCount r = Spec.total (map a_evidenceCount s))
    /\ Spec.is_maximum (score r) (map a_score s).
Proof.
  intros Hnd r Hr. apply in_build_final_dataset in Hr.
  destruct Hr as [g [t [Hne ->]]]. cbn [targetId meshId score evidenceCount].
  cbv zeta.
  rewrite <- (contributing_supporting associations crosswalk g t Hnd).
  rewrite !map_map. split; [|split; [|split]].
  - intros E. apply map_eq_nil in E. contradiction.
  - apply agg_sum_wrap.
  - apply agg_sum_total.
  - apply agg_max_maximum. intros E. apply map_eq_nil in E. contradiction.
Qed.

Lemma build_final_dataset_counts_associations_once_witness :
  NoDup (map Spec.crosswalk_pair Samples.crosswalk_T)
  /\ In (mkGeneMesh "G" "T" (8 # 10) 8%Z)
        (build_final_dataset Samples.associations_G [] Samples.crosswalk_T)
  /\ Spec.fits_int64
       (Spec.total
          (map a_evidenceCount
               (Spec2.supporting Samples.associations_G
                                 Samples.crosswalk_T "G" "T")))
  /\ 8%Z = Spec.total
             (map a_evidenceCount
                  (Spec2.supporting Samples.associations_G
                                    Samples.crosswalk_T "G" "T")).
Proof.
  assert (Hnd : NoDup (map Spec.crosswalk_pair Samples.crosswalk_T)).
  { simpl. constructor.
    - intros [H|[]]. discriminate H.
    - constructor; [intros []|constructor]. }
  assert (Hin : In (mkGeneMesh "G" "T" (8 # 10) 8%Z)
                   (build_final_dataset Samples.associations_G []
                                        Samples.crosswalk_T))
    by (simpl; now left).
  assert (Hfit : Spec.fits_int64
                   (Spec.total
                      (map a_evidenceCount
                           (Spec2.supporting Samples.associations_G
                                             Samples.crosswalk_T "G" "T"))))
    by (split; [discriminate | reflexivity]).
  split; [exact Hnd|]. split; [exact Hin|]. split; [exact Hfit|].
  exact (proj1 (proj2 (proj2 (build_final_dataset_counts_associations_once
                                Samples.associations_G [] Samples.crosswalk_T
                                Hnd _ Hin)))
               Hfit).
Defined.

Lemma in_contributing (associations : list Association)
      (crosswalk : list CrosswalkRow) (g t : string)
      (p : Association * CrosswalkRow) :
  In p (Spec.contributing associations crosswalk g t) ->
  In (fst p) associations /\ In (snd p) crosswalk
  /\ cw_diseaseId (snd p) = a_diseaseId (fst p)
  /\ a_targetId (fst p) = g /\ cw_meshId (snd p) = t.
Proof.
  unfold Spec.contributing, Spec.same_disease. intros H.
  apply filter_In in H. destruct H as [Hin Hb].
  destruct p as [a c]. apply in_prod_iff in Hin.
  rewrite !andb_true_iff, !String.eqb_eq in Hb. cbn [fst snd] in *. tauto.
Qed.

Lemma total_nonneg (l : list Z) :
  (forall z, In z l -> (0 <= z)%Z) -> (0 <= Spec.total l)%Z.
Proof.
  unfold Spec.total. induction l as [|z t IH]; simpl; [lia|].
  intros H. assert (0 <= z)%Z by (apply H; now left).
  assert (0 <= fold_right Z.add 0 t)%Z by (apply IH; intros; apply H; now right).
  lia.
Qed.

(** X11.  The aggregation keeps the ranges of its input: every score
    of the output is the score of one of the associations, so bounds on the
    association scores hold for the output; every evidence count of the
    output is an int64; and evidence counts that are not negative give a
    count that is not negative as long as the sum of the row stays below
    2^63. *)
Theorem build_final_dataset_keeps_ranges
        (associations : list Association)
        (cancer_diseases : list CancerDisease)
        (crosswalk : list CrosswalkRow) (lo hi : Q) :
  (forall a, In a associations ->
             (lo <= a_score a)%Q /\ (a_score a <= hi)%Q
             /\ (0 <= a_evidenceCount a)%Z) ->
  forall r,
    In r (build_final_dataset associations cancer_diseases crosswalk) ->
    (exists a, In a associations /\ a_targetId a = targetId r
               /\ score r = a_score a)
    /\ (lo <= score r)%Q /\ (score r <= hi)%Q
    /\ Spec.fits_int64 (evidenceCount r)
    /\ ((Spec.total
           (map (fun p => a_evidenceCount (fst p))
                (Spec.contributing associations crosswalk
                                   (targetId r) (meshId r)))
         < 2 ^ 63)%Z ->
        (0 <= evidenceCount r)%Z).
Proof.
  intros Hrange r Hr. apply in_build_final_dataset in Hr.
  destruct Hr as [g [t [Hne ->]]]. cbn [targetId meshId score evidenceCount].
  set (c := Spec.contributing associations crosswalk g t) in *.
  assert (Hmax : Spec.is_maximum
                   (agg_max (map (fun p => a_score (fst p)) c))
                   (map (fun p => a_score (fst p)) c)).
  { apply agg_max_maximum. intros E. apply map_eq_nil in E. contradiction. }
  destruct Hmax as [Hin _]. apply in_map_iff in Hin.
  destruct Hin as [p [Hp Hpc]].
  destruct (in_contributing _ _ _ _ _ Hpc) as [Ha [_ [_ [Hg _]]]].
  destruct (Hrange _ Ha) as [Hlo [Hhi _]].
  assert (Hpos : (0 <= Spec.total (map (fun p => a_evidenceCount (fst p)) c))%Z).
  { apply total_nonneg. intros z Hz.
    apply in_map_iff in Hz. destruct Hz as [q [<- Hq]].
    destruct (in_contributing _ _ _ _ _ Hq) as [Hqa _].
    now apply Hrange. }
  split; [|split; [|split; [|split]]].
  - exists (fst p). rewrite Hp. auto.
  - now rewrite <- Hp.
  - now rewrite <- Hp.
  - rewrite agg_sum_wrap. apply wrap_int64_range.
  - intros Hlt. rewrite agg_sum_total; [exact Hpos|].
    unfold Spec.fits_int64. split; [|exact Hlt].
    apply Z.le_trans with 0%Z; [discriminate | exact Hpos].
Qed.

Lemma build_final_dataset_keeps_ranges_witness :
  In (mkGeneMesh "G" "T" (8 # 10) 8%Z)
     (build_final_dataset Samples.associations_G [] Samples.crosswalk_T)
  /\ (0 <= 8 # 10)%Q /\ (8 # 10 <= 1)%Q /\ (0 <= 8)%Z.
Proof.
  assert (Hin : In (mkGeneMesh "G" "T" (8 # 10) 8%Z)
                   (build_final_dataset Samples.associations_G []
                                        Samples.crosswalk_T))
    by (simpl; now left).
  assert (Hrange : forall a, In a Samples.associations_G ->
                             (0 <= a_score a)%Q /\ (a_score a <= 1)%Q
                             /\ (0 <= a_evidenceCount a)%Z).
  { intros a [<-|[<-|[]]]; simpl; repeat split;
      try (apply Qle_bool_iff; reflexivity); lia. }
  pose proof (build_final_dataset_keeps_ranges
                Samples.associations_G [] Samples.crosswalk_T 0 1
                Hrange _ Hin) as H.
  destruct H as [_ [Hlo [Hhi [_ Hcount]]]].
  split; [exact Hin|]. split; [exact Hlo|]. split; [exact Hhi|].
  apply Hcount. reflexivity.
Defined.

(** X12.  The aggregator returns for every input, and its table is
    empty exactly when no association belongs to a disease of the
    crosswalk. *)
Theorem build_final_dataset_empty_iff
        (associations : list Association)
        (cancer_diseases : list CancerDisease)
        (crosswalk : list CrosswalkRow) :
  build_final_dataset associations cancer_diseases crosswalk = []
  <-> forall a c, In a associations -> In c crosswalk ->
                  a_diseaseId a <> cw_diseaseId c.
Proof.
  split.
  - intros Hnil a c Ha Hc E.
    assert (Hne : Spec.contributing associations crosswalk
                                    (a_targetId a) (cw_meshId c) <> []).
    { intros Hn.
      assert (Hin : In (a, c) (Spec.contributing associations crosswalk
                                                 (a_targetId a) (cw_meshId c))).
      { unfold Spec.contributing, Spec.same_disease. apply filter_In.
        split; [now apply in_prod|]. cbn [fst snd].
        now rewrite E, !String.eqb_refl. }
      rewrite Hn in Hin. destruct Hin. }
    assert (Hin : In (mkGeneMesh
                        (a_targetId a) (cw_meshId c)
                        (agg_max (map (fun p => a_score (fst p))
                                      (Spec.contributing
                                         associations crosswalk
                                         (a_targetId a) (cw_meshId c))))
                        (agg_sum (map (fun p => a_evidenceCount (fst p))
                                      (Spec.contributing
                                         associations crosswalk
                                         (a_targetId a) (cw_meshId c)))))
                     (build_final_dataset associations cancer_diseases
                                          crosswalk)).
    { apply in_build_final_dataset. now exists (a_targetId a), (cw_meshId c). }
    rewrite Hnil in Hin. destruct Hin.
  - intros Hno.
    destruct (build_final_dataset associations cancer_diseases crosswalk)
      as [|r rest] eqn:E; [reflexivity|].
    exfalso.
    assert (Hr : In r (build_final_dataset associations cancer_diseases
                                           crosswalk))
      by (rewrite E; now left).
    apply in_build_final_dataset in Hr. destruct Hr as [g [t [Hne _]]].
    destruct (Spec.contributing associations crosswalk g t) as [|p ps] eqn:Ec;
      [congruence|].
    assert (Hp : In p (Spec.contributing associations crosswalk g t))
      by (rewrite Ec; now left).
    destruct (in_contributing _ _ _ _ _ Hp) as [Ha [Hc [Hd _]]].
    exact (Hno _ _ Ha Hc (eq_sym Hd)).
Qed.
End AggregatorMore.

(** ** More on the identifier remapper *)

Section RemapperMore.
Import BuildCrosswalk AddEntrez.

Lemma load_gene2ensembl_unfold (table : list Gene2Ensembl) (tax : string) :
  load_gene2ensembl table tax
  = drop_duplicates_first same_ensembl
      (drop_duplicates_first same_mapping
         (map (fun r => mkMap (GeneID r) (Ensembl_gene_identifier r))
              (filter (fun r => option_eqb String.eqb (tax_id r) (Some tax))
                      table))).
Proof. unfold load_gene2ensembl. now rewrite boolean_index_map. Qed.

(** X13.  The mapping [load_gene2ensembl] returns is a function of the
    Ensembl id: no two rows share one; each row is the (GeneID, Ensembl id)
    pair of a row of the requested taxon; every Ensembl id of that taxon is
    kept; and the first row of the table for an id decides its Entrez id. *)
Theorem load_gene2ensembl_first_seen
        (table : list Gene2Ensembl) (tax : string) :
  NoDup (map ensemblGeneId (load_gene2ensembl table tax))
  /\ (forall e,
        In e (load_gene2ensembl table tax) ->
        exists row,
          find (fun r => option_eqb String.eqb (tax_id r) (Some tax)
                         && option_eqb String.eqb (Ensembl_gene_identifier r)
                                       (ensemblGeneId e))
               table
          = Some row
          /\ In row table /\ tax_id row = Some tax
          /\ GeneID row = entrezGeneId e
          /\ Ensembl_gene_identifier row = ensemblGeneId e)
  /\ (forall row,
        In row table -> tax_id row = Some tax ->
        exists e, In e (load_gene2ensembl table tax)
                  /\ ensemblGeneId e = Ensembl_gene_identifier row).
Proof.
  rewrite load_gene2ensembl_unfold.
  set (humans := filter (fun r => option_eqb String.eqb (tax_id r) (Some tax))
                        table).
  set (pairs := map (fun r => mkMap (GeneID r) (Ensembl_gene_identifier r))
                    humans).
  split; [|split].
  - apply (drop_duplicates_first_NoDup _ _ same_ensembl_key).
  - intros e He.
    assert (Hf : filter (fun x => option_eqb String.eqb (ensemblGeneId x)
                                             (ensemblGeneId e))
                        (drop_duplicates_first
                           same_ensembl
                           (drop_duplicates_first same_mapping pairs))
                 = match find (fun x => option_eqb String.eqb
                                                   (ensemblGeneId x)
                                                   (ensemblGeneId e))
                              pairs with
                   | Some x => [x]
                   | None => []
                   end).
    { rewrite (filter_drop_duplicates_first
                 ensemblGeneId same_ensembl same_ensembl_key
                 _ (ensemblGeneId e))
        by (intros a; apply option_eqb_eq).
      now rewrite (find_drop_duplicates_first
                     (fun x : EntrezMap => x) same_mapping same_mapping_eq)
        by (intros a b ->; reflexivity). }
    assert (Hin : In e (filter (fun x => option_eqb String.eqb
                                                    (ensemblGeneId x)
                                                    (ensemblGeneId e))
                               (drop_duplicates_first
                                  same_ensembl
                                  (drop_duplicates_first same_mapping pairs)))).
    { apply filter_In. split; [exact He | now apply option_eqb_eq]. }
    rewrite Hf in Hin. unfold pairs, humans in Hin.
    rewrite find_map, find_filter in Hin. cbn [ensemblGeneId] in Hin.
    destruct (find _ table) as [row|] eqn:Efind; [|destruct Hin].
    destruct Hin as [<-|[]]. exists row.
    destruct (find_some _ _ Efind) as [Hrow Hb].
    apply andb_true_iff in Hb. destruct Hb as [Ht Hk].
    apply option_eqb_eq in Ht. cbn [ensemblGeneId entrezGeneId].
    repeat split; auto.
  - intros row Hrow Htax.
    assert (Hp : In (mkMap (GeneID row) (Ensembl_gene_identifier row)) pairs).
    { unfold pairs. apply in_map_iff. exists row. split; [reflexivity|].
      unfold humans. apply filter_In.
      split; [exact Hrow | now apply option_eqb_eq]. }
    destruct (drop_duplicates_first_complete
                (fun x : EntrezMap => x) same_mapping same_mapping_eq
                pairs _ Hp) as [y [Hy Ey]].
    subst y.
    destruct (drop_duplicates_first_complete
                ensemblGeneId same_ensembl same_ensembl_key _ _ Hy)
      as [e [He Ee]].
    exists e. split; [exact He | exact Ee].
Qed.

Lemma drop_duplicates_first_twice {A K : Type} (key : A -> K)
      (same_row same_k : A -> A -> bool) (l : list A) :
  (forall a b, same_row a b = true <-> a = b) ->
  (forall a b, same_k a b = true <-> key a = key b) ->
  forall seen_row seen_k,
    (forall x, In x seen_row -> exists y, In y seen_k /\ key y = key x) ->
    drop_duplicates_first_from
      same_k seen_k (drop_duplicates_first_from same_row seen_row l)
    = drop_duplicates_first_from same_k seen_k l.
Proof.
  intros Hrow Hk. induction l as [|x t IH]; intros seen_row seen_k Hcov;
    [reflexivity|].
  cbn [drop_duplicates_first_from].
  destruct (existsb (same_row x) seen_row) eqn:Er.
  - apply existsb_exists in Er. destruct Er as [s [Hs Es]].
    apply Hrow in Es. subst s.
    destruct (Hcov x Hs) as [y [Hy Ey]].
    assert (Ek : existsb (same_k x) seen_k = true).
    { apply existsb_exists. exists y. split; [exact Hy|].
      apply Hk. now symmetry. }
    rewrite Ek. now apply IH.
  - cbn [drop_duplicates_first_from].
    destruct (existsb (same_k x) seen_k) eqn:Ek.
    + apply IH. intros z [<-|Hz]; [|now apply Hcov].
      apply existsb_exists in Ek. destruct Ek as [y [Hy Ey]].
      exists y. split; [exact Hy|]. symmetry. now apply Hk.
    + f_equal. apply IH. intros z [<-|Hz].
      * exists x. split; [now left | reflexivity].
      * destruct (Hcov z Hz) as [y [Hy Ey]]. exists y. split; [now right|exact Ey].
Qed.

(** X14.  The first [drop_duplicates] of [load_gene2ensembl], on whole
    rows, changes nothing in the result: dropping duplicates by Ensembl id
    alone gives the same mapping. *)
Theorem load_gene2ensembl_single_dedup
        (table : list Gene2Ensembl) (tax : string) :
  load_gene2ensembl table tax
  = drop_duplicates_first
      same_ensembl
      (map (fun r => mkMap (GeneID r) (Ensembl_gene_identifier r))
           (filter (fun r => option_eqb String.eqb (tax_id r) (Some tax))
                   table)).
Proof.
  rewrite load_gene2ensembl_unfold. unfold drop_duplicates_first.
  apply (drop_duplicates_first_twice ensemblGeneId).
  - intros a b. apply (same_mapping_eq a b).
  - apply same_ensembl_key.
  - intros x [].
Qed.

Example load_gene2ensembl_repeats :
  load_gene2ensembl Samples2.gene2ensembl_repeats HUMAN_TAX_ID
  = [mkMap (Some "7157") (Some "ENSG00000141510")].
Proof. reflexivity. Qed.

Lemma filter_length_le' {A : Type} (f : A -> bool) (l : list A) :
  List.length (filter f l) <= List.length l.
Proof.
  induction l as [|x t IH]; simpl; [lia|].
  destruct (f x); simpl; lia.
Qed.

(** X15.  The left merge keeps the number of rows: no gene/term row is
    duplicated by the crosswalk, whatever it contains.  A returned final
    table has one row for each input row with an Entrez id, so it is never
    longer than the input. *)
Theorem run_row_counts
        (verbose : bool) (df : list GeneMesh)
        (gene2ensembl : list Gene2Ensembl) :
  List.length (merge_left df (load_gene2ensembl gene2ensembl HUMAN_TAX_ID))
  = List.length df
  /\ forall final,
      run verbose df gene2ensembl = Ok final ->
      List.length (rows final)
      = List.length (filter (Spec.has_entrez gene2ensembl) df)
      /\ List.length (rows final) <= List.length df.
Proof.
  split.
  - now rewrite merge_left_spec, length_map.
  - intros final Hrun.
    pose proof (run_outcome verbose df gene2ensembl) as H.
    rewrite Hrun in H. destruct H as [_ [images [Hperm Hall]]].
    assert (Hlen : List.length (rows final)
                   = List.length (filter (Spec.has_entrez gene2ensembl) df)).
    { rewrite (Permutation_length Hperm).
      symmetry. exact (Forall2_length_eq _ _ _ Hall). }
    split; [exact Hlen|]. rewrite Hlen. apply filter_length_le'.
Qed.

Lemma to_int64_exceptions (s : string) (e : exn) :
  to_int64 s = Raise e -> e = ValueError s \/ e = OverflowError.
Proof.
  unfold to_int64. destruct (int_of_str s) as [z|].
  - destruct (_ && _)%bool; [discriminate|]. intros [= <-]. now right.
  - intros [= <-]. now left.
Qed.

(** X16.  With [verbose] the remapper raises [ZeroDivisionError] on an
    empty gene/term table, whatever the crosswalk is, and on no other
    input; without [verbose] the empty table gives the empty four-column
    table. *)
Theorem run_empty_table (gene2ensembl : list Gene2Ensembl) :
  run true [] gene2ensembl = Raise ZeroDivisionError
  /\ run false [] gene2ensembl = Ok (mkDF final_columns [])
  /\ forall verbose df,
      run verbose df gene2ensembl = Raise ZeroDivisionError ->
      verbose = true /\ df = [].
Proof.
  split; [reflexivity|]. split; [reflexivity|].
  intros verbose df Hrun.
  pose proof (run_outcome verbose df gene2ensembl) as H.
  rewrite Hrun in H. destruct H as [[Hv [Hd _]]|[r [s [_ [_ Hs]]]]]; [auto|].
  apply to_int64_exceptions in Hs. destruct Hs; discriminate.
Qed.

(** X17.  One Entrez id that is no int64 stops the whole run: when a
    gene of the table maps to such an id, the remapper raises and returns
    no table, not even for the other rows. *)
Theorem run_fails_on_bad_entrez_id
        (verbose : bool) (df : list GeneMesh)
        (gene2ensembl : list Gene2Ensembl)
        (r : GeneMesh) (s : string) (e : exn) :
  In r df ->
  Spec.entrez_of gene2ensembl (targetId r) = Some s ->
  to_int64 s = Raise e ->
  exists e', run verbose df gene2ensembl = Raise e'.
Proof.
  intros Hr Hs He.
  pose proof (run_outcome verbose df gene2ensembl) as H.
  destruct (run verbose df gene2ensembl) as [final|e']; [|now exists e'].
  exfalso. destruct H as [_ [images [_ Hall]]].
  assert (Hin : In r (filter (Spec.has_entrez gene2ensembl) df)).
  { apply filter_In. split; [exact Hr|].
    unfold Spec.has_entrez. now rewrite Hs. }
  destruct (Forall2_In_l _ _ _ r Hall Hin) as [f [_ Hrem]].
  destruct Hrem as [_ [_ [_ [s' [Hs' Hz]]]]].
  rewrite Hs in Hs'. injection Hs' as <-. congruence.
Qed.

Lemma run_fails_on_bad_entrez_id_witness :
  exists e',
    run false Samples.gene_mesh_two_genes Samples2.gene2ensembl_bad_id
    = Raise e'.
Proof.
  apply (run_fails_on_bad_entrez_id
           false Samples.gene_mesh_two_genes Samples2.gene2ensembl_bad_id
           (mkGeneMesh "ENSG00000141510" "D001943" (9 # 10) 4%Z)
           "-" (ValueError "-")).
  - simpl. now left.
  - reflexivity.
  - reflexivity.
Defined.
End RemapperMore.

(** ** The configuration loader *)

Section ConfigFacts.
Import RunAll Config.

Lemma find_ancestors_upto (P : Path -> bool) (current : Path) (k : nat) :
  match find P (ancestors_upto k current) with
  | Some r =>
      exists j, j <= k /\ r = firstn j current /\ P r = true
                /\ forall i, j < i -> i <= k -> P (firstn i current) = false
  | None => forall i, i <= k -> P (firstn i current) = false
  end.
Proof.
  induction k as [|k IH]; cbn [ancestors_upto find].
  - destruct (P (firstn 0 current)) eqn:E.
    + exists 0. repeat split; auto. intros i Hi Hi'. lia.
    + intros i Hi. assert (i = 0) by lia. now subst.
  - destruct (P (firstn (S k) current)) eqn:E.
    + exists (S k). repeat split; auto. intros i Hi Hi'. lia.
    + destruct (find P (ancestors_upto k current)) as [r|].
      * destruct IH as [j [Hj [Hr [HP Hlater]]]].
        exists j. repeat split; auto. intros i Hi Hi'.
        destruct (Nat.eq_dec i (S k)) as [->|Hne]; [exact E|].
        apply Hlater; lia.
      * intros i Hi.
        destruct (Nat.eq_dec i (S k)) as [->|Hne]; [exact E|].
        apply IH. lia.
Qed.

Lemma firstn_prefix (p rest : Path) :
  firstn (List.length p) (p ++ rest) = p.
Proof.
  induction p as [|a p IH]; simpl; [reflexivity | now rewrite IH].
Qed.

Lemma get_project_root_nearest_aux (exists_ : Path -> bool) (current : Path) :
  match get_project_root exists_ current with
  | Ok root =>
      (exists rest, current = root ++ rest)
      /\ exists_ (pdiv root "config.yaml") = true
      /\ forall p rest,
          current = p ++ rest -> List.length root < List.length p ->
          exists_ (pdiv p "config.yaml") = false
  | Raise _ =>
      forall p rest,
        current = p ++ rest -> exists_ (pdiv p "config.yaml") = false
  end.
Proof.
  unfold get_project_root, candidates.
  pose proof (find_ancestors_upto
                (fun parent => exists_ (pdiv parent "config.yaml"))
                current (List.length current)) as H.
  destruct (find _ (ancestors_upto (List.length current) current)) as [r|].
  - destruct H as [j [Hj [-> [HP Hlater]]]]. split; [|split].
    + exists (skipn j current). symmetry. apply firstn_skipn.
    + exact HP.
    + intros p rest Hcur Hlen.
      rewrite <- (firstn_prefix p rest), <- Hcur.
      assert (Hjl : List.length (firstn j current) = j)
        by (apply firstn_length_le; exact Hj).
      apply Hlater; [lia|]. rewrite Hcur, length_app. lia.
  - intros p rest Hcur.
    rewrite <- (firstn_prefix p rest), <- Hcur.
    apply H. rewrite Hcur, length_app. lia.
Qed.

(** X18.  [get_project_root] returns the nearest directory, from the
    module's own path upwards, that holds a [config.yaml]: a prefix of the
    path with the file in it, all longer prefixes being without it.  It
    raises exactly when no prefix has the file. *)
Theorem get_project_root_nearest (exists_ : Path -> bool) (current : Path) :
  match get_project_root exists_ current with
  | Ok root =>
      (exists rest, current = root ++ rest)
      /\ exists_ (pdiv root "config.yaml") = true
      /\ forall p rest,
          current = p ++ rest -> List.length root < List.length p ->
          exists_ (pdiv p "config.yaml") = false
  | Raise e =>
      e = FileNotFoundError
            "Could not find project root (no config.yaml found)"
      /\ forall p rest,
          current = p ++ rest -> exists_ (pdiv p "config.yaml") = false
  end.
Proof.
  pose proof (get_project_root_nearest_aux exists_ current) as H.
  destruct (get_project_root exists_ current) as [root|e] eqn:E;
    [exact H|].
  split; [|exact H].
  unfold get_project_root in E.
  destruct (find _ (candidates current)); [discriminate|].
  now injection E as <-.
Qed.

Example get_project_root_sample :
  get_project_root (file_exists Samples2.sample_disk) Samples2.config_module
  = Ok ["home"; "u"; "repo"].
Proof. reflexivity. Qed.

(** X19.  [load_config] never assigns [_CONFIG_CACHE]: the test
    [config_path is None] that guards the assignment comes after
    [config_path] has been bound to a path.  The cache is the same after
    every call, so a process that starts without cache reads the file again
    on each call. *)
Theorem load_config_never_caches
        (disk : Disk) (current : Path) (config_path : option Path)
        (cache : option ConfigDict) :
  snd (load_config disk current config_path cache) = cache
  /\ forall disk' config_path',
      load_config disk' current config_path'
                  (snd (load_config disk current config_path None))
      = load_config disk' current config_path' None.
Proof.
  assert (H : forall d cp c, snd (load_config d current cp c) = c).
  { intros d cp c. unfold load_config.
    destruct c as [cached|]; destruct cp as [p|]; cbn [snd];
      try reflexivity;
      destruct (get_project_root (file_exists d) current) as [root|e];
      cbn [snd]; try reflexivity;
      destruct (negb (file_exists d _)); reflexivity. }
  split; [apply H|]. intros disk' cp'. now rewrite H.
Qed.

(** X20.  A loaded configuration has its paths resolved against the
    project root: the keys are those of the file, a relative [str] entry is
    the root followed by its names, and no [str] entry is left relative. *)
Theorem load_config_resolves_paths
        (disk : Disk) (current : Path) (config_path : option Path)
        (config : ConfigDict) (cache' : option ConfigDict) :
  load_config disk current config_path None = (Ok config, cache') ->
  exists root,
    get_project_root (file_exists disk) current = Ok root
    /\ root_ config = root
    /\ let file := match config_path with
                   | None => pdiv root "config.yaml"
                   | Some p => p
                   end in
       let entries := match doc_paths (yaml_of disk file) with
                      | Some ps => ps
                      | None => []
                      end in
       file_exists disk file = true
       /\ map fst (paths config) = map fst entries
       /\ (forall k names,
             In (k, VStr false names) entries ->
             In (k, VStr true (root ++ names)) (paths config))
       /\ (forall k names,
             In (k, VStr false names) (paths config) -> False).
Proof.
  unfold load_config.
  destruct (get_project_root (file_exists disk) current) as [root|e] eqn:Er.
  2:{ destruct config_path; discriminate. }
  assert (Hgoal :
            (if negb (file_exists disk
                        (match config_path with
                         | None => pdiv root "config.yaml"
                         | Some p => p
                         end))
             then (Raise (FileNotFoundError "Config file not found"),
                   @None ConfigDict)
             else
               (Ok (mkConfigDict
                      (map (fun kv => (fst kv, resolve root (snd kv)))
                           (match doc_paths
                                    (yaml_of disk
                                       (match config_path with
                                        | None => pdiv root "config.yaml"
                                        | Some p => p
                                        end)) with
                            | Some ps => ps
                            | None => []
                            end))
                      root
                      (doc_other
                         (yaml_of disk
                            (match config_path with
                             | None => pdiv root "config.yaml"
                             | Some p => p
                             end)))),
                None))
            = (Ok config, cache') ->
            exists root0,
              Ok root = Ok root0 /\ root_ config = root0
              /\ let file := match config_path with
                             | None => pdiv root0 "config.yaml"
                             | Some p => p
                             end in
                 let entries := match doc_paths (yaml_of disk file) with
                                | Some ps => ps
                                | None => []
                                end in
                 file_exists disk file = true
                 /\ map fst (paths config) = map fst entries
                 /\ (forall k names,
                       In (k, VStr false names) entries ->
                       In (k, VStr true (root0 ++ names)) (paths config))
                 /\ (forall k names,
                       In (k, VStr false names) (paths config) -> False)).
  { set (file := match config_path with
                 | None => pdiv root "config.yaml"
                 | Some p => p
                 end).
    destruct (file_exists disk file) eqn:Ef; cbn [negb]; [|discriminate].
    intros H. injection H as <- _. exists root.
    split; [reflexivity|]. split; [reflexivity|]. cbv zeta. fold file.
    cbn [paths]. split; [exact Ef|].
    set (entries := match doc_paths (yaml_of disk file) with
                    | Some ps => ps
                    | None => []
                    end).
    split; [|split].
    - rewrite map_map. reflexivity.
    - intros k names Hin. apply in_map_iff.
      exists (k, VStr false names). split; [reflexivity | exact Hin].
    - intros k names Hin. apply in_map_iff in Hin.
      destruct Hin as [[k' v] [E _]]. cbn [fst snd] in E.
      injection E as _ E. destruct v as [[|] n|r]; discriminate E. }
  destruct config_path as [p|]; exact Hgoal.
Qed.

Lemma load_config_resolves_paths_witness :
  exists config,
    load_config Samples2.sample_disk Samples2.config_module None None
    = (Ok config, None)
    /\ In ("processed_dir",
           VStr true ["home"; "u"; "repo"; "data"; "processed"])
          (paths config).
Proof.
  eexists. split; [reflexivity|].
  destruct (load_config_resolves_paths
              Samples2.sample_disk Samples2.config_module None _ None eq_refl)
    as [root [Hroot [_ H]]].
  vm_compute in Hroot. injection Hroot as <-.
  cbv zeta in H. destruct H as [_ [_ [H _]]].
  apply (H "processed_dir" ["data"; "processed"]).
  vm_compute. now left.
Defined.

(** X21.  Without a [config.yaml] above the module, [load_config]
    fails with [FileNotFoundError] before it looks at its argument: an
    explicit path to an existing configuration file does not help. *)
Theorem load_config_needs_project_root
        (disk : Disk) (current : Path) (config_path : option Path) :
  (forall p rest, current = p ++ rest ->
                  file_exists disk (pdiv p "config.yaml") = false) ->
  fst (load_config disk current config_path None)
  = Raise (FileNotFoundError
             "Could not find project root (no config.yaml found)").
Proof.
  intros Hno. unfold load_config.
  assert (Hr : get_project_root (file_exists disk) current
               = Raise (FileNotFoundError
                          "Could not find project root (no config.yaml found)")).
  { pose proof (get_project_root_nearest_aux (file_exists disk) current) as H.
    unfold get_project_root in *.
    destruct (find _ (candidates current)) as [r|]; [|reflexivity].
    exfalso. destruct H as [[rest Hrest] [Hex _]].
    rewrite (Hno r rest Hrest) in Hex. discriminate. }
  rewrite Hr. now destruct config_path.
Qed.

Lemma load_config_needs_project_root_witness :
  fst (load_config
         (mkDisk (fun p => path_eqb p ["etc"; "pipeline.yaml"])
                 (fun _ => Samples2.sample_document))
         Samples2.config_module (Some ["etc"; "pipeline.yaml"]) None)
  = Raise (FileNotFoundError
             "Could not find project root (no config.yaml found)").
Proof.
  apply load_config_needs_project_root.
  intros p rest Hcur. cbn [file_exists].
  destruct (path_eqb (pdiv p "config.yaml") ["etc"; "pipeline.yaml"]) eqn:E;
    [|reflexivity].
  apply path_eqb_eq in E. unfold pdiv in E.
  destruct p as [|a [|b [|c p]]]; simpl in E; discriminate E.
Defined.
End ConfigFacts.

(** ** The steps in sequence *)

Section PipelineFacts.
Import ExtractMesh ExtractDiseases BuildCrosswalk AddEntrez Pipeline.






Example pipeline_end_to_end :
  pipeline Samples.disease_index "EFO_0000616" Samples.one_record_with_marker
           Samples2.associations_EFO_1 Samples.gene2ensembl_p53
  = Ok (mkDF final_columns [mkFinal "D001943" 7157%Z (9 # 10) 4%Z]).
Proof. reflexivity. Qed.

End PipelineFacts.

(** ** Line endings, and the builder on an empty explosion *)

Section LineEndings.
Import ExtractMesh.

Lemma lines_from_line (l : string) :
  forall cur rest,
    Spec2.no_break l = true ->
    lines_from cur (l ++ rest) = lines_from (string_rev_onto l cur) rest.
Proof.
  induction l as [|c l IH]; intros cur rest Hl; [reflexivity|].
  cbn [Spec2.no_break] in Hl.
  apply andb_true_iff in Hl. destruct Hl as [Hc Hl].
  apply andb_true_iff in Hc. destruct Hc as [Hnl Hcr].
  apply negb_true_iff in Hnl. apply negb_true_iff in Hcr.
  cbn [append lines_from string_rev_onto]. rewrite Hnl, Hcr.
  now apply IH.
Qed.

Lemma string_rev_rev_onto (l : string) :
  string_rev (string_rev_onto l EmptyString) = l.
Proof. apply (string_rev_involutive l). Qed.

Lemma lines_join_lf (ls : list string) :
  Forall (fun l => Spec2.no_break l = true) ls ->
  lines (Spec2.join_lines Spec2.LF ls) = ls.
Proof.
  unfold lines. induction 1 as [|l rest Hl _ IH]; [reflexivity|].
  cbn [Spec2.join_lines]. rewrite (lines_from_line l _ _ Hl).
  unfold Spec2.LF at 1. cbn [append lines_from].
  rewrite Ascii.eqb_refl, string_rev_rev_onto. now rewrite IH.
Qed.

Lemma lines_join_crlf (ls : list string) :
  Forall (fun l => Spec2.no_break l = true) ls ->
  lines (Spec2.join_lines Spec2.CRLF ls) = ls.
Proof.
  unfold lines. induction 1 as [|l rest Hl _ IH]; [reflexivity|].
  cbn [Spec2.join_lines]. rewrite (lines_from_line l _ _ Hl).
  unfold Spec2.CRLF at 1. cbn [append lines_from].
  change (Ascii.eqb cr nl) with false. rewrite !Ascii.eqb_refl.
  rewrite string_rev_rev_onto. now rewrite IH.
Qed.

(** X23.  The parser does not depend on the line terminator: a file
    whose lines end in CR LF gives the same result as the file with the same
    lines ending in LF. *)
Theorem parse_mesh_file_crlf (ls : list string) :
  Forall (fun l => Spec2.no_break l = true) ls ->
  parse_mesh_file (Spec2.join_lines Spec2.CRLF ls)
  = parse_mesh_file (Spec2.join_lines Spec2.LF ls)
  /\ lines (Spec2.join_lines Spec2.CRLF ls) = ls.
Proof.
  intros H. unfold parse_mesh_file.
  rewrite (lines_join_crlf ls H), (lines_join_lf ls H). auto.
Qed.

Lemma parse_mesh_file_crlf_witness :
  parse_mesh_file
    (Spec2.join_lines Spec2.CRLF
                      ["*NEWRECORD"; "MN = C04.588.180"; "UI = D001943"])
  = Ok [mkMeshDict (Some "D001943") None (Some ["C04.588.180"])].
Proof.
  rewrite (proj1 (parse_mesh_file_crlf
                    ["*NEWRECORD"; "MN = C04.588.180"; "UI = D001943"]
                    ltac:(repeat constructor))).
  reflexivity.
Defined.
End LineEndings.

Section BuilderErrors.
Import ExtractMesh ExtractDiseases BuildCrosswalk.

(** X24.  On a hierarchy frame the builder raises [KeyError('meshId')]
    exactly when no disease carries any MeSH id.  As soon as one does it
    returns a frame with the six columns, which is empty, and no error,
    when none of the ids has a hierarchy entry. *)
Theorem build_disease_mesh_crosswalk_raises_iff
        (cancer_diseases : list CancerDisease)
        (mesh_hierarchy : DataFrame HierarchyEntry) :
  columns mesh_hierarchy = hierarchy_columns ->
  ((forall D T, ~ Spec.pair_mapped cancer_diseases D T) ->
   build_disease_mesh_crosswalk cancer_diseases mesh_hierarchy
   = Raise (KeyError "meshId"))
  /\ (forall D T,
        Spec.pair_mapped cancer_diseases D T ->
        exists crosswalk,
          build_disease_mesh_crosswalk cancer_diseases mesh_hierarchy
          = Ok crosswalk
          /\ columns crosswalk
             = ["diseaseId"; "diseaseName"; "meshId"; "mesh_name";
                "tree_number"; "level"]
          /\ ((forall D' T' h,
                  Spec.pair_mapped cancer_diseases D' T' ->
                  In h (rows mesh_hierarchy) -> mesh_id h <> T') ->
              rows crosswalk = [])).
Proof.
  intros Hcols.
  rewrite (build_disease_mesh_crosswalk_unfold _ _ Hcols).
  split.
  - intros Hno.
    destruct (flat_map Spec.exploded_of cancer_diseases) as [|x xs] eqn:E;
      [reflexivity|].
    exfalso. apply (Hno (x_diseaseId x) (x_meshId x)).
    apply exploded_pair_mapped. exists x. rewrite E. split; [now left|auto].
  - intros D T Hmap. apply exploded_pair_mapped in Hmap.
    destruct Hmap as [x [Hx _]].
    destruct (flat_map Spec.exploded_of cancer_diseases) as [|x0 xs] eqn:E;
      [destruct Hx|].
    eexists. split; [reflexivity|]. split; [reflexivity|].
    intros Hnone. cbn [rows].
    assert (Hm : Spec.merged_rows cancer_diseases mesh_hierarchy = []).
    { destruct (Spec.merged_rows cancer_diseases mesh_hierarchy)
        as [|m ms] eqn:Em; [reflexivity|]. exfalso.
      assert (Hin : In m (Spec.merged_rows cancer_diseases mesh_hierarchy))
        by (rewrite Em; now left).
      apply in_merged_rows in Hin.
      destruct Hin as [y [h [Hy [Hh [Eh _]]]]].
      apply (Hnone (x_diseaseId y) (x_meshId y) h); [|exact Hh|exact Eh].
      apply exploded_pair_mapped. now exists y. }
    rewrite Hm. reflexivity.
Qed.

Lemma build_disease_mesh_crosswalk_raises_iff_witness :
  build_disease_mesh_crosswalk [mkCancer "D" "disease" None]
                               Samples.hierarchy_T
  = Raise (KeyError "meshId")
  /\ exists crosswalk,
      build_disease_mesh_crosswalk [mkCancer "D" "disease" (Some ["X"])]
                                   Samples.hierarchy_T
      = Ok crosswalk
      /\ rows crosswalk = [].
Proof.
  split.
  - apply (proj1 (build_disease_mesh_crosswalk_raises_iff
                    [mkCancer "D" "disease" None] Samples.hierarchy_T
                    eq_refl)).
    intros D T [d [ids [[<-|[]] [_ [H _]]]]]. discriminate H.
  - destruct (proj2 (build_disease_mesh_crosswalk_raises_iff
                       [mkCancer "D" "disease" (Some ["X"])]
                       Samples.hierarchy_T eq_refl) "D" "X")
      as [cw [Hcw [_ Hrows]]].
    + exists (mkCancer "D" "disease" (Some ["X"])), ["X"].
      simpl. auto.
    + exists cw. split; [exact Hcw|]. apply Hrows.
      intros D' T' h [d [ids [[<-|[]] [_ [Hids Hin]]]]] Hh.
      injection Hids as <-. destruct Hin as [<-|[]].
      destruct Hh as [<-|[<-|[]]]; discriminate.
Defined.
End BuilderErrors.
